(** * documentation_indexer: chunking, ingestion and search

    A shallow embedding of the Python sources (utils.py, indexer.py, db.py,
    app.py) together with the properties of the written specification that
    concern them.

    Conventions of the embedding.
    - A Python [str] that the code inspects character by character (page
      text, queries) is a list of Unicode code points.  Paths, identifiers
      and digests are only compared, and are kept as [string].
    - A Python [int] is a [Z]; a finite [float] (mtime, score) is denoted by
      its rational value, on which [==] and [<=] are exact.
    - Calls that leave the repository (the file system, hashlib, PyMuPDF,
      uuid, the clock, the FTS5 engine) go through the record [Env].
    - Exceptions are the [Raise] results of a state-and-error monad; state
      written before a raise stays written, as in Python. *)

From Stdlib Require Import List ZArith NArith QArith Bool Ascii String Lia.
From Stdlib Require Import Sorting.Sorted Sorting.Permutation DecimalString.
From Equations Require Import Equations.
Import ListNotations.

Set Warnings "-register-all".
Local Open Scope Z_scope.

(* ------------------------------------------------------------------ *)
(** ** Python values the sources manipulate *)

Module Py.

(** [str] as a sequence of code points. *)
Abbreviation str := (list N).

(** A literal, from its Latin-1 spelling. *)
Definition lit (s : string) : str :=
  List.map N_of_ascii (list_ascii_of_string s).

(** [len(s)]. *)
Definition len (s : str) : Z := Z.of_nat (List.length s).

(** [ch.isspace()]: the code points CPython classifies as whitespace,
    which are also the separators of [str.split()] and the characters
    removed by [str.strip()]. *)
Definition isspace (c : N) : bool :=
  ((9 <=? c) && (c <=? 13) || (28 <=? c) && (c <=? 32)
   || (c =? 133) || (c =? 160) || (c =? 5760)
   || (8192 <=? c) && (c <=? 8202)
   || (c =? 8232) || (c =? 8233) || (c =? 8239) || (c =? 8287)
   || (c =? 12288))%N.

Definition nbsp : N := 160.
Definition space : N := 32.
Definition newline : N := 10.

(** [s.replace(a, b)] for single characters [a] and [b]. *)
Definition replace (a b : N) (s : str) : str :=
  List.map (fun c => if (c =? a)%N then b else c) s.

(** [s.split()]: maximal runs of non-whitespace; [cur] is the run being
    read, most recent character first. *)
Fixpoint split_from (cur : str) (s : str) : list str :=
  match s with
  | [] => match cur with [] => [] | _ => [List.rev cur] end
  | c :: s' =>
      if isspace c then
        match cur with
        | [] => split_from [] s'
        | _ => List.rev cur :: split_from [] s'
        end
      else split_from (c :: cur) s'
  end.

Definition split (s : str) : list str := split_from [] s.

(** [sep.join(parts)]. *)
Fixpoint join (sep : str) (parts : list str) : str :=
  match parts with
  | [] => []
  | [p] => p
  | p :: rest => p ++ sep ++ join sep rest
  end.

Fixpoint lstrip (s : str) : str :=
  match s with
  | c :: s' => if isspace c then lstrip s' else s
  | [] => []
  end.

(** [s.strip()]. *)
Definition strip (s : str) : str :=
  List.rev (lstrip (List.rev (lstrip s))).

(** [s.lower()] on a byte string; only the ASCII letters are mapped. *)
Definition lower_ascii (a : ascii) : ascii :=
  let n := nat_of_ascii a in
  if (Nat.leb 65 n && Nat.leb n 90)%bool then ascii_of_nat (n + 32) else a.

Fixpoint lower (s : string) : string :=
  match s with
  | EmptyString => EmptyString
  | String a s' => String (lower_ascii a) (lower s')
  end.

(** Outcome of a call that may raise; the payload of [Raise] is
    [str(e)]. *)
Inductive Result (A : Type) : Type :=
| Ok (a : A)
| Raise (msg : string).
Arguments Ok {A} a.
Arguments Raise {A} msg.

(** A function applied to the value of a call that returned. *)
Definition fmap {A B} (f : A -> B) (r : Result A) : Result B :=
  match r with
  | Ok a => Ok (f a)
  | Raise msg => Raise msg
  end.

(** [[x for x in xs if test(x)]] for a test that may raise: the tests run
    in order and the first one that raises ends the loop. *)
Fixpoint filter_result {A} (test : A -> Result bool) (xs : list A)
  : Result (list A) :=
  match xs with
  | [] => Ok []
  | x :: xs' =>
      match test x with
      | Raise msg => Raise msg
      | Ok b =>
          match filter_result test xs' with
          | Raise msg => Raise msg
          | Ok kept => Ok (if b then x :: kept else kept)
          end
      end
  end.

(** [os.stat_result], the two fields that are read. *)
Record Stat := { st_mtime : Q; st_size : Z }.

(** What the program obtains from outside the repository. *)
Record Env := {
  (* pathlib; exists() and is_file() answer False when the stat fails
     with ENOENT, ENOTDIR, EBADF or ELOOP and raise any other OSError;
     glob() gives the paths it yields and, when the walk fails, the error
     that ends it *)
  path_exists : string -> Result bool;
  path_is_file : string -> Result bool;
  path_suffix : string -> string;
  path_name : string -> string;
  path_resolve : string -> Result string;
  path_stat : string -> Result Stat;
  path_glob : string -> string -> list string * option string;
  (* open(path, "rb"): the bytes of the file *)
  read_bytes : string -> Result (list N);
  (* hashlib.sha256(data).hexdigest() *)
  sha256_hexdigest : list N -> string;
  (* fitz: page.get_text("text") of every page, in page order *)
  fitz_pages : string -> Result (list str);
  (* the n-th value returned by uuid.uuid4().hex / time.time() *)
  uuid4_hex : nat -> string;
  time_time : nat -> Q;
  (* FTS5: MATCH (raises on a malformed query), bm25() and snippet();
     only the [text] column is tokenised *)
  fts_match : str -> Result (str -> bool);
  fts_bm25 : str -> list str -> str -> Q;
  fts_snippet : str -> str -> Z -> str;
  (* int(s) for a string s *)
  int_of_str : str -> Result Z
}.

(** Process state outside the database: how many uuids and clock
    readings were drawn, and a ghost trace of the calls of [index_pdf],
    of [fitz.open] and of [search_chunks]. *)
Inductive Event :=
| EvIndexPdf (path : string)
| EvFitzOpen (path : string)
| EvFtsQuery (query : str).

Record Sys := { uuid_ctr : nat; clock_ctr : nat; trace : list Event }.

Definition emit (e : Event) (s : Sys) : Sys :=
  {| uuid_ctr := uuid_ctr s; clock_ctr := clock_ctr s;
     trace := trace s ++ [e] |}.

(** State-and-error monad over a state [S]. *)
Definition M (S A : Type) : Type := S -> Result A * S.

Definition ret {S A} (a : A) : M S A := fun s => (Ok a, s).

Definition bind {S A B} (m : M S A) (k : A -> M S B) : M S B :=
  fun s => match m s with
           | (Ok a, s') => k a s'
           | (Raise msg, s') => (Raise msg, s')
           end.

Definition lift {S A} (r : Result A) : M S A := fun s => (r, s).

Definition modify {S} (f : S -> S) : M S unit := fun s => (Ok tt, f s).

Definition gets {S A} (f : S -> A) : M S A := fun s => (Ok (f s), s).

End Py.

Import Py.

Notation "x <- m ;; k" := (Py.bind m (fun x => k))
(at level 61, m at next level, right associativity).
Notation "m ;;; k" := (Py.bind m (fun _ => k))
(at level 61, right associativity).

(* ------------------------------------------------------------------ *)
(** ** config.py *)

Module Config.

Record Settings := {
  db_path : string;
  default_docs_dir : string;
  max_chunk_chars : Z;
  min_chunk_chars : Z;
  max_pages_per_chunk : Z;
  default_top_k : Z;
  default_snippet_chars : Z
}.

End Config.

(* ------------------------------------------------------------------ *)
(** ** utils.py *)

Module Utils.

(** [f.read(n)] on the unread rest of a file: the block and what stays
    unread. *)
Fixpoint read_block (n : N) (rest : list N) : list N * list N :=
  match rest with
  | [] => ([], [])
  | b :: rest' =>
      if (n =? 0)%N then ([], rest)
      else let (blk, r) := read_block (N.pred n) rest' in (b :: blk, r)
  end.

Definition inspect {A} (a : A) : {b : A | a = b} := exist _ a eq_refl.

(** The loop of [sha256_file]: [fed] is what [h.update] has received so
    far, [rest] what is still unread. *)
Equations? sha256_loop (chunk_size : N) (fed rest : list N) : list N
  by wf (List.length rest) lt :=
  sha256_loop chunk_size fed rest with inspect (read_block chunk_size rest) := {
    | exist _ ([], _) _ => fed
    | exist _ (b :: blk, r) e => sha256_loop chunk_size (fed ++ b :: blk) r
  }.
Proof.
  clear sha256_loop. revert chunk_size b blk r e.
  induction rest as [|x rest IH]; intros n b blk r; simpl.
  - discriminate.
  - destruct (n =? 0)%N; [discriminate|].
    destruct (read_block (N.pred n) rest) as [blk' r'] eqn:E.
    intros [= <- <- <-].
    destruct blk' as [|y blk'].
    + destruct rest as [|z rest]; simpl in E.
      * injection E as <-. simpl. lia.
      * destruct (N.pred n =? 0)%N.
        -- injection E as <-. simpl. lia.
        -- destruct (read_block (N.pred (N.pred n)) rest); discriminate.
    + specialize (IH _ _ _ _ E). simpl. lia.
Qed.

Definition default_chunk_size : N := 1024 * 1024.

Definition sha256_file (E : Env) (path : string) (chunk_size : N)
  : Result string :=
  match read_bytes E path with
  | Raise msg => Raise msg
  | Ok data => Ok (sha256_hexdigest E (sha256_loop chunk_size [] data))
  end.

Definition stable_doc_id (sha256_hex : string) : string := sha256_hex.

Definition normalize_text (s : str) : str :=
  let s := replace nbsp space s in
  let s := join [space] (split s) in
  strip s.

(** The test of the loop over the glob:
    [p.is_file() and p.suffix.lower() == ".pdf"]. *)
Definition is_pdf_file (E : Env) (p : string) : Result bool :=
  match path_is_file E p with
  | Raise msg => Raise msg
  | Ok b => Ok (b && String.eqb (lower (path_suffix E p)) ".pdf")
  end.

(** [list(iter_pdf_paths(root, recursive))], as the caller consumes the
    generator: the paths it yields, or the error that ends it. *)
Definition iter_pdf_paths (E : Env) (root : string) (recursive : bool)
  : Result (list string) :=
  match path_is_file E root with
  | Raise msg => Raise msg
  | Ok true =>
      Ok (if String.eqb (lower (path_suffix E root)) ".pdf" then [root]
          else [])
  | Ok false =>
      match path_exists E root with
      | Raise msg => Raise msg
      | Ok false => Ok []
      | Ok true =>
          let pattern :=
            if recursive then "**/*.pdf"%string else "*.pdf"%string in
          let (found, failure) := path_glob E root pattern in
          match filter_result (is_pdf_file E) found with
          | Raise msg => Raise msg
          | Ok kept =>
              match failure with
              | Some msg => Raise msg
              | None => Ok kept
              end
          end
      end
  end.

End Utils.

(* ------------------------------------------------------------------ *)
(** ** indexer.py *)

Module Indexer.

Record Chunk := {
  id : string;
  chunk_doc_id : string;
  page_start : Z;
  page_end : Z;
  text : str
}.

Record IndexedDocument := {
  doc_id : string;
  path : string;
  filename : string;
  sha256 : string;
  mtime : Q;
  size_bytes : Z;
  indexed_at : Q;
  chunks : list Chunk
}.

Definition extract_pages_text (E : Env) (pdf_path : string)
  : M Sys (list str) :=
  modify (emit (EvFitzOpen pdf_path)) ;;;
  pages <- lift (fitz_pages E pdf_path) ;;
  ret (List.map Utils.normalize_text pages).

(** The variables [build_chunks] and its closure [flush] share. *)
Record Locals := {
  out : list Chunk;
  buf : list str;
  current_start : Z;
  current_end : Z
}.

Definition init : Locals :=
  {| out := []; buf := []; current_start := 1; current_end := 1 |}.

(** [enumerate(l, start)]. *)
Fixpoint enumerate {A} (start : Z) (l : list A) : list (Z * A) :=
  match l with
  | [] => []
  | x :: l' => (start, x) :: enumerate (start + 1) l'
  end.

Section BuildChunks.
(** [ids k] is the value of the k-th call of [uuid.uuid4().hex] made
    by this run of [build_chunks]. *)
Variable ids : nat -> string.
Variable doc : string.
Variables max_chunk_chars min_chunk_chars max_pages_per_chunk : Z.

Definition flush (st : Locals) : Locals :=
  match buf st with
  | [] => st
  | _ =>
      let text := Utils.normalize_text (join [newline] (buf st)) in
      {| out := match text with
                | [] => out st
                | _ => out st ++
                       [ {| id := ids (List.length (out st));
                            chunk_doc_id := doc;
                            page_start := current_start st;
                            page_end := current_end st;
                            text := text |} ]
                end;
         buf := [];
         current_start := current_start st;
         current_end := current_end st |}
  end.

Definition start_at (idx : Z) (text : str) (st : Locals) : Locals :=
  {| out := out st; buf := [text];
     current_start := idx; current_end := idx |}.

Definition append_page (idx : Z) (text : str) (st : Locals) : Locals :=
  {| out := out st; buf := buf st ++ [text];
     current_start := current_start st; current_end := idx |}.

(** One iteration of the [for idx, text in enumerate(...)] loop. *)
Definition step (st : Locals) (it : Z * str) : Locals :=
  let (idx, text) := it in
  match text with
  | [] => st
  | _ =>
      match buf st with
      | [] => start_at idx text st
      | _ =>
          let candidate := join [newline] (buf st ++ [text]) in
          let pages_in_chunk := (idx - current_start st) + 1 in
          if (len candidate <=? max_chunk_chars)
             && (pages_in_chunk <=? max_pages_per_chunk)
          then append_page idx text st
          else
            let st :=
              if (len (join [newline] (buf st)) <? min_chunk_chars)
                 && (pages_in_chunk <=? max_pages_per_chunk)
              then append_page idx text st
              else st in
            let st := flush st in
            start_at idx text st
      end
  end.

Definition build_chunks (pages_text : list str) : list Chunk :=
  out (flush (List.fold_left step (enumerate 1 pages_text) init)).

End BuildChunks.

(** [build_chunks] in the process: it draws its chunk ids from the uuid
    source, one per chunk produced. *)
Definition build_chunks_io (E : Env) (pages_text : list str) (doc : string)
    (max_chunk_chars min_chunk_chars max_pages_per_chunk : Z)
  : M Sys (list Chunk) :=
  fun s =>
    let cs := build_chunks (fun k => uuid4_hex E (uuid_ctr s + k)%nat) doc
                max_chunk_chars min_chunk_chars max_pages_per_chunk
                pages_text in
    (Ok cs, {| uuid_ctr := (uuid_ctr s + List.length cs)%nat;
               clock_ctr := clock_ctr s; trace := trace s |}).

Definition now (E : Env) : M Sys Q :=
  fun s => (Ok (time_time E (clock_ctr s)),
            {| uuid_ctr := uuid_ctr s; clock_ctr := S (clock_ctr s);
               trace := trace s |}).

Definition index_pdf (E : Env) (pdf_path : string)
    (max_chunk_chars min_chunk_chars max_pages_per_chunk : Z)
  : M Sys IndexedDocument :=
  modify (emit (EvIndexPdf pdf_path)) ;;;
  stat <- lift (path_stat E pdf_path) ;;
  sha <- lift (Utils.sha256_file E pdf_path Utils.default_chunk_size) ;;
  let doc := Utils.stable_doc_id sha in
  pages <- extract_pages_text E pdf_path ;;
  cs <- build_chunks_io E pages doc
          max_chunk_chars min_chunk_chars max_pages_per_chunk ;;
  resolved <- lift (path_resolve E pdf_path) ;;
  t <- now E ;;
  ret {| doc_id := doc;
         path := resolved;
         filename := path_name E pdf_path;
         sha256 := sha;
         mtime := st_mtime stat;
         size_bytes := st_size stat;
         indexed_at := t;
         chunks := cs |}.

End Indexer.

(* ------------------------------------------------------------------ *)
(** ** db.py *)

Module Db.

Record SearchResult := {
  r_doc_id : string;
  r_filename : string;
  r_path : string;
  r_page_start : Z;
  r_page_end : Z;
  r_score : Q;
  r_snippet : str
}.

(** Rows of the three tables of [init_db].  [documents.id] and
    [chunks.id] are primary keys; no other column is unique. *)
Record DocumentRow := {
  d_id : string;
  d_path : string;
  d_filename : string;
  d_sha256 : string;
  d_mtime : Q;
  d_size_bytes : Z;
  d_indexed_at : Q
}.

Record ChunkRow := {
  c_id : string;
  c_document_id : string;
  c_page_start : Z;
  c_page_end : Z;
  c_text : str
}.

Record FtsRow := {
  f_chunk_id : string;
  f_document_id : string;
  f_filename : string;
  f_path : string;
  f_page_start : Z;
  f_page_end : Z;
  f_text : str
}.

(** Table contents, in rowid order. *)
Record Tables := {
  documents : list DocumentRow;
  chunks : list ChunkRow;
  chunks_fts : list FtsRow
}.

(** The connection: what the last commit made durable, and what the
    statements of the open transaction see. *)
Record Connection := { committed : Tables; current : Tables }.

Definition no_rows : Tables :=
  {| documents := []; chunks := []; chunks_fts := [] |}.

(** [connect] followed by [init_db] on a new database file. *)
Definition init_db : Connection :=
  {| committed := no_rows; current := no_rows |}.

Definition commit (conn : Connection) : Connection :=
  {| committed := current conn; current := current conn |}.

Definition rollback (conn : Connection) : Connection :=
  {| committed := committed conn; current := committed conn |}.

Definition execute (f : Tables -> Tables) (conn : Connection) : Connection :=
  {| committed := committed conn; current := f (current conn) |}.

(** INSERT ... ON CONFLICT(id) DO UPDATE SET every other column. *)
Definition upsert_document (row : DocumentRow) (conn : Connection)
  : Connection :=
  execute
    (fun t =>
       {| documents :=
            if List.existsb (fun r => String.eqb (d_id r) (d_id row))
                 (documents t)
            then List.map
                   (fun r => if String.eqb (d_id r) (d_id row)
                             then row else r)
                   (documents t)
            else documents t ++ [row];
          chunks := chunks t;
          chunks_fts := chunks_fts t |})
    conn.

(** SELECT * FROM documents WHERE path = ? LIMIT 1: the table is
    scanned in rowid order. *)
Definition get_document_by_path (conn : Connection) (path : string)
  : option DocumentRow :=
  List.find (fun r => String.eqb (d_path r) path) (documents (current conn)).

Definition delete_document_chunks (doc_id : string) (conn : Connection)
  : Connection :=
  execute
    (fun t =>
       {| documents := documents t;
          chunks := List.filter
                      (fun c => negb (String.eqb (c_document_id c) doc_id))
                      (chunks t);
          chunks_fts := List.filter
                      (fun f => negb (String.eqb (f_document_id f) doc_id))
                      (chunks_fts t) |})
    conn.

(** [executemany] of a plain INSERT into [chunks]: rows go in one by
    one, and the first one whose id is already present raises
    IntegrityError, the rows before it staying in the transaction. *)
Fixpoint insert_chunks (chunk_rows : list ChunkRow) : M Connection unit :=
  match chunk_rows with
  | [] => ret tt
  | row :: rest =>
      fun conn =>
        if List.existsb (fun c => String.eqb (c_id c) (c_id row))
             (chunks (current conn))
        then (Raise "UNIQUE constraint failed: chunks.id", conn)
        else insert_chunks rest
               (execute
                  (fun t => {| documents := documents t;
                               chunks := chunks t ++ [row];
                               chunks_fts := chunks_fts t |})
                  conn)
  end.

Definition insert_fts_rows (fts_rows : list FtsRow) (conn : Connection)
  : Connection :=
  execute
    (fun t => {| documents := documents t;
                 chunks := chunks t;
                 chunks_fts := chunks_fts t ++ fts_rows |})
    conn.

(** ORDER BY score: ascending, by insertion. *)
Fixpoint insert_by_score (x : FtsRow * Q) (l : list (FtsRow * Q))
  : list (FtsRow * Q) :=
  match l with
  | [] => [x]
  | y :: l' =>
      if Qle_bool (snd x) (snd y) then x :: l
      else y :: insert_by_score x l'
  end.

Definition order_by_score (l : list (FtsRow * Q)) : list (FtsRow * Q) :=
  List.fold_right insert_by_score [] l.

(** LIMIT k: a negative k is no limit at all. *)
Definition limit {A} (k : Z) (l : list A) : list A :=
  if k <? 0 then l else List.firstn (Z.to_nat k) l.

(** A Python int bound to a [?] of a statement: sqlite3 takes what fits
    a signed 64-bit integer and raises OverflowError on the rest. *)
Definition int64_min : Z := - 2 ^ 63.
Definition int64_max : Z := 2 ^ 63 - 1.

Definition fits_int64 (z : Z) : bool :=
  (int64_min <=? z) && (z <=? int64_max).

Definition bind_int (z : Z) : Result unit :=
  if fits_int64 z then Ok tt
  else Raise "Python int too large to convert to SQLite INTEGER".

(** A str bound to a [?]: it is encoded as UTF-8, which a lone surrogate
    (U+D800 to U+DFFF) has no encoding in; sqlite3 then raises the
    UnicodeEncodeError of the encoder, which names the first surrogate
    and its position, or the positions of the run of surrogates it
    starts. *)
Definition surrogate (c : N) : bool := ((55296 <=? c) && (c <=? 57343))%N.

Definition decimal (n : nat) : string :=
  NilEmpty.string_of_uint (Nat.to_uint n).

Definition hex_digit (d : N) : ascii :=
  ascii_of_N (if (d <? 10)%N then 48 + d else 87 + d)%N.

(** The escape of a code point of the basic plane: a backslash, u and
    four hexadecimal digits. *)
Definition escape (c : N) : string :=
  String (ascii_of_N 92)
    (String "u"
       (string_of_list_ascii
          (List.map hex_digit
             [c / 4096; (c / 256) mod 16; (c / 16) mod 16; c mod 16]%N))).

(** How many surrogates the string starts with. *)
Fixpoint surrogate_run (s : str) : nat :=
  match s with
  | c :: s' => if surrogate c then Datatypes.S (surrogate_run s') else O
  | [] => O
  end.

(** The message of the encoder on [s], whose first character has index
    [pos]; [None] when [s] has an encoding. *)
Fixpoint encode_error (pos : nat) (s : str) : option string :=
  match s with
  | [] => None
  | c :: s' =>
      if surrogate c then
        Some
          (match surrogate_run s' with
           | O =>
               append "'utf-8' codec can't encode character '"
                 (append (escape c)
                    (append "' in position "
                       (append (decimal pos) ": surrogates not allowed")))
           | more =>
               append "'utf-8' codec can't encode characters in position "
                 (append (decimal pos)
                    (append "-"
                       (append (decimal (pos + more))
                          ": surrogates not allowed")))
           end)
      else encode_error (Datatypes.S pos) s'
  end.

Definition bind_text (s : str) : Result unit :=
  match encode_error O s with
  | Some msg => Raise msg
  | None => Ok tt
  end.

(** The parameters are bound in the order of the tuple,
    [(max(10, snippet_chars), query, top_k)], before the statement
    runs. *)
Definition search_chunks (E : Env) (conn : Connection) (query : str)
    (top_k snippet_chars : Z) : Result (list SearchResult) :=
  match bind_int (Z.max 10 snippet_chars) with
  | Raise msg => Raise msg
  | Ok _ =>
  match bind_text query with
  | Raise msg => Raise msg
  | Ok _ =>
  match bind_int top_k with
  | Raise msg => Raise msg
  | Ok _ =>
  match fts_match E query with
  | Raise msg => Raise msg
  | Ok matches =>
      let table := chunks_fts (current conn) in
      let corpus := List.map f_text table in
      let hits := List.filter (fun f => matches (f_text f)) table in
      let scored :=
        List.map (fun f => (f, fts_bm25 E query corpus (f_text f))) hits in
      let rows := limit top_k (order_by_score scored) in
      Ok (List.map
            (fun r =>
               let (f, score) := r : FtsRow * Q in
               {| r_doc_id := f_document_id f;
                  r_filename := f_filename f;
                  r_path := f_path f;
                  r_page_start := f_page_start f;
                  r_page_end := f_page_end f;
                  r_score := score;
                  r_snippet := fts_snippet E query (f_text f)
                                 (Z.max 10 snippet_chars) |})
            rows)
  end end end end.

(** ORDER BY indexed_at DESC: descending, by insertion. *)
Fixpoint insert_by_recency (x : DocumentRow) (l : list DocumentRow)
  : list DocumentRow :=
  match l with
  | [] => [x]
  | y :: l' =>
      if Qle_bool (d_indexed_at y) (d_indexed_at x) then x :: l
      else y :: insert_by_recency x l'
  end.

Definition order_by_recency (l : list DocumentRow) : list DocumentRow :=
  List.fold_right insert_by_recency [] l.

(** The seven columns selected are all the columns of the table, so a
    result row is the stored row. *)
Definition list_documents (conn : Connection) (limit_ : Z)
  : Result (list DocumentRow) :=
  match bind_int limit_ with
  | Raise msg => Raise msg
  | Ok _ => Ok (limit limit_ (order_by_recency (documents (current conn))))
  end.

End Db.

(* ------------------------------------------------------------------ *)
(** ** app.py *)

Module App.

(** The module-level connection together with the rest of the process
    state. *)
Record World := { conn : Db.Connection; sys : Sys }.

Definition on_sys {A} (m : M Sys A) : M World A :=
  fun w => let (r, s) := m (sys w) in (r, {| conn := conn w; sys := s |}).

Definition on_conn {A} (m : M Db.Connection A) : M World A :=
  fun w => let (r, c) := m (conn w) in (r, {| conn := c; sys := sys w |}).

Definition exec (f : Db.Connection -> Db.Connection) : M World unit :=
  on_conn (modify f).

(** *** POST /ingest *)

(** The JSON body after the coercions of the handler: a missing key is
    [None], [recursive] and [force] are already booleans. *)
Record IngestRequest := {
  input_dir : option string;
  files : option (list string);
  recursive : bool;
  force : bool
}.

Record IngestResponse := {
  indexed : Z;
  skipped : Z;
  errors : list (string * string);
  resp_db_path : string
}.

(** The test on a listed path,
    [p.exists() and p.is_file() and p.suffix.lower() == ".pdf"]:
    [is_file] is only called on a path that [exists] answered True
    for. *)
Definition keep_file (E : Env) (p : string) : Result bool :=
  match path_exists E p with
  | Raise msg => Raise msg
  | Ok false => Ok false
  | Ok true =>
      match path_is_file E p with
      | Raise msg => Raise msg
      | Ok b => Ok (b && String.eqb (lower (path_suffix E p)) ".pdf")
      end
  end.

(** The paths to process: the explicit list when it is given and not
    empty, the directory walk otherwise.  This runs before the loop and
    outside its [try]. *)
Definition pdf_paths (E : Env) (S : Config.Settings) (body : IngestRequest)
  : Result (list string) :=
  match files body with
  | Some (f :: fs) => filter_result (keep_file E) (f :: fs)
  | _ =>
      let base := match input_dir body with
                  | Some d => if String.eqb d "" then Config.default_docs_dir S
                              else d
                  | None => Config.default_docs_dir S
                  end in
      Utils.iter_pdf_paths E base (recursive body)
  end.

(** The change detection at the head of the loop body: [true] when the
    [continue] is reached. *)
Definition unchanged (E : Env) (force : bool)
    (existing : option Db.DocumentRow) (pdf_path_resolved : string) : bool :=
  match existing with
  | Some ex =>
      if negb force then
        match path_stat E pdf_path_resolved with
        | Ok stat =>
            Qeq_bool (Db.d_mtime ex) (st_mtime stat)
            && (Db.d_size_bytes ex =? st_size stat)
        | Raise _ => false
        end
      else false
  | None => false
  end.

Definition document_row (doc : Indexer.IndexedDocument) : Db.DocumentRow :=
  {| Db.d_id := Indexer.doc_id doc;
     Db.d_path := Indexer.path doc;
     Db.d_filename := Indexer.filename doc;
     Db.d_sha256 := Indexer.sha256 doc;
     Db.d_mtime := Indexer.mtime doc;
     Db.d_size_bytes := Indexer.size_bytes doc;
     Db.d_indexed_at := Indexer.indexed_at doc |}.

Definition chunk_rows (doc : Indexer.IndexedDocument) : list Db.ChunkRow :=
  List.map
    (fun c => {| Db.c_id := Indexer.id c;
                 Db.c_document_id := Indexer.chunk_doc_id c;
                 Db.c_page_start := Indexer.page_start c;
                 Db.c_page_end := Indexer.page_end c;
                 Db.c_text := Indexer.text c |})
    (Indexer.chunks doc).

Definition fts_rows (doc : Indexer.IndexedDocument) : list Db.FtsRow :=
  List.map
    (fun c => {| Db.f_chunk_id := Indexer.id c;
                 Db.f_document_id := Indexer.chunk_doc_id c;
                 Db.f_filename := Indexer.filename doc;
                 Db.f_path := Indexer.path doc;
                 Db.f_page_start := Indexer.page_start c;
                 Db.f_page_end := Indexer.page_end c;
                 Db.f_text := Indexer.text c |})
    (Indexer.chunks doc).

(** What the loop body does after the change detection let it through:
    index the file and replace what the store holds for it. *)
Definition reindex (E : Env) (S : Config.Settings)
    (existing : option Db.DocumentRow) (pdf_path_resolved : string)
  : M World unit :=
  doc <- on_sys (Indexer.index_pdf E pdf_path_resolved
                   (Config.max_chunk_chars S) (Config.min_chunk_chars S)
                   (Config.max_pages_per_chunk S)) ;;
  match existing with
  | Some ex => exec (Db.delete_document_chunks (Db.d_id ex))
  | None => ret tt
  end ;;;
  exec (Db.upsert_document (document_row doc)) ;;;
  on_conn (Db.insert_chunks (chunk_rows doc)) ;;;
  exec (Db.insert_fts_rows (fts_rows doc)) ;;;
  exec Db.commit.

Inductive Outcome := Skipped | Indexed.

(** The body of the [try] for one path. *)
Definition ingest_file (E : Env) (S : Config.Settings) (force : bool)
    (pdf_path : string) : M World Outcome :=
  pdf_path_resolved <- lift (path_resolve E pdf_path) ;;
  existing <- gets (fun w => Db.get_document_by_path (conn w)
                               pdf_path_resolved) ;;
  if unchanged E force existing pdf_path_resolved then ret Skipped
  else reindex E S existing pdf_path_resolved ;;; ret Indexed.

(** The counters of the loop. *)
Record Tally := {
  n_indexed : Z;
  n_skipped : Z;
  errs : list (string * string)
}.

Definition tally0 : Tally := {| n_indexed := 0; n_skipped := 0; errs := [] |}.

(** One iteration, [try] and [except] included. *)
Definition ingest_step (E : Env) (S : Config.Settings) (force : bool)
    (st : Tally * World) (pdf_path : string) : Tally * World :=
  let (t, w) := st in
  match ingest_file E S force pdf_path w with
  | (Ok Skipped, w') =>
      ({| n_indexed := n_indexed t; n_skipped := n_skipped t + 1;
          errs := errs t |}, w')
  | (Ok Indexed, w') =>
      ({| n_indexed := n_indexed t + 1; n_skipped := n_skipped t;
          errs := errs t |}, w')
  | (Raise msg, w') =>
      ({| n_indexed := n_indexed t; n_skipped := n_skipped t;
          errs := errs t ++ [(pdf_path, msg)] |},
       {| conn := Db.rollback (conn w'); sys := sys w' |})
  end.

Definition ingest_loop (E : Env) (S : Config.Settings) (force : bool)
    (paths : list string) (st : Tally * World) : Tally * World :=
  List.fold_left (ingest_step E S force) paths st.

Definition ingest (E : Env) (S : Config.Settings) (body : IngestRequest)
  : M World IngestResponse :=
  paths <- lift (pdf_paths E S body) ;;
  fun w =>
    let (t, w') := ingest_loop E S (force body) paths (tally0, w) in
    (Ok {| indexed := n_indexed t; skipped := n_skipped t; errors := errs t;
           resp_db_path := Config.db_path S |}, w').

(** *** POST /query *)

(** A Python float: a finite one by its rational value, or one of the
    three special values, which [json.loads] reads from Infinity,
    -Infinity and NaN. *)
Inductive Float :=
| Finite (x : Q)
| PosInf
| NegInf
| NaN.

(** A decoded JSON value.  A number written without fraction or exponent
    is decoded to an int, any other to a float. *)
Inductive Json :=
| JNull
| JBool (b : bool)
| JNum (z : Z)
| JFloat (x : Float)
| JStr (s : str)
| JArr (items : list Json)
| JObj (fields : list (string * Json)).

(** Truth value of a decoded JSON value. *)
Definition truthy (j : Json) : bool :=
  match j with
  | JNull => false
  | JBool b => b
  | JNum z => negb (z =? 0)
  | JFloat (Finite x) => negb (Qeq_bool x 0)
  | JFloat _ => true
  | JStr s => match s with [] => false | _ => true end
  | JArr l => match l with [] => false | _ => true end
  | JObj l => match l with [] => false | _ => true end
  end.

(** [type(x).__name__]. *)
Definition type_name (j : Json) : string :=
  match j with
  | JNull => "NoneType"
  | JBool _ => "bool"
  | JNum _ => "int"
  | JFloat _ => "float"
  | JStr _ => "str"
  | JArr _ => "list"
  | JObj _ => "dict"
  end.

(** [x or d]. *)
Definition or_else (x : option Json) (d : Json) : Json :=
  match x with
  | Some j => if truthy j then j else d
  | None => d
  end.

(** [d.get(key)] on a decoded object: of the members with one name the
    decoder keeps the last. *)
Definition dict_get (fields : list (string * Json)) (key : string)
  : option Json :=
  match List.find (fun kv => String.eqb (fst kv) key) (List.rev fields) with
  | Some kv => Some (snd kv)
  | None => None
  end.

Definition no_attribute (j : Json) (attr : string) : string :=
  append "'" (append (type_name j)
                (append "' object has no attribute '" (append attr "'"))).

(** [body.get(key)] on [request.get_json(silent=True) or {}]: a body
    that is absent or falsy reads as the empty dict, one that is not a
    dict has no [get]. *)
Definition body_get (body : option Json) (key : string)
  : Result (option Json) :=
  match or_else body (JObj []) with
  | JObj fields => Ok (dict_get fields key)
  | j => Raise (no_attribute j "get")
  end.

(** [int(x)] on a float: the integer part, towards zero. *)
Definition truncate (x : Q) : Z := Z.quot (Qnum x) (Zpos (Qden x)).

(** [int(x)]. *)
Definition py_int (E : Env) (j : Json) : Result Z :=
  match j with
  | JNum z => Ok z
  | JBool b => Ok (if b then 1 else 0)
  | JFloat (Finite x) => Ok (truncate x)
  | JFloat NaN => Raise "cannot convert float NaN to integer"
  | JFloat _ => Raise "cannot convert float infinity to integer"
  | JStr s => int_of_str E s
  | j =>
      Raise (append "int() argument must be a string, a bytes-like object or a real number, not '"
               (append (type_name j) "'"))
  end.

(** [range(a, b)]. *)
Definition range (a b : Z) : list Z :=
  List.map (fun k => a + Z.of_nat k) (List.seq 0 (Z.to_nat (b - a))).

Record Hit := {
  h_doc_id : string;
  h_filename : string;
  h_path : string;
  h_pages : list Z;
  h_page_start : Z;
  h_page_end : Z;
  h_score : Q;
  h_snippet : str
}.

Inductive QueryPayload :=
| QError (error : string)
| QResults (query : str) (top_k : Z) (results : list Hit).

(** A response: the payload and the HTTP status. *)
Definition Response : Type := QueryPayload * Z.

(** The entry of the payload built from a search result. *)
Definition hit_of (r : Db.SearchResult) : Hit :=
  {| h_doc_id := Db.r_doc_id r;
     h_filename := Db.r_filename r;
     h_path := Db.r_path r;
     h_pages := range (Db.r_page_start r) (Db.r_page_end r + 1);
     h_page_start := Db.r_page_start r;
     h_page_end := Db.r_page_end r;
     h_score := Db.r_score r;
     h_snippet := Db.r_snippet r |}.

Definition query (E : Env) (S : Config.Settings) (body : option Json)
  : M World Response :=
  qv <- lift (body_get body "query") ;;
  q <- lift (match or_else qv (JStr []) with
             | JStr s => Ok (strip s)
             | j => Raise (no_attribute j "strip")
             end) ;;
  match q with
  | [] => ret (QError "Missing 'query'", 400)
  | _ =>
      tk <- lift (body_get body "top_k") ;;
      top_k <- lift (py_int E (or_else tk (JNum (Config.default_top_k S)))) ;;
      sc <- lift (body_get body "snippet_chars") ;;
      snippet_chars <-
        lift (py_int E (or_else sc (JNum (Config.default_snippet_chars S)))) ;;
      on_sys (modify (emit (EvFtsQuery q))) ;;;
      results <- (fun w => (Db.search_chunks E (conn w) q top_k snippet_chars,
                            w)) ;;
      ret (QResults q top_k (List.map hit_of results), 200)
  end.

(** *** GET /docs *)

(** [limit_arg] is the query parameter [limit] when the request has
    one; it is a string, the default 200 is already an int. *)
Definition docs (E : Env) (limit_arg : option str)
  : M World (list Db.DocumentRow) :=
  limit <- lift (match limit_arg with
                 | Some s => int_of_str E s
                 | None => Ok 200
                 end) ;;
  fun w => (Db.list_documents (conn w) limit, w).

End App.

(* ------------------------------------------------------------------ *)
(** ** Concrete environments, for running the code *)

Module Sample.

(** A file of a sample file system. *)
Record File := {
  file_mtime : Q;
  file_bytes : list N;
  file_pages : Result (list str)
}.

Fixpoint lookup (fs : list (string * File)) (p : string) : option File :=
  match fs with
  | [] => None
  | (q, f) :: fs' => if String.eqb q p then Some f else lookup fs' p
  end.

(** The text from the last dot of a name on, when the dot is neither
    its first nor its last character. *)
Fixpoint suffix_from (s : string) (seen : bool) : string :=
  match s with
  | EmptyString => EmptyString
  | String a s' =>
      let tail := suffix_from s' true in
      match tail with
      | EmptyString =>
          if (Ascii.eqb a "."%char && seen
              && negb (String.eqb s' ""))%bool then s else EmptyString
      | _ => tail
      end
  end.

Definition suffix (s : string) : string := suffix_from s false.

Definition hex_of (n : nat) : string :=
  NilEmpty.string_of_uint (Nat.to_uint n).

(** The sample environment over the files [fs]: paths are already
    canonical, the digest spells the bytes out, every query matches
    every row and shorter text scores better. *)
Definition env (fs : list (string * File)) : Env :=
  {| path_exists := fun p => Ok match lookup fs p with Some _ => true
                                                  | None => false end;
     path_is_file := fun p => Ok match lookup fs p with Some _ => true
                                                   | None => false end;
     path_suffix := suffix;
     path_name := fun p => p;
     path_resolve := fun p => Ok p;
     path_stat := fun p =>
       match lookup fs p with
       | Some f => Ok {| st_mtime := file_mtime f;
                         st_size := len (file_bytes f) |}
       | None => Raise "No such file or directory"
       end;
     path_glob := fun _ _ => ([], None);
     read_bytes := fun p =>
       match lookup fs p with
       | Some f => Ok (file_bytes f)
       | None => Raise "No such file or directory"
       end;
     sha256_hexdigest := fun data =>
       string_of_list_ascii (List.map ascii_of_N data);
     fitz_pages := fun p =>
       match lookup fs p with
       | Some f => file_pages f
       | None => Raise "no such file"
       end;
     uuid4_hex := fun n => append "u" (hex_of n);
     time_time := fun n => inject_Z (Z.of_nat n);
     fts_match := fun _ => Ok (fun _ => true);
     fts_bm25 := fun _ _ t => inject_Z (len t);
     fts_snippet := fun _ t _ => t;
     int_of_str := fun _ => Raise "invalid literal for int()" |}.

Definition settings : Config.Settings :=
  {| Config.db_path := "./data/rag.sqlite3";
     Config.default_docs_dir := "./docs";
     Config.max_chunk_chars := 8000;
     Config.min_chunk_chars := 1200;
     Config.max_pages_per_chunk := 3;
     Config.default_top_k := 5;
     Config.default_snippet_chars := 800 |}.

(** The process right after start-up, on a new database. *)
Definition world0 : App.World :=
  {| App.conn := Db.init_db;
     App.sys := {| uuid_ctr := 0; clock_ctr := 0; trace := [] |} |}.

Definition request (fs : list string) : App.IngestRequest :=
  {| App.input_dir := None; App.files := Some fs;
     App.recursive := true; App.force := false |}.

(** Two versions of one report, and a file PyMuPDF cannot open. *)
Definition report : string := "/docs/report.pdf".
Definition copy : string := "/docs/copy.pdf".
Definition broken : string := "/docs/broken.pdf".

Definition report_v1 : File :=
  {| file_mtime := 1700000000;
     file_bytes := lit "%PDF v1";
     file_pages := Ok [lit "hello world"] |}.

Definition report_v2 : File :=
  {| file_mtime := 1700000500;
     file_bytes := lit "%PDF v2 longer";
     file_pages := Ok [lit "bye"; lit "now"] |}.

Definition corrupt : File :=
  {| file_mtime := 1700000100;
     file_bytes := lit "not a pdf";
     file_pages := Raise "cannot open broken document" |}.

(** The report is ingested, edited, ingested again, and ingested a third
    time with nothing changed in between. *)
Definition run_v1 : Result App.IngestResponse * App.World :=
  App.ingest (env [(report, report_v1)]) settings (request [report]) world0.

Definition run_v2 : Result App.IngestResponse * App.World :=
  App.ingest (env [(report, report_v2)]) settings (request [report])
    (snd run_v1).

Definition run_v2_again : Result App.IngestResponse * App.World :=
  App.ingest (env [(report, report_v2)]) settings (request [report])
    (snd run_v2).

(** The report and a byte-identical copy, ingested in one batch. *)
Definition run_twins : Result App.IngestResponse * App.World :=
  App.ingest (env [(report, report_v1); (copy, report_v1)]) settings
    (request [report; copy]) world0.

(** A collision of uuids: every draw returns the same value. *)
Definition stuck_uuid (E : Env) : Env :=
  {| path_exists := path_exists E;
     path_is_file := path_is_file E;
     path_suffix := path_suffix E;
     path_name := path_name E;
     path_resolve := path_resolve E;
     path_stat := path_stat E;
     path_glob := path_glob E;
     read_bytes := read_bytes E;
     sha256_hexdigest := sha256_hexdigest E;
     fitz_pages := fitz_pages E;
     uuid4_hex := fun _ => uuid4_hex E 0;
     time_time := time_time E;
     fts_match := fts_match E;
     fts_bm25 := fts_bm25 E;
     fts_snippet := fts_snippet E;
     int_of_str := int_of_str E |}.

(** A name longer than the 255 bytes a file name may have. *)
Definition long_name : string :=
  append "/docs/" (string_of_list_ascii (List.repeat "a"%char 300)).

Definition name_too_long : string :=
  append "[Errno 36] File name too long: '" (append long_name "'").

(** The environment [E] with [long_name] examined as the file system
    does: its stat fails with ENAMETOOLONG, an error that [exists] and
    [is_file] do not swallow. *)
Definition name_max (E : Env) : Env :=
  {| path_exists := fun q => if String.eqb q long_name then Raise name_too_long
                             else path_exists E q;
     path_is_file := fun q => if String.eqb q long_name
                              then Raise name_too_long
                              else path_is_file E q;
     path_suffix := path_suffix E;
     path_name := path_name E;
     path_resolve := path_resolve E;
     path_stat := fun q => if String.eqb q long_name then Raise name_too_long
                           else path_stat E q;
     path_glob := path_glob E;
     read_bytes := read_bytes E;
     sha256_hexdigest := sha256_hexdigest E;
     fitz_pages := fitz_pages E;
     uuid4_hex := uuid4_hex E;
     time_time := time_time E;
     fts_match := fts_match E;
     fts_bm25 := fts_bm25 E;
     fts_snippet := fts_snippet E;
     int_of_str := int_of_str E |}.

Definition stored (w : App.World) : Db.Tables := Db.committed (App.conn w).

Definition chunks_of (doc_id : string) (w : App.World) : list Db.ChunkRow :=
  List.filter (fun c => String.eqb (Db.c_document_id c) doc_id)
    (Db.chunks (stored w)).

End Sample.

(* ------------------------------------------------------------------ *)
(** ** Notions the properties are stated with *)

Module Notions.

Definition page_range (c : Indexer.Chunk) : Z * Z :=
  (Indexer.page_start c, Indexer.page_end c).

(** The ranges [rs], in order, tile the pages [lo..hi]: the first starts
    at [lo], each next one right after the previous end, the last ends
    at [hi], and none is empty. *)
Fixpoint tiles (lo hi : Z) (rs : list (Z * Z)) : bool :=
  match rs with
  | [] => lo =? hi + 1
  | (a, b) :: rs' => (a =? lo) && (a <=? b) && tiles (b + 1) hi rs'
  end.

(** The ranges [rs], in order, go from the page after [e] to [hi] without
    a gap: each starts on the page after the previous end or on the
    previous end itself, and the last ends at [hi]. *)
Fixpoint linked (e hi : Z) (rs : list (Z * Z)) : bool :=
  match rs with
  | [] => e =? hi
  | (a, b) :: rs' =>
      ((a =? e) || (a =? e + 1)) && (a <=? b) && linked b hi rs'
  end.

(** What holds of the chunker's variables when page [i] is the next to
    read and no page so far was blank: the chunks emitted are linked up
    to some page [m], and the open buffer, if any, starts on [m] or right
    after it and ends on the page just read. *)
Definition reading (i : Z) (st : Indexer.Locals) : Prop :=
  exists m,
    linked 0 m (List.map page_range (Indexer.out st)) = true
    /\ (Indexer.buf st = [] -> m = 0 /\ i = 1)
    /\ (Indexer.buf st <> [] ->
        Indexer.current_end st = i - 1
        /\ Indexer.current_start st <= Indexer.current_end st
        /\ (Indexer.current_start st = m \/ Indexer.current_start st = m + 1)
        /\ Forall (fun p => Utils.normalize_text p <> []) (Indexer.buf st)).

(** A page text that normalization empties. *)
Definition blank (s : str) : bool :=
  match Utils.normalize_text s with [] => true | _ => false end.

(** The chunk covers page [idx] and nothing else. *)
Definition covers_only (idx : Z) (c : Indexer.Chunk) : bool :=
  (Indexer.page_start c =? idx) && (Indexer.page_end c =? idx).

(** Page [idx] lies in the range of the chunk. *)
Definition covers (idx : Z) (c : Indexer.Chunk) : bool :=
  (Indexer.page_start c <=? idx) && (idx <=? Indexer.page_end c).

(** The Document rows with a given id, and with a given path. *)
Definition rows_with_id (k : string) (docs : list Db.DocumentRow)
  : list Db.DocumentRow :=
  List.filter (fun r => String.eqb (Db.d_id r) k) docs.

Definition rows_with_path (p : string) (docs : list Db.DocumentRow)
  : list Db.DocumentRow :=
  List.filter (fun r => String.eqb (Db.d_path r) p) docs.

(** [exists()] and [is_file()] come to an answer on the path, as far as
    the handler calls them. *)
Definition probed (E : Env) (p : string) : Prop :=
  path_exists E p = Ok false
  \/ (path_exists E p = Ok true /\ exists b, path_is_file E p = Ok b).

(** The listed path passes the three tests of the handler. *)
Definition fit (E : Env) (p : string) : bool :=
  match App.keep_file E p with
  | Ok b => b
  | Raise _ => false
  end.

(** The connection has no open transaction. *)
Definition settled (w : App.World) : Prop :=
  Db.committed (App.conn w) = Db.current (App.conn w).

(** Total size of the words of a split, one separator counted after
    each word. *)
Definition padded (ws : list str) : nat :=
  List.fold_right (fun w n => (S (List.length w) + n)%nat) 0%nat ws.

(** A word: not empty and free of whitespace. *)
Definition word (w : str) : Prop :=
  w <> [] /\ List.forallb (fun c => negb (isspace c)) w = true.

(** What holds of the chunker's variables when page [i] is the next to
    read, whatever the pages: the chunks emitted so far are well formed
    and in page order, and the open buffer, if any, lies after them and
    before page [i]. *)
Definition scanning (doc : string) (max_pages i : Z) (st : Indexer.Locals)
  : Prop :=
  StronglySorted
    (fun a b => Indexer.page_start a < Indexer.page_start b
                /\ Indexer.page_end a <= Indexer.page_start b)
    (Indexer.out st)
  /\ Forall
       (fun c => 1 <= Indexer.page_start c <= Indexer.page_end c
                 /\ Indexer.page_end c < i
                 /\ Indexer.page_end c - Indexer.page_start c + 1
                    <= Z.max 1 max_pages
                 /\ Indexer.text c <> []
                 /\ (exists raw, Indexer.text c = Utils.normalize_text raw)
                 /\ Indexer.chunk_doc_id c = doc)
       (Indexer.out st)
  /\ (Indexer.buf st = [] -> Indexer.out st = [])
  /\ (Indexer.buf st <> [] ->
      1 <= Indexer.current_start st <= Indexer.current_end st
      /\ Indexer.current_end st < i
      /\ Indexer.current_end st - Indexer.current_start st + 1
         <= Z.max 1 max_pages
      /\ Forall
           (fun c => Indexer.page_start c < Indexer.current_start st
                     /\ Indexer.page_end c <= Indexer.current_start st)
           (Indexer.out st)).

(** The columns [chunks] and [chunks_fts] have in common. *)
Definition chunk_key (c : Db.ChunkRow) : string * string * Z * Z * str :=
  (Db.c_id c, Db.c_document_id c, Db.c_page_start c, Db.c_page_end c,
   Db.c_text c).

Definition fts_key (f : Db.FtsRow) : string * string * Z * Z * str :=
  (Db.f_chunk_id f, Db.f_document_id f, Db.f_page_start f, Db.f_page_end f,
   Db.f_text f).

(** The index mirrors the chunk table: same chunks, same order. *)
Definition mirrored (t : Db.Tables) : Prop :=
  List.map chunk_key (Db.chunks t) = List.map fts_key (Db.chunks_fts t).

(** The two primary keys hold. *)
Definition keyed (t : Db.Tables) : Prop :=
  NoDup (List.map Db.d_id (Db.documents t))
  /\ NoDup (List.map Db.c_id (Db.chunks t)).

End Notions.

Import Notions.

(* ------------------------------------------------------------------ *)
(** * Properties *)

(** ** Text normalization *)

Section Text.

Lemma lstrip_length s : (List.length (lstrip s) <= List.length s)%nat.
Proof.
  induction s as [|c s IH]; simpl; [lia|].
  destruct (isspace c); simpl; lia.
Qed.

Lemma strip_length s : (List.length (strip s) <= List.length s)%nat.
Proof.
  unfold strip. rewrite length_rev.
  etransitivity; [apply lstrip_length|].
  rewrite length_rev. apply lstrip_length.
Qed.

Lemma join_length_padded ws :
  (List.length (join [space] ws) <= padded ws)%nat.
Proof.
  induction ws as [|w ws IH]; simpl; [lia|].
  destruct ws as [|w' ws]; [simpl; lia|].
  rewrite length_app. simpl in *. lia.
Qed.

Lemma split_from_padded s : forall cur,
  (padded (split_from cur s) <= S (List.length cur + List.length s))%nat.
Proof.
  induction s as [|c s IH]; intros cur; simpl.
  - destruct cur; simpl; [lia|]. rewrite length_app, length_rev. simpl. lia.
  - destruct (isspace c).
    + specialize (IH []). destruct cur; simpl in *; [lia|].
      rewrite length_app, length_rev. simpl. lia.
    + specialize (IH (c :: cur)). simpl in IH. lia.
Qed.

Lemma split_padded s : (padded (split s) <= S (List.length s))%nat.
Proof. apply (split_from_padded s []). Qed.

Lemma join_split_length s :
  (List.length (join [space] (split s)) <= List.length s)%nat.
Proof.
  pose proof (split_padded s) as H.
  destruct (split s) as [|w ws] eqn:E; [simpl; lia|].
  pose proof (join_length_padded (w :: ws)) as J.
  assert (K : (S (List.length (join [space] (w :: ws))) <= padded (w :: ws))%nat).
  { clear. revert w. induction ws as [|w' ws IH]; intros w.
    - simpl. lia.
    - specialize (IH w'). cbn [join padded fold_right] in *.
      rewrite length_app. cbn [List.length app] in *. lia. }
  lia.
Qed.

(** Normalization never makes a text longer. *)
Lemma normalize_text_len s : len (Utils.normalize_text s) <= len s.
Proof.
  unfold len, Utils.normalize_text.
  apply inj_le.
  etransitivity; [apply strip_length|].
  etransitivity; [apply join_split_length|].
  unfold replace. now rewrite length_map.
Qed.

Lemma len_nonneg s : 0 <= len s.
Proof. unfold len. lia. Qed.

Lemma len_nil_iff s : len s <= 0 -> s = [].
Proof. destruct s; [reflexivity|]. unfold len. simpl. lia. Qed.

Lemma join_last_len sep parts p :
  len p <= len (join sep (parts ++ [p])).
Proof.
  unfold len. apply inj_le.
  induction parts as [|q parts IH]; [simpl; lia|].
  change ((q :: parts) ++ [p]) with (q :: (parts ++ [p])).
  destruct (parts ++ [p]) as [|x l] eqn:E.
  - destruct parts; discriminate.
  - cbn [join]. rewrite !length_app. cbn [join] in IH. lia.
Qed.

Lemma lstrip_blank s : List.forallb isspace s = true -> lstrip s = [].
Proof.
  induction s as [|c s IH]; simpl; [reflexivity|].
  destruct (isspace c); simpl; [exact IH | discriminate].
Qed.

(** A text of whitespace only strips to the empty text. *)
Lemma strip_blank s : List.forallb isspace s = true -> strip s = [].
Proof. intros H. unfold strip. now rewrite (lstrip_blank s H). Qed.

Lemma lstrip_nil_blank s : lstrip s = [] -> List.forallb isspace s = true.
Proof.
  induction s as [|c s IH]; cbn; [reflexivity|].
  destruct (isspace c); [exact IH | discriminate].
Qed.

Lemma lstrip_head s c s' : lstrip s = c :: s' -> isspace c = false.
Proof.
  induction s as [|x s IH]; cbn; [discriminate|].
  destruct (isspace x) eqn:E; [exact IH|]. now intros [= <- _].
Qed.

Lemma lstrip_keeps_blank s :
  List.forallb isspace (lstrip s) = true -> List.forallb isspace s = true.
Proof.
  intros H. destruct (lstrip s) as [|c s'] eqn:E.
  - now apply lstrip_nil_blank.
  - apply lstrip_head in E. cbn in H. rewrite E in H. discriminate.
Qed.

Lemma forallb_rev {A} (f : A -> bool) l :
  List.forallb f (List.rev l) = List.forallb f l.
Proof.
  induction l as [|x l IH]; cbn; [reflexivity|].
  rewrite List.forallb_app, IH. cbn. rewrite andb_true_r. apply andb_comm.
Qed.

Lemma strip_nil_blank s : strip s = [] -> List.forallb isspace s = true.
Proof.
  unfold strip. intros H.
  apply (f_equal (@List.rev N)) in H. rewrite List.rev_involutive in H.
  cbn in H. apply lstrip_nil_blank in H. rewrite forallb_rev in H.
  now apply lstrip_keeps_blank.
Qed.

Lemma split_from_nil s : forall cur,
  split_from cur s = [] -> cur = [] /\ List.forallb isspace s = true.
Proof.
  induction s as [|c s IH]; intros cur; cbn.
  - destruct cur; [auto | discriminate].
  - destruct (isspace c) eqn:E; cbn.
    + destruct cur; [|discriminate]. intros H. split; [reflexivity|].
      now apply (IH []).
    + intros H. destruct (IH _ H) as (K & _). discriminate.
Qed.

(** The first word of a split is not empty and starts with a character
    that is not whitespace. *)
Lemma split_from_head s : forall cur w ws,
  List.forallb (fun c => negb (isspace c)) cur = true ->
  split_from cur s = w :: ws ->
  exists c w', w = c :: w' /\ isspace c = false.
Proof.
  assert (R : forall cur : str,
             cur <> [] ->
             List.forallb (fun c => negb (isspace c)) cur = true ->
             exists c w', List.rev cur = c :: w' /\ isspace c = false).
  { intros cur Hne Hc.
    rewrite <- forallb_rev in Hc.
    destruct (List.rev cur) as [|c w'] eqn:E.
    - apply (f_equal (@List.rev N)) in E. rewrite List.rev_involutive in E.
      now elim Hne.
    - cbn in Hc. apply andb_prop in Hc. destruct Hc as (Hc & _).
      exists c, w'. split; [reflexivity|]. now apply negb_true_iff. }
  induction s as [|c s IH]; intros cur w ws Hc; cbn [split_from].
  - destruct cur as [|x cur]; [discriminate|]. intros [= <- _].
    apply (R (x :: cur)); [discriminate | exact Hc].
  - destruct (isspace c) eqn:E.
    + destruct cur as [|x cur].
      * apply IH. reflexivity.
      * intros [= <- _]. apply (R (x :: cur)); [discriminate | exact Hc].
    + apply IH. cbn [List.forallb]. now rewrite E.
Qed.

Lemma replace_nbsp_blank s :
  List.forallb isspace (replace nbsp space s) = List.forallb isspace s.
Proof.
  unfold replace.
  induction s as [|c s IH]; cbn [List.map List.forallb]; [reflexivity|].
  rewrite IH. f_equal.
  destruct (N.eqb_spec c nbsp) as [->|_]; reflexivity.
Qed.

(** Normalization empties exactly the texts made of whitespace only. *)
Lemma normalize_text_nil_iff s :
  Utils.normalize_text s = [] <-> List.forallb isspace s = true.
Proof.
  unfold Utils.normalize_text. split.
  - intros H. apply strip_nil_blank in H.
    destruct (split (replace nbsp space s)) as [|w ws] eqn:E.
    + apply split_from_nil in E. destruct E as (_ & E).
      now rewrite replace_nbsp_blank in E.
    + apply split_from_head in E; [|reflexivity].
      destruct E as (c & w' & -> & Hc).
      destruct ws; cbn in H; rewrite Hc in H; discriminate.
  - intros H. rewrite <- replace_nbsp_blank in H.
    assert (E : split (replace nbsp space s) = []).
    { unfold split. revert H. generalize (replace nbsp space s). clear.
      induction l as [|c l IH]; cbn; [reflexivity|].
      intros H. apply andb_prop in H. destruct H as (-> & H). now apply IH. }
    rewrite E. reflexivity.
Qed.

Lemma join_blank_parts sep parts :
  List.forallb isspace (join sep parts) = true ->
  Forall (fun p => List.forallb isspace p = true) parts.
Proof.
  induction parts as [|p parts IH]; [constructor|].
  destruct parts as [|q parts].
  - cbn. intros H. repeat constructor. exact H.
  - cbn [join]. rewrite !List.forallb_app. intros H.
    apply andb_prop in H. destruct H as (Hp & H).
    apply andb_prop in H. destruct H as (_ & H).
    constructor; [exact Hp | now apply IH].
Qed.

(** A buffer holding a page that is not blank does not flush to a blank
    text. *)
Lemma join_not_blank (parts : list str) :
  parts <> [] ->
  Forall (fun p => Utils.normalize_text p <> []) parts ->
  Utils.normalize_text (join [newline] parts) <> [].
Proof.
  intros Hne Hp H. apply normalize_text_nil_iff in H.
  apply join_blank_parts in H.
  destruct parts as [|p parts]; [now elim Hne|].
  inversion Hp as [|? ? Hp1 _]; subst. inversion H as [|? ? Hb _]; subst.
  apply Hp1. now apply normalize_text_nil_iff.
Qed.

End Text.

(** ** The chunker *)

Section Chunker.

Variable ids : nat -> string.
Variable doc : string.
Variables max_chars min_chars max_pages : Z.

Local Abbreviation flush := (Indexer.flush ids doc).
Local Abbreviation step := (Indexer.step ids doc max_chars min_chars max_pages).
Local Abbreviation run := (List.fold_left step).

(** What a flush emits: at most one chunk, carrying the range and the
    normalized text of the buffer. *)
Lemma flush_emits st :
  exists e,
    Indexer.out (flush st) = Indexer.out st ++ e
    /\ Indexer.buf (flush st) = []
    /\ Indexer.current_start (flush st) = Indexer.current_start st
    /\ Forall (fun c => Indexer.buf st <> []
                        /\ Indexer.page_start c = Indexer.current_start st
                        /\ Indexer.page_end c = Indexer.current_end st
                        /\ Indexer.text c =
                           Utils.normalize_text
                             (join [newline] (Indexer.buf st))) e
    /\ (Indexer.buf st <> [] ->
        Utils.normalize_text (join [newline] (Indexer.buf st)) <> [] ->
        exists c, e = [c]).
Proof.
  unfold Indexer.flush.
  destruct (Indexer.buf st) as [|b bs] eqn:Eb.
  - exists []. rewrite app_nil_r. repeat split; auto. intros H; now elim H.
  - destruct (Utils.normalize_text (join [newline] (b :: bs))) as [|x xs] eqn:En.
    + exists []. cbn. rewrite app_nil_r. repeat split; auto.
      intros _ H. now elim H.
    + eexists [_]. cbn. repeat split; eauto.
      constructor; [|constructor]. cbn. repeat split; auto. discriminate.
Qed.

(** The four ways an iteration can go. *)
Lemma step_cases st idx t :
  step st (idx, t) = st
  \/ (Indexer.buf st = [] /\ step st (idx, t) = Indexer.start_at idx t st)
  \/ (Indexer.buf st <> []
      /\ step st (idx, t) = Indexer.append_page idx t st)
  \/ (Indexer.buf st <> []
      /\ exists st1, (st1 = st \/ st1 = Indexer.append_page idx t st)
                     /\ step st (idx, t) = Indexer.start_at idx t (flush st1)).
Proof.
  unfold Indexer.step.
  destruct t as [|c t]; [now left|].
  destruct (Indexer.buf st) as [|b bs] eqn:Eb; [right; left; now split|].
  right; right.
  destruct (_ && _).
  - left. split; [discriminate | reflexivity].
  - right. split; [discriminate|].
    destruct (_ && _); eexists; (split; [|reflexivity]); auto.
Qed.

(** Chunks emitted from index [s] on start at the start of the open
    buffer or later. *)
Lemma emitted_from l : forall s st lo,
  lo <= s ->
  (Indexer.buf st <> [] -> lo <= Indexer.current_start st) ->
  exists later,
    Indexer.out (flush (run (Indexer.enumerate s l) st))
    = Indexer.out st ++ later
    /\ Forall (fun c => lo <= Indexer.page_start c) later.
Proof.
  induction l as [|t l IH]; intros s st lo Hs Hb; cbn [Indexer.enumerate List.fold_left].
  - destruct (flush_emits st) as (e & He & _ & _ & Hf & _).
    exists e. split; [exact He|].
    eapply Forall_impl; [|exact Hf]. cbn. intros c (Hne & Hc & _).
    rewrite Hc. auto.
  - destruct (step_cases st s t) as [H|[(Hnil & H)|[(Hne & H)|(Hne & st1 & Hst1 & H)]]];
      rewrite H.
    + apply IH; [lia | exact Hb].
    + destruct (IH (s + 1) (Indexer.start_at s t st) lo) as (later & E & F);
        [lia | cbn; intros _; lia |].
      exists later. split; [exact E | exact F].
    + destruct (IH (s + 1) (Indexer.append_page s t st) lo) as (later & E & F);
        [lia | cbn; intros _; auto |].
      exists later. split; [exact E | exact F].
    + destruct (flush_emits st1) as (e & He & _ & _ & Hf & _).
      destruct (IH (s + 1) (Indexer.start_at s t (flush st1)) lo)
        as (later & E & F); [lia | cbn; intros _; lia |].
      exists (e ++ later). split.
      * rewrite E. cbn. rewrite He.
        destruct Hst1 as [-> | ->]; cbn; now rewrite app_assoc.
      * apply Forall_app. split; [|exact F].
        eapply Forall_impl; [|exact Hf]. cbn. intros c (_ & Hc & _).
        rewrite Hc. destruct Hst1 as [-> | ->]; cbn; auto.
Qed.

(** Chunks emitted while reading the pages before index [s + |l|]
    start before it. *)
Lemma emitted_before l : forall s st,
  Forall (fun c => Indexer.page_start c < s) (Indexer.out st) ->
  (Indexer.buf st <> [] -> Indexer.current_start st < s) ->
  let st' := run (Indexer.enumerate s l) st in
  Forall (fun c => Indexer.page_start c < s + Z.of_nat (List.length l))
    (Indexer.out st')
  /\ (Indexer.buf st' <> [] ->
      Indexer.current_start st' < s + Z.of_nat (List.length l)).
Proof.
  induction l as [|t l IH]; intros s st Ho Hb;
    cbn [Indexer.enumerate List.fold_left List.length].
  - cbn. rewrite Z.add_0_r. split; assumption.
  - replace (s + Z.of_nat (S (List.length l)))
      with ((s + 1) + Z.of_nat (List.length l)) by lia.
    assert (Ho' : Forall (fun c => Indexer.page_start c < s + 1) (Indexer.out st)).
    { eapply Forall_impl; [|exact Ho]. cbn. intros; lia. }
    destruct (step_cases st s t) as [H|[(Hnil & H)|[(Hne & H)|(Hne & st1 & Hst1 & H)]]];
      rewrite H; apply IH; cbn; auto; try (intros; lia).
    + intros K. specialize (Hb K). lia.
    + intros _. specialize (Hb Hne). lia.
    + destruct (flush_emits st1) as (e & He & _ & _ & Hf & _).
      rewrite He. apply Forall_app. split.
      * destruct Hst1 as [-> | ->]; exact Ho'.
      * eapply Forall_impl; [|exact Hf]. cbn. intros c (_ & Hc & _).
        rewrite Hc. specialize (Hb Hne).
        destruct Hst1 as [-> | ->]; cbn; lia.
Qed.

Lemma join_head_len sep p rest : len p <= len (join sep (p :: rest)).
Proof.
  unfold len. apply inj_le.
  destruct rest as [|q rest]; cbn [join]; [lia|].
  rewrite length_app. lia.
Qed.

Lemma enumerate_app {A} (l1 l2 : list A) : forall s,
  Indexer.enumerate s (l1 ++ l2)
  = Indexer.enumerate s l1
    ++ Indexer.enumerate (s + Z.of_nat (List.length l1)) l2.
Proof.
  induction l1 as [|x l1 IH]; intros s; cbn [Indexer.enumerate app List.length].
  - now rewrite Z.add_0_r.
  - rewrite IH. do 3 f_equal. lia.
Qed.

(** Reading a page longer than [max_chars] always leaves it alone in the
    buffer, whatever was there before. *)
Lemma oversize_step st idx p :
  0 <= max_chars -> max_chars < len p ->
  exists e,
    Indexer.out (step st (idx, p)) = Indexer.out st ++ e
    /\ Indexer.buf (step st (idx, p)) = [p]
    /\ Indexer.current_start (step st (idx, p)) = idx
    /\ Indexer.current_end (step st (idx, p)) = idx
    /\ Forall (fun c => Indexer.buf st <> []
                        /\ Indexer.page_start c = Indexer.current_start st) e.
Proof.
  intros H0 Hbig.
  assert (Hp : p <> []) by (intros ->; cbn in Hbig; lia).
  unfold Indexer.step.
  destruct p as [|x p]; [now elim Hp|].
  destruct (Indexer.buf st) as [|b bs] eqn:Eb.
  - exists []. cbn. rewrite app_nil_r. auto.
  - match goal with
    | |- context [?a <=? max_chars] =>
        destruct (Z.leb_spec a max_chars) as [Hle|_]
    end.
    { exfalso. apply (Z.lt_irrefl max_chars).
      eapply Z.lt_le_trans; [exact Hbig|].
      eapply Z.le_trans; [|exact Hle].
      exact (join_last_len [newline] (b :: bs) (x :: p)). }
    cbn [andb].
    match goal with
    | |- context [Indexer.flush ids doc ?s] => set (s1 := s)
    end.
    assert (Hs1 : Indexer.out s1 = Indexer.out st
                  /\ Indexer.current_start s1 = Indexer.current_start st)
      by (subst s1; destruct (_ && _); cbn; auto).
    clearbody s1. destruct Hs1 as (Ho & Hs).
    destruct (flush_emits s1) as (e & He & _ & Hcs & Hf & _).
    exists e. unfold Indexer.start_at.
    cbn [Indexer.out Indexer.buf Indexer.current_start Indexer.current_end].
    rewrite He, Ho. repeat split; auto.
    eapply Forall_impl; [|exact Hf]. cbn. intros c (_ & Hc' & _).
    split; [discriminate | congruence].
Qed.

(** Once such a page is alone in the buffer it is emitted alone, and
    everything emitted afterwards starts on a later page. *)
Lemma oversize_alone l : forall s st p idx,
  min_chars <= max_chars -> max_chars < len p ->
  Utils.normalize_text p <> [] ->
  Indexer.buf st = [p] ->
  Indexer.current_start st = idx -> Indexer.current_end st = idx ->
  idx < s ->
  exists c later,
    Indexer.out (flush (run (Indexer.enumerate s l) st))
    = Indexer.out st ++ c :: later
    /\ Indexer.page_start c = idx /\ Indexer.page_end c = idx
    /\ Indexer.text c = Utils.normalize_text p
    /\ Forall (fun c' => idx < Indexer.page_start c') later.
Proof.
  induction l as [|t l IH]; intros s st p idx Hmm Hbig Hn Hb Hcs Hce Hs;
    cbn [Indexer.enumerate List.fold_left].
  - destruct (flush_emits st) as (e & He & _ & _ & Hf & Hone).
    rewrite Hb in Hone, Hf. cbn [join] in Hone, Hf.
    destruct (Hone ltac:(discriminate) Hn) as (c & ->).
    inversion Hf as [|? ? (_ & H1 & H2 & H3) _]; subst.
    exists c, []. rewrite He. repeat split; auto; congruence.
  - destruct t as [|x t].
    + cbn [Indexer.step]. apply IH with (p := p); auto. lia.
    + assert (E : step st (s, x :: t)
                  = Indexer.start_at s (x :: t) (flush st)).
      { unfold Indexer.step. rewrite Hb.
        match goal with
        | |- context [?a <=? max_chars] =>
            destruct (Z.leb_spec a max_chars) as [Hle|_]
        end.
        { exfalso. apply (Z.lt_irrefl max_chars).
          eapply Z.lt_le_trans; [exact Hbig|].
          eapply Z.le_trans; [|exact Hle].
          exact (join_head_len [newline] p [x :: t]). }
        cbn [andb join].
        match goal with
        | |- context [?a <? min_chars] =>
            destruct (Z.ltb_spec a min_chars) as [Hlt|_]
        end.
        { exfalso. apply (Z.lt_irrefl max_chars).
          eapply Z.lt_le_trans; [exact Hbig|].
          eapply Z.le_trans; [|exact Hmm]. apply Z.lt_le_incl. exact Hlt. }
        reflexivity. }
      rewrite E.
      destruct (flush_emits st) as (e & He & _ & _ & Hf & Hone).
      rewrite Hb in Hone, Hf. cbn [join] in Hone, Hf.
      destruct (Hone ltac:(discriminate) Hn) as (c & ->).
      inversion Hf as [|? ? (_ & H1 & H2 & H3) _]; subst.
      destruct (emitted_from l (s + 1)
                  (Indexer.start_at s (x :: t) (flush st)) s)
        as (later & El & Fl); [lia | cbn; intros _; lia |].
      exists c, later. rewrite El. cbn. rewrite He, <- app_assoc.
      repeat split; auto; try congruence.
      eapply Forall_impl; [|exact Fl]. cbn. intros; lia.
Qed.

(** Where the chunk of an oversize page sits in the output. *)
Lemma oversize_page_position pages k p :
  0 <= max_chars -> min_chars <= max_chars ->
  List.nth_error pages k = Some p ->
  max_chars < len (Utils.normalize_text p) ->
  exists before c after,
    Indexer.build_chunks ids doc max_chars min_chars max_pages pages
    = before ++ c :: after
    /\ Indexer.page_start c = Z.of_nat k + 1
    /\ Indexer.page_end c = Z.of_nat k + 1
    /\ Indexer.text c = Utils.normalize_text p
    /\ Forall (fun c' => Indexer.page_start c' < Z.of_nat k + 1) before
    /\ Forall (fun c' => Z.of_nat k + 1 < Indexer.page_start c') after.
Proof.
  intros H0 Hmm Hnth Hbig.
  pose proof (normalize_text_len p) as Hlen.
  assert (Hn : Utils.normalize_text p <> []).
  { intros E. rewrite E in Hbig. cbn in Hbig. lia. }
  destruct (List.nth_error_split pages k Hnth) as (l1 & l2 & -> & Hk).
  unfold Indexer.build_chunks.
  rewrite enumerate_app. cbn [Indexer.enumerate].
  rewrite List.fold_left_app. cbn [List.fold_left].
  rewrite Hk.
  set (st1 := run (Indexer.enumerate 1 l1) Indexer.init).
  destruct (emitted_before l1 1 Indexer.init) as (Hout & Hcur);
    [constructor | cbn; intros H; now elim H |].
  fold st1 in Hout, Hcur. rewrite Hk in Hout, Hcur.
  destruct (oversize_step st1 (1 + Z.of_nat k) p) as (e & Eo & Eb & Es & Ee & Fe);
    [lia | lia |].
  destruct (oversize_alone l2 (1 + Z.of_nat k + 1)
              (step st1 (1 + Z.of_nat k, p)) p (1 + Z.of_nat k))
    as (c & later & El & C1 & C2 & C3 & Fl); auto; try lia.
  exists (Indexer.out st1 ++ e), c, later.
  rewrite El, Eo. repeat split; auto; try lia.
  - apply Forall_app. split.
    + eapply Forall_impl; [|exact Hout]. cbv beta. intros; lia.
    + eapply Forall_impl; [|exact Fe]. cbv beta. intros c' (Hne & Hc').
      specialize (Hcur Hne). lia.
  - eapply Forall_impl; [|exact Fl]. cbv beta. intros; lia.
Qed.

Lemma linked_snoc rs : forall e m a b,
  linked e m rs = true -> a = m \/ a = m + 1 -> a <= b ->
  linked e b (rs ++ [(a, b)]) = true.
Proof.
  induction rs as [|[x y] rs IH]; intros e m a b; cbn [linked app].
  - intros Hm Ha Hab. apply Z.eqb_eq in Hm. subst m.
    rewrite Z.eqb_refl, andb_true_r. apply andb_true_intro. split.
    + apply orb_true_iff. destruct Ha; [left|right]; now apply Z.eqb_eq.
    + now apply Z.leb_le.
  - intros H Ha Hab. apply andb_prop in H. destruct H as (-> & H).
    cbn [andb]. eapply IH; eassumption.
Qed.

(** Flushing a buffer that holds no blank page emits its chunk. *)
Lemma flush_links st i m :
  linked 0 m (List.map page_range (Indexer.out st)) = true ->
  Indexer.buf st <> [] ->
  Indexer.current_start st <= Indexer.current_end st ->
  Indexer.current_start st = m \/ Indexer.current_start st = m + 1 ->
  Forall (fun p => Utils.normalize_text p <> []) (Indexer.buf st) ->
  Indexer.current_end st = i ->
  linked 0 i (List.map page_range (Indexer.out (flush st))) = true.
Proof.
  intros Hl Hb Hse Hs Hf He.
  destruct (flush_emits st) as (e & Eo & _ & _ & Fe & Hone).
  destruct (Hone Hb (join_not_blank _ Hb Hf)) as (c & ->).
  inversion Fe as [|? ? (_ & C1 & C2 & _) _]; subst.
  rewrite Eo, List.map_app. cbn [List.map]. unfold page_range at 2.
  rewrite C1, C2. eapply linked_snoc; eassumption.
Qed.

(** The invariant [reading] is kept by an iteration on a page that is
    not blank. *)
Lemma step_reading st i t :
  Utils.normalize_text t <> [] ->
  reading i st -> reading (i + 1) (step st (i, t)).
Proof.
  intros Ht (m & Hl & Hnil & Hbuf).
  assert (Hne : t <> []) by (intros ->; now apply Ht).
  unfold Indexer.step. destruct t as [|x t]; [now elim Hne|].
  destruct (Indexer.buf st) as [|b bs] eqn:Eb.
  - destruct (Hnil eq_refl) as (-> & ->).
    exists 0. cbn. repeat split; auto; try lia; try discriminate.
  - destruct (Hbuf ltac:(discriminate)) as (He & Hse & Hs & Hf).
    assert (Happ : forall s1,
              s1 = Indexer.append_page i (x :: t) st ->
              Indexer.out s1 = Indexer.out st
              /\ Indexer.buf s1 <> []
              /\ Indexer.current_start s1 = Indexer.current_start st
              /\ Indexer.current_end s1 = i
              /\ Forall (fun p => Utils.normalize_text p <> [])
                   (Indexer.buf s1)).
    { intros s1 ->. cbn. rewrite Eb. repeat split; auto; try discriminate.
      change (b :: bs ++ [x :: t]) with ((b :: bs) ++ [x :: t]).
      apply Forall_app. split; [exact Hf | now repeat constructor]. }
    destruct (_ && _).
    + destruct (Happ _ eq_refl) as (Ho & Hb' & Hcs & Hce & Hf').
      exists m. rewrite Ho. split; [exact Hl|].
      split; [intros K; now elim Hb'|]. intros _.
      rewrite Hcs, Hce. repeat split; auto; lia.
    + match goal with
      | |- context [Indexer.flush ids doc ?s] => set (s1 := s)
      end.
      assert (Hs1 : exists e1,
                Indexer.current_end s1 = e1 /\ (e1 = i - 1 \/ e1 = i)
                /\ linked 0 e1
                     (List.map page_range (Indexer.out (flush s1))) = true).
      { subst s1. destruct (_ && _).
        - destruct (Happ _ eq_refl) as (Ho & Hb' & Hcs & Hce & Hf').
          exists i. repeat split; auto.
          apply flush_links with (m := m); auto; try congruence; lia.
        - exists (i - 1). split; [exact He|]. split; [now left|].
          apply flush_links with (m := m); auto; rewrite Eb;
            [discriminate | exact Hf]. }
      destruct Hs1 as (e1 & _ & He1 & Hl1).
      exists e1. unfold Indexer.start_at.
      cbn [Indexer.out Indexer.buf Indexer.current_start Indexer.current_end].
      split; [exact Hl1|]. split; [discriminate|]. intros _.
      repeat split; try lia. now repeat constructor.
Qed.

Lemma run_reading l : forall s st,
  Forall (fun p => Utils.normalize_text p <> []) l ->
  reading s st ->
  reading (s + Z.of_nat (List.length l)) (run (Indexer.enumerate s l) st).
Proof.
  induction l as [|t l IH]; intros s st Hl Hr;
    cbn [Indexer.enumerate List.fold_left List.length].
  - now rewrite Z.add_0_r.
  - inversion Hl as [|? ? Ht Hl']; subst.
    replace (s + Z.of_nat (Datatypes.S (List.length l)))
      with ((s + 1) + Z.of_nat (List.length l)) by lia.
    apply IH; [exact Hl'|]. now apply step_reading.
Qed.

(** With no blank page the ranges of the chunks go through the pages
    1..N in order without a gap, two consecutive ranges sharing at most
    the one page on which the first ends. *)
Lemma build_chunks_linked pages :
  Forall (fun p => Utils.normalize_text p <> []) pages ->
  let rs := List.map page_range
              (Indexer.build_chunks ids doc max_chars min_chars max_pages
                 pages) in
  linked 0 (Z.of_nat (List.length pages)) rs = true
  /\ Forall (fun r => 1 <= fst r) rs.
Proof.
  intros Hp. cbv zeta. unfold Indexer.build_chunks. split.
  - assert (Hr : reading 1 Indexer.init).
    { exists 0. cbn. split; [reflexivity|]. split; [auto|].
      intros K. now elim K. }
    pose proof (run_reading pages 1 Indexer.init Hp Hr) as (m & Hl & Hnil & Hbuf).
    destruct (Indexer.buf (run (Indexer.enumerate 1 pages) Indexer.init))
      as [|b bs] eqn:Eb.
    + destruct (Hnil eq_refl) as (-> & HN).
      unfold Indexer.flush. rewrite Eb.
      replace (Z.of_nat (List.length pages)) with 0 by lia. exact Hl.
    + destruct (Hbuf ltac:(discriminate)) as (He & Hse & Hs & Hf).
      apply flush_links with (m := m); auto; try lia; rewrite Eb;
        [discriminate | exact Hf].
  - destruct (emitted_from pages 1 Indexer.init 1) as (later & El & Fl);
      [lia | cbn; intros K; now elim K |].
    rewrite El. cbn [Indexer.init Indexer.out app].
    apply Forall_forall. intros r Hr. apply List.in_map_iff in Hr.
    destruct Hr as (c & <- & Hc). rewrite Forall_forall in Fl.
    exact (Fl c Hc).
Qed.

End Chunker.

Lemma filter_none {A} (f : A -> bool) l :
  Forall (fun x => f x = false) l -> List.filter f l = [].
Proof.
  induction 1 as [|x l Hx _ IH]; cbn; [reflexivity|]. now rewrite Hx.
Qed.

(** C3 (as the code behaves): with no blank page, the forced append of the
    min-size relaxation puts a page both at the end of the chunk it is
    appended to and at the start of the next one, so the ranges overlap
    and do not tile 1..N.  Here page 2 is covered twice. *)
Theorem forced_append_repeats_page ids doc :
  let pages := [lit "abc"; lit "defghijk"] in
  let cs := Indexer.build_chunks ids doc 8 4 3 pages in
  List.forallb (fun p => negb (blank p)) pages = true
  /\ List.map page_range cs = [(1, 2); (2, 2)]
  /\ List.length (List.filter (covers 2) cs) = 2%nat
  /\ tiles 1 2 (List.map page_range cs) = false.
Proof. cbv zeta. repeat split; reflexivity. Qed.

(** C4 (as stated): with a negative [max_chars] an empty page counts as
    longer than the limit, and it is skipped, not given a chunk. *)
Lemma oversize_page_negative_limit :
  let pages := [lit ""] in
  let cs := Indexer.build_chunks (fun _ => ""%string) "doc"%string
              (-1) (-1) 3 pages in
  -1 <= -1
  /\ List.nth_error pages 0 = Some (lit "")
  /\ -1 < len (Utils.normalize_text (lit ""))
  /\ List.filter (covers_only 1) cs = [].
Proof. cbv zeta. repeat split; reflexivity. Qed.

(** C4 (amended): for 0 <= max_chars and min_chars <= max_chars, a page
    whose normalized text is longer than max_chars comes out as exactly
    one chunk whose range is that page alone, and the text of that chunk
    is the whole normalized page. *)
Theorem oversize_page_own_chunk ids doc max_chars min_chars max_pages pages k p :
  0 <= max_chars -> min_chars <= max_chars ->
  List.nth_error pages k = Some p ->
  max_chars < len (Utils.normalize_text p) ->
  exists c,
    List.filter (covers_only (Z.of_nat k + 1))
      (Indexer.build_chunks ids doc max_chars min_chars max_pages pages) = [c]
    /\ Indexer.text c = Utils.normalize_text p.
Proof.
  intros H0 Hmm Hnth Hbig.
  destruct (oversize_page_position ids doc max_chars min_chars max_pages
              pages k p H0 Hmm Hnth Hbig)
    as (before & c & after & -> & Hs & He & Ht & Fb & Fa).
  exists c. split; [|exact Ht].
  rewrite List.filter_app. cbn [List.filter].
  rewrite (filter_none (covers_only (Z.of_nat k + 1)) before),
          (filter_none (covers_only (Z.of_nat k + 1)) after).
  - unfold covers_only. rewrite Hs, He, Z.eqb_refl. reflexivity.
  - eapply Forall_impl; [|exact Fa]. cbn. intros c' Hc'. unfold covers_only.
    replace (Indexer.page_start c' =? Z.of_nat k + 1) with false; [reflexivity|].
    symmetry. apply Z.eqb_neq. lia.
  - eapply Forall_impl; [|exact Fb]. cbn. intros c' Hc'. unfold covers_only.
    replace (Indexer.page_start c' =? Z.of_nat k + 1) with false; [reflexivity|].
    symmetry. apply Z.eqb_neq. lia.
Qed.

Lemma oversize_page_own_chunk_witness :
  exists c,
    List.filter (covers_only 2)
      (Indexer.build_chunks (fun _ => ""%string) "doc"%string 5 5 3
         [lit "ab"; lit "cdefghijkl"; lit "xy"]) = [c]
    /\ Indexer.text c = Utils.normalize_text (lit "cdefghijkl").
Proof.
  apply (oversize_page_own_chunk (fun _ => ""%string) "doc"%string 5 5 3
           [lit "ab"; lit "cdefghijkl"; lit "xy"] 1 (lit "cdefghijkl")).
  - lia.
  - lia.
  - reflexivity.
  - vm_compute. reflexivity.
Defined.

(** ** Content identity *)

Section Identity.

Lemma read_block_parts rest : forall n blk r,
  Utils.read_block n rest = (blk, r) -> blk ++ r = rest.
Proof.
  induction rest as [|b rest IH]; intros n blk r; cbn [Utils.read_block].
  - now intros [= <- <-].
  - destruct (n =? 0)%N; [now intros [= <- <-]|].
    destruct (Utils.read_block (N.pred n) rest) as [blk' r'] eqn:E.
    intros [= <- <-]. cbn. f_equal. eapply IH; eassumption.
Qed.

Lemma read_block_progress n rest r :
  (0 < n)%N -> Utils.read_block n rest = ([], r) -> rest = [].
Proof.
  intros Hn. destruct rest as [|b rest]; cbn [Utils.read_block]; [reflexivity|].
  destruct (N.eqb_spec n 0); [lia|].
  destruct (Utils.read_block (N.pred n) rest); discriminate.
Qed.

(** Reading block by block feeds the hash every byte of the file once, in
    order, whatever the positive block size. *)
Lemma sha256_loop_feeds_all n fed rest :
  (0 < n)%N -> Utils.sha256_loop n fed rest = fed ++ rest.
Proof.
  intros Hn. funelim (Utils.sha256_loop n fed rest).
  - rewrite (read_block_progress _ _ _ Hn e). now rewrite app_nil_r.
  - rewrite H by assumption.
    rewrite <- (read_block_parts _ _ _ _ e).
    now rewrite <- app_assoc.
Qed.

(** The digest [sha256_file] returns is the digest of the bytes. *)
Lemma sha256_file_bytes E path data :
  read_bytes E path = Ok data ->
  Utils.sha256_file E path Utils.default_chunk_size
  = Ok (sha256_hexdigest E data).
Proof.
  intros H. unfold Utils.sha256_file. rewrite H.
  now rewrite sha256_loop_feeds_all.
Qed.

End Identity.

(** ** The store *)

Section Store.

(** Rows of [docs] whose id is [k]. *)
Local Abbreviation with_id k docs :=
  (List.filter (fun r => String.eqb (Db.d_id r) k) docs).

Lemma upsert_documents row conn :
  Db.documents (Db.current (Db.upsert_document row conn))
  = if List.existsb (fun r => String.eqb (Db.d_id r) (Db.d_id row))
         (Db.documents (Db.current conn))
    then List.map (fun r => if String.eqb (Db.d_id r) (Db.d_id row)
                            then row else r)
           (Db.documents (Db.current conn))
    else Db.documents (Db.current conn) ++ [row].
Proof. reflexivity. Qed.

Lemma with_id_absent k docs :
  ~ In k (List.map Db.d_id docs) -> with_id k docs = [].
Proof.
  induction docs as [|x docs IH]; cbn; [reflexivity|].
  intros H. destruct (String.eqb_spec (Db.d_id x) k) as [E|_].
  - elim H. now left.
  - apply IH. intros K. apply H. now right.
Qed.

Lemma existsb_id_false k docs :
  List.existsb (fun r => String.eqb (Db.d_id r) k) docs = false ->
  ~ In k (List.map Db.d_id docs).
Proof.
  induction docs as [|x docs IH]; cbn; [auto|].
  destruct (String.eqb_spec (Db.d_id x) k) as [E|N]; cbn; [discriminate|].
  intros H [K|K]; [contradiction | now apply IH].
Qed.

Lemma replace_ids row docs :
  List.map Db.d_id
    (List.map (fun r => if String.eqb (Db.d_id r) (Db.d_id row)
                        then row else r) docs)
  = List.map Db.d_id docs.
Proof.
  induction docs as [|x docs IH]; cbn; [reflexivity|].
  rewrite IH. f_equal.
  destruct (String.eqb_spec (Db.d_id x) (Db.d_id row)); congruence.
Qed.

Lemma replace_absent row docs :
  ~ In (Db.d_id row) (List.map Db.d_id docs) ->
  List.map (fun r => if String.eqb (Db.d_id r) (Db.d_id row)
                     then row else r) docs = docs.
Proof.
  induction docs as [|x docs IH]; cbn; [reflexivity|].
  intros H. destruct (String.eqb_spec (Db.d_id x) (Db.d_id row)) as [E|_].
  - elim H. now left.
  - f_equal. apply IH. intros K. apply H. now right.
Qed.

(** The primary key on [documents.id] is kept by the upsert. *)
Lemma upsert_keeps_ids_unique row conn :
  NoDup (List.map Db.d_id (Db.documents (Db.current conn))) ->
  NoDup (List.map Db.d_id
           (Db.documents (Db.current (Db.upsert_document row conn)))).
Proof.
  intros H. rewrite upsert_documents.
  destruct (List.existsb _ _) eqn:E.
  - now rewrite replace_ids.
  - rewrite List.map_app. cbn.
    apply NoDup_app; [exact H | repeat constructor; intros [] | ].
    intros k Hk [<-|[]]. exact (existsb_id_false _ _ E Hk).
Qed.

(** After the upsert the store has one row with the id of [row], and it
    is [row]. *)
Lemma upsert_single_row row conn :
  NoDup (List.map Db.d_id (Db.documents (Db.current conn))) ->
  with_id (Db.d_id row)
    (Db.documents (Db.current (Db.upsert_document row conn))) = [row].
Proof.
  intros H. rewrite upsert_documents.
  destruct (List.existsb _ _) eqn:E.
  - induction (Db.documents (Db.current conn)) as [|x docs IH];
      cbn [List.existsb List.map List.filter] in *; [discriminate|].
    inversion H as [|? ? Hx Hd]; subst.
    destruct (String.eqb_spec (Db.d_id x) (Db.d_id row)) as [Ex|Nx].
    + rewrite String.eqb_refl. f_equal.
      rewrite Ex in Hx.
      rewrite (replace_absent _ _ Hx). now apply with_id_absent.
    + destruct (String.eqb_spec (Db.d_id x) (Db.d_id row)); [contradiction|].
      apply IH; assumption.
  - rewrite List.filter_app. cbn. rewrite String.eqb_refl.
    now rewrite (with_id_absent _ _ (existsb_id_false _ _ E)).
Qed.

End Store.

(** ** Ingestion *)

Ltac unfold_monad :=
  unfold App.exec, App.on_sys, App.on_conn, Py.bind, Py.ret, Py.lift,
    Py.gets, Py.modify in *.

Section Ingest.

Variable E : Env.
Variable S : Config.Settings.

Lemma insert_chunks_committed rows : forall conn r conn',
  Db.insert_chunks rows conn = (r, conn') ->
  Db.committed conn' = Db.committed conn
  /\ Db.documents (Db.current conn') = Db.documents (Db.current conn).
Proof.
  induction rows as [|row rows IH]; intros conn r conn'; cbn [Db.insert_chunks].
  - unfold Py.ret. now intros [= <- <-].
  - destruct (List.existsb _ _).
    + now intros [= <- <-].
    + intros H. destruct (IH _ _ _ H) as (-> & ->). split; reflexivity.
Qed.

Lemma insert_chunks_ok rows : forall conn conn',
  Db.insert_chunks rows conn = (Ok tt, conn') ->
  Db.chunks (Db.current conn') = Db.chunks (Db.current conn) ++ rows
  /\ Db.chunks_fts (Db.current conn') = Db.chunks_fts (Db.current conn).
Proof.
  induction rows as [|row rows IH]; intros conn conn'; cbn [Db.insert_chunks].
  - unfold Py.ret. intros [= <-]. now rewrite app_nil_r.
  - destruct (List.existsb _ _); [discriminate|].
    intros H. destruct (IH _ _ H) as (-> & ->). cbn.
    now rewrite <- app_assoc.
Qed.

(** The steps of [reindex], spelled out. *)
Lemma reindex_eq existing rp w :
  App.reindex E S existing rp w
  = match Indexer.index_pdf E rp (Config.max_chunk_chars S)
            (Config.min_chunk_chars S) (Config.max_pages_per_chunk S)
            (App.sys w) with
    | (Raise m, s') => (Raise m, {| App.conn := App.conn w; App.sys := s' |})
    | (Ok doc, s') =>
        let c1 := match existing with
                  | Some ex => Db.delete_document_chunks (Db.d_id ex)
                                 (App.conn w)
                  | None => App.conn w
                  end in
        match Db.insert_chunks (App.chunk_rows doc)
                (Db.upsert_document (App.document_row doc) c1) with
        | (Raise m, c3) => (Raise m, {| App.conn := c3; App.sys := s' |})
        | (Ok _, c3) =>
            (Ok tt, {| App.conn := Db.commit
                                     (Db.insert_fts_rows (App.fts_rows doc) c3);
                       App.sys := s' |})
        end
    end.
Proof.
  unfold App.reindex. unfold_monad.
  destruct (Indexer.index_pdf _ _ _ _ _ _) as [[doc|m] s']; [|reflexivity].
  destruct existing as [ex|]; cbn;
    destruct (Db.insert_chunks _ _) as [[[]|m] c3]; reflexivity.
Qed.

(** The body of the [try], spelled out. *)
Lemma ingest_file_eq force p w :
  App.ingest_file E S force p w
  = match path_resolve E p with
    | Raise m => (Raise m, w)
    | Ok rp =>
        let existing := Db.get_document_by_path (App.conn w) rp in
        if App.unchanged E force existing rp then (Ok App.Skipped, w)
        else match App.reindex E S existing rp w with
             | (Ok _, w') => (Ok App.Indexed, w')
             | (Raise m, w') => (Raise m, w')
             end
    end.
Proof.
  unfold App.ingest_file. unfold_monad.
  destruct (path_resolve E p); [|reflexivity]. cbn.
  destruct (App.unchanged _ _ _ _); reflexivity.
Qed.


(** What a successful [index_pdf] returns. *)
Lemma index_pdf_ok rp a b c s doc s' :
  Indexer.index_pdf E rp a b c s = (Ok doc, s') ->
  exists st data,
    path_stat E rp = Ok st
    /\ read_bytes E rp = Ok data
    /\ path_resolve E rp = Ok (Indexer.path doc)
    /\ Indexer.doc_id doc = sha256_hexdigest E data
    /\ Indexer.sha256 doc = sha256_hexdigest E data
    /\ Indexer.mtime doc = st_mtime st
    /\ Indexer.size_bytes doc = st_size st.
Proof.
  unfold Indexer.index_pdf, Indexer.extract_pages_text, Indexer.build_chunks_io,
    Indexer.now. unfold_monad.
  cbn -[Utils.sha256_file Utils.default_chunk_size].
  destruct (path_stat E rp) as [st|]; [|discriminate].
  destruct (read_bytes E rp) as [data|] eqn:Hr.
  2:{ unfold Utils.sha256_file. rewrite Hr. discriminate. }
  rewrite (sha256_file_bytes E rp data Hr).
  destruct (fitz_pages E rp); [|discriminate].
  destruct (path_resolve E rp) eqn:Hp; [|discriminate].
  intros [= <- <-]. exists st, data. cbn. repeat split; auto.
Qed.

End Ingest.

Section Batch.

Variable E : Env.
Variable S : Config.Settings.
Variable force : bool.

(** A raise inside the [try] leaves what the last commit stored. *)
Lemma ingest_file_raise_committed p w m w' :
  App.ingest_file E S force p w = (Raise m, w') ->
  Db.committed (App.conn w') = Db.committed (App.conn w).
Proof.
  rewrite ingest_file_eq.
  destruct (path_resolve E p) as [rp|]; [|now intros [= _ <-]].
  cbv zeta. destruct (App.unchanged _ _ _ _); [discriminate|].
  rewrite reindex_eq.
  destruct (Indexer.index_pdf _ _ _ _ _ _) as [[doc|m'] s'];
    [|now intros [= _ <-]].
  cbv zeta.
  destruct (Db.insert_chunks _ _) as [[[]|m'] c3] eqn:Hi; [discriminate|].
  intros [= _ <-]. cbn.
  destruct (insert_chunks_committed _ _ _ _ Hi) as (-> & _).
  destruct (Db.get_document_by_path _ _); reflexivity.
Qed.

(** An iteration leaves the connection without an open transaction. *)
Lemma ingest_step_settled t w p :
  settled w -> settled (snd (App.ingest_step E S force (t, w) p)).
Proof.
  unfold settled, App.ingest_step. intros Hw.
  destruct (App.ingest_file E S force p w) as [[[]|m] w'] eqn:Hf; cbn;
    try reflexivity.
  - rewrite ingest_file_eq in Hf.
    destruct (path_resolve E p) as [rp|]; [|discriminate].
    cbv zeta in Hf. destruct (App.unchanged _ _ _ _).
    + now injection Hf as <-.
    + destruct (App.reindex _ _ _ _ _) as [[|] ?]; discriminate.
  - rewrite ingest_file_eq in Hf.
    destruct (path_resolve E p) as [rp|]; [|discriminate].
    cbv zeta in Hf. destruct (App.unchanged _ _ _ _); [discriminate|].
    rewrite reindex_eq in Hf.
    destruct (Indexer.index_pdf _ _ _ _ _ _) as [[doc|m'] s']; [|discriminate].
    cbv zeta in Hf.
    destruct (Db.insert_chunks _ _) as [[[]|m'] c3]; [|discriminate].
    injection Hf as <-. reflexivity.
Qed.

Lemma ingest_loop_settled paths : forall t w,
  settled w -> settled (snd (App.ingest_loop E S force paths (t, w))).
Proof.
  induction paths as [|p paths IH]; intros t w Hw; [exact Hw|].
  cbn [App.ingest_loop List.fold_left].
  pose proof (ingest_step_settled t w p Hw) as H.
  destruct (App.ingest_step E S force (t, w) p) as [t1 w1].
  apply IH. exact H.
Qed.

(** The loop only ever appends to [errors]. *)
Lemma ingest_loop_errs_grow paths : forall st,
  exists more,
    App.errs (fst (App.ingest_loop E S force paths st))
    = App.errs (fst st) ++ more.
Proof.
  induction paths as [|p paths IH]; intros st; cbn [App.ingest_loop List.fold_left].
  - exists []. now rewrite app_nil_r.
  - destruct (IH (App.ingest_step E S force st p)) as (more & Hm).
    unfold App.ingest_loop in Hm. rewrite Hm.
    destruct st as [t w]. unfold App.ingest_step.
    destruct (App.ingest_file E S force p w) as [[[]|m] w']; cbn;
      try (now exists more).
    exists ((p, m) :: more). now rewrite <- app_assoc.
Qed.

(** Each path the loop is given ends in exactly one of the three
    tallies, and each error entry names a path the loop was given. *)
Lemma ingest_loop_accounts paths : forall st,
  let st' := App.ingest_loop E S force paths st in
  App.n_indexed (fst st') + App.n_skipped (fst st')
  + Z.of_nat (List.length (App.errs (fst st')))
  = App.n_indexed (fst st) + App.n_skipped (fst st)
    + Z.of_nat (List.length (App.errs (fst st)))
    + Z.of_nat (List.length paths)
  /\ forall e, In e (App.errs (fst st')) ->
               In e (App.errs (fst st)) \/ In (fst e) paths.
Proof.
  induction paths as [|p paths IH]; intros st; cbn [App.ingest_loop List.fold_left].
  - cbn. split; [lia | auto].
  - destruct (IH (App.ingest_step E S force st p)) as (Hn & He).
    unfold App.ingest_loop in Hn, He. cbv zeta. split.
    + rewrite Hn. clear. destruct st as [t w]. unfold App.ingest_step.
      destruct (App.ingest_file E S force p w) as [[[]|m] w'];
        cbn [fst App.n_indexed App.n_skipped App.errs List.length];
        rewrite ?length_app; cbn [List.length]; lia.
    + intros e H. destruct (He e H) as [K|K]; [|right; now right].
      clear - K. destruct st as [t w]. unfold App.ingest_step in K.
      destruct (App.ingest_file E S force p w) as [[[]|m] w'];
        cbn [fst App.errs] in *; auto.
      apply in_app_or in K. destruct K as [K|[<-|[]]]; [now left|].
      right. now left.
Qed.

End Batch.

(** What an iteration that ends in [Indexed] has done to [documents]. *)
Lemma ingest_file_indexed E S force p rp w w' :
  path_resolve E p = Ok rp ->
  App.ingest_file E S force p w = (Ok App.Indexed, w') ->
  exists doc s',
    Indexer.index_pdf E rp (Config.max_chunk_chars S)
      (Config.min_chunk_chars S) (Config.max_pages_per_chunk S) (App.sys w)
    = (Ok doc, s')
    /\ Db.documents (Db.current (App.conn w'))
       = Db.documents
           (Db.current (Db.upsert_document (App.document_row doc) (App.conn w)))
    /\ settled w'.
Proof.
  intros Hr. rewrite ingest_file_eq, Hr. cbv zeta.
  destruct (App.unchanged _ _ _ _); [discriminate|].
  rewrite reindex_eq.
  destruct (Indexer.index_pdf _ _ _ _ _ _) as [[doc|m] s']; [|discriminate].
  cbv zeta.
  destruct (Db.insert_chunks _ _) as [[[]|m] c3] eqn:Hi; [|discriminate].
  intros [= <-]. exists doc, s'. split; [reflexivity|].
  split; [|reflexivity].
  destruct (insert_chunks_committed _ _ _ _ Hi) as (_ & Hd).
  cbn [App.conn Db.commit Db.current Db.insert_fts_rows Db.execute
       Db.documents].
  rewrite Hd, !upsert_documents.
  destruct (Db.get_document_by_path _ _); reflexivity.
Qed.

(** C7: a file whose processing raises is caught on its own: the rollback
    puts the store back to what it was before the file, the tallies are
    untouched but for the entry (file, message) appended to errors, and
    the loop goes on with the remaining files, its final errors list
    holding that entry. *)
Theorem failed_file_rolled_back E S force t w p rest m w' :
  settled w ->
  App.ingest_file E S force p w = (Raise m, w') ->
  exists t1 w1,
    App.ingest_step E S force (t, w) p = (t1, w1)
    /\ App.conn w1 = App.conn w
    /\ App.n_indexed t1 = App.n_indexed t
    /\ App.n_skipped t1 = App.n_skipped t
    /\ App.errs t1 = App.errs t ++ [(p, m)]
    /\ App.ingest_loop E S force (p :: rest) (t, w)
       = App.ingest_loop E S force rest (t1, w1)
    /\ In (p, m)
         (App.errs (fst (App.ingest_loop E S force (p :: rest) (t, w)))).
Proof.
  intros Hw Hf.
  pose proof (ingest_file_raise_committed E S force p w m w' Hf) as Hc.
  do 2 eexists. split; [unfold App.ingest_step; rewrite Hf; reflexivity|].
  cbn [App.conn App.n_indexed App.n_skipped App.errs].
  repeat split.
  - unfold Db.rollback. rewrite Hc. unfold settled in Hw.
    destruct (App.conn w) as [cm cu]. cbn in *. now subst.
  - cbn [App.ingest_loop List.fold_left]. unfold App.ingest_step at 2.
    rewrite Hf. reflexivity.
  - cbn [App.ingest_loop List.fold_left]. unfold App.ingest_step at 2.
    rewrite Hf.
    match goal with
    | |- context [List.fold_left _ rest ?st] =>
        destruct (ingest_loop_errs_grow E S force rest st) as (more & Hm)
    end.
    unfold App.ingest_loop in Hm. rewrite Hm. cbn [fst App.errs].
    apply in_or_app. left. apply in_or_app. right. now left.
Qed.

(** A batch of three files on a store that already holds a chunk with
    the id the uuid source is stuck on: the second file gets as far as the
    upsert of its Document row before the insert of its chunk raises. *)
Lemma failed_file_rolled_back_witness :
  let E := Sample.stuck_uuid
             (Sample.env [(Sample.report, Sample.report_v2);
                          (Sample.copy, Sample.report_v1)]) in
  let w := snd Sample.run_v1 in
  exists t1 w1,
    App.ingest_step E Sample.settings false (App.tally0, w) Sample.copy
    = (t1, w1)
    /\ App.conn w1 = App.conn w
    /\ App.n_indexed t1 = 0
    /\ App.n_skipped t1 = 0
    /\ App.errs t1
       = [] ++ [(Sample.copy, "UNIQUE constraint failed: chunks.id"%string)]
    /\ App.ingest_loop E Sample.settings false [Sample.copy; Sample.report]
         (App.tally0, w)
       = App.ingest_loop E Sample.settings false [Sample.report] (t1, w1)
    /\ In (Sample.copy, "UNIQUE constraint failed: chunks.id"%string)
         (App.errs
            (fst (App.ingest_loop E Sample.settings false
                    [Sample.copy; Sample.report] (App.tally0, w)))).
Proof.
  cbv zeta.
  eapply (failed_file_rolled_back
            (Sample.stuck_uuid
               (Sample.env [(Sample.report, Sample.report_v2);
                            (Sample.copy, Sample.report_v1)]))
            Sample.settings false App.tally0 (snd Sample.run_v1) Sample.copy
            [Sample.report]).
  - reflexivity.
  - vm_compute. reflexivity.
Defined.

(** ** Change detection *)




(** ** The explicit files list *)

Lemma filter_result_ok {A} (test : A -> Result bool) xs : forall kept,
  filter_result test xs = Ok kept ->
  kept = List.filter
           (fun x => match test x with Ok b => b | Raise _ => false end) xs.
Proof.
  induction xs as [|x xs IH]; cbn [filter_result List.filter]; intros kept.
  - now intros [= <-].
  - destruct (test x) as [b|]; [|discriminate].
    destruct (filter_result test xs) as [r|]; [|discriminate].
    intros [= <-]. rewrite <- (IH r eq_refl). reflexivity.
Qed.

Lemma filter_result_answers {A} (test : A -> Result bool) xs :
  Forall (fun x => exists b, test x = Ok b) xs ->
  exists kept, filter_result test xs = Ok kept.
Proof.
  induction 1 as [|x xs (b & Hb) _ (kept & IH)]; cbn [filter_result].
  - now exists [].
  - rewrite Hb, IH. eauto.
Qed.

Lemma filter_result_raise {A} (test : A -> Result bool) xs m :
  filter_result test xs = Raise m -> exists x, In x xs /\ test x = Raise m.
Proof.
  induction xs as [|x xs IH]; cbn [filter_result]; [discriminate|].
  destruct (test x) as [b|m'] eqn:Hx.
  - destruct (filter_result test xs) as [r|m'']; [discriminate|].
    intros [= <-]. destruct (IH eq_refl) as (y & Hy & Ht).
    exists y. split; [now right | exact Ht].
  - intros [= <-]. exists x. split; [now left | exact Hx].
Qed.

Lemma probed_keep_file E p : probed E p -> exists b, App.keep_file E p = Ok b.
Proof.
  unfold probed, App.keep_file. intros [->|(-> & b & ->)]; eauto.
Qed.

(** What the handler answers once the paths to process are chosen. *)
Lemma ingest_eq E S body w :
  App.ingest E S body w
  = match App.pdf_paths E S body with
    | Raise m => (Raise m, w)
    | Ok paths =>
        let st := App.ingest_loop E S (App.force body) paths
                    (App.tally0, w) in
        (Ok {| App.indexed := App.n_indexed (fst st);
               App.skipped := App.n_skipped (fst st);
               App.errors := App.errs (fst st);
               App.resp_db_path := Config.db_path S |}, snd st)
    end.
Proof.
  unfold App.ingest. unfold_monad.
  destruct (App.pdf_paths E S body) as [paths|m]; [|reflexivity].
  cbv zeta. destruct (App.ingest_loop _ _ _ _ _); reflexivity.
Qed.

(** C10 (as stated): a list of the report and of a name too long for the
    file system, which does not exist and has no .pdf suffix.  The test
    of the long name raises the OSError of its stat, outside the try of
    the loop: the request fails as a whole, the report is not indexed
    and no batch result is returned. *)
Lemma unfit_listed_file_fails_request :
  let E := Sample.name_max (Sample.env [(Sample.report, Sample.report_v1)]) in
  let body := Sample.request [Sample.report; Sample.long_name] in
  lower (path_suffix E Sample.long_name) <> ".pdf"%string
  /\ path_exists E Sample.report = Ok true
  /\ App.ingest E Sample.settings body Sample.world0
     = (Raise Sample.name_too_long, Sample.world0).
Proof.
  cbv zeta. split; [vm_compute; discriminate|]. split; vm_compute; reflexivity.
Qed.

(** C10 (amended): with an explicit files list on every path of which
    exists() and is_file() come to an answer, a listed path that does not
    exist, is not a regular file or has no .pdf suffix (in any letter
    case) is not among the paths processed; the paths processed are the
    listed ones that pass the three tests, the request is answered, each
    processed path ends in exactly one of indexed, skipped and errors,
    and no entry of errors names the dropped path. *)
Theorem unfit_listed_file_dropped E S body fs f w :
  App.files body = Some fs -> In f fs ->
  Forall (probed E) fs ->
  path_exists E f = Ok false \/ path_is_file E f = Ok false
  \/ lower (path_suffix E f) <> ".pdf"%string ->
  exists paths resp,
    App.pdf_paths E S body = Ok paths
    /\ fst (App.ingest E S body w) = Ok resp
    /\ paths = List.filter (fit E) fs
    /\ ~ In f paths
    /\ App.indexed resp + App.skipped resp
       + Z.of_nat (List.length (App.errors resp))
       = Z.of_nat (List.length paths)
    /\ forall e, In e (App.errors resp) -> fst e <> f.
Proof.
  intros Hfs Hin Hprobed Hbad.
  assert (Hk : fit E f = false).
  { rewrite Forall_forall in Hprobed. specialize (Hprobed f Hin).
    unfold fit, App.keep_file.
    destruct Hprobed as [->|(Hx & b & Hb)]; [reflexivity|]. rewrite Hx, Hb.
    destruct Hbad as [H|[H|H]]; [congruence| |].
    - rewrite Hb in H. injection H as ->. reflexivity.
    - apply String.eqb_neq in H. rewrite H. apply andb_false_r. }
  assert (Hp : exists paths, App.pdf_paths E S body = Ok paths).
  { unfold App.pdf_paths. rewrite Hfs. destruct fs as [|g fs]; [contradiction|].
    apply filter_result_answers.
    eapply Forall_impl; [|exact Hprobed]. apply probed_keep_file. }
  destruct Hp as (paths & Hp).
  assert (Hfilter : paths = List.filter (fit E) fs).
  { unfold App.pdf_paths in Hp. rewrite Hfs in Hp.
    destruct fs as [|g fs]; [contradiction|].
    exact (filter_result_ok (App.keep_file E) (g :: fs) paths Hp). }
  assert (Hf : ~ In f paths).
  { rewrite Hfilter. intros K. apply List.filter_In in K.
    destruct K as (_ & K). congruence. }
  rewrite ingest_eq, Hp. cbv zeta.
  destruct (ingest_loop_accounts E S (App.force body) paths (App.tally0, w))
    as (Hn & He).
  do 2 eexists. split; [reflexivity|]. split; [reflexivity|].
  split; [exact Hfilter|]. split; [exact Hf|].
  cbn [fst App.indexed App.skipped App.errors App.n_indexed App.n_skipped
       App.errs App.tally0 List.length] in *.
  split; [lia|].
  intros e K Heq. destruct (He e K) as [[]|K']. congruence.
Qed.

(** A list of one good file, one missing path, one text file, and a
    name with an upper-case suffix that does exist. *)
Lemma unfit_listed_file_dropped_witness :
  let E := Sample.env [(Sample.report, Sample.report_v1);
                       ("/docs/notes.txt"%string, Sample.report_v2);
                       ("/docs/SCAN.PDF"%string, Sample.corrupt)] in
  let fs := [Sample.report; "/docs/missing.pdf"; "/docs/notes.txt";
             "/docs/SCAN.PDF"]%string in
  exists paths resp,
    App.pdf_paths E Sample.settings (Sample.request fs) = Ok paths
    /\ fst (App.ingest E Sample.settings (Sample.request fs) Sample.world0)
       = Ok resp
    /\ paths = List.filter (fit E) fs
    /\ ~ In "/docs/notes.txt"%string paths
    /\ App.indexed resp + App.skipped resp
       + Z.of_nat (List.length (App.errors resp))
       = Z.of_nat (List.length paths)
    /\ forall e, In e (App.errors resp) -> fst e <> "/docs/notes.txt"%string.
Proof.
  cbv zeta.
  apply (unfit_listed_file_dropped
           (Sample.env [(Sample.report, Sample.report_v1);
                        ("/docs/notes.txt"%string, Sample.report_v2);
                        ("/docs/SCAN.PDF"%string, Sample.corrupt)])
           Sample.settings
           (Sample.request [Sample.report; "/docs/missing.pdf";
                            "/docs/notes.txt"; "/docs/SCAN.PDF"]%string)
           [Sample.report; "/docs/missing.pdf"; "/docs/notes.txt";
            "/docs/SCAN.PDF"]%string
           "/docs/notes.txt"%string Sample.world0).
  - reflexivity.
  - cbn. auto.
  - repeat (apply Forall_cons;
            [first [ left; vm_compute; reflexivity
                   | right; split;
                     [vm_compute; reflexivity
                     | eexists; vm_compute; reflexivity] ]|]).
    apply Forall_nil.
  - right. right. vm_compute. discriminate.
Defined.

(** ** One Document row per path *)

(** C1 (as the code behaves): the report is ingested, its content
    changes, and it is ingested again.  The second run deletes the chunks
    of the stored Document and inserts a row under the new content id;
    the row of the old id, with the same path, is never removed, so the
    store ends with two Document rows for the one path. *)
Theorem reingest_changed_file_keeps_old_row :
  fmap App.indexed (fst Sample.run_v1) = Ok 1
  /\ fmap App.indexed (fst Sample.run_v2) = Ok 1
  /\ fmap App.errors (fst Sample.run_v2) = Ok []
  /\ List.map Db.d_id
       (Db.documents (Sample.stored (snd Sample.run_v1)))
     = ["%PDF v1"%string]
  /\ List.map (fun r => (Db.d_id r, Db.d_path r))
       (Db.documents (Sample.stored (snd Sample.run_v2)))
     = [("%PDF v1", Sample.report); ("%PDF v2 longer", Sample.report)]%string
  /\ List.length
       (rows_with_path Sample.report
          (Db.documents (Sample.stored (snd Sample.run_v2)))) = 2%nat.
Proof. vm_compute. repeat split; reflexivity. Qed.

(** The lookup by path finds the row just written when no row had that
    path before. *)
Lemma upsert_lookup_fresh row conn :
  Db.get_document_by_path conn (Db.d_path row) = None ->
  Db.get_document_by_path (Db.upsert_document row conn) (Db.d_path row)
  = Some row.
Proof.
  unfold Db.get_document_by_path. rewrite upsert_documents.
  destruct (List.existsb _ _) eqn:Ex.
  - induction (Db.documents (Db.current conn)) as [|x docs IH];
      cbn [List.existsb List.map List.find] in *; [discriminate|].
    destruct (String.eqb (Db.d_path x) (Db.d_path row)) eqn:Hp;
      [discriminate|].
    intros Hn. destruct (String.eqb (Db.d_id x) (Db.d_id row)).
    + now rewrite String.eqb_refl.
    + rewrite Hp. now apply IH.
  - clear Ex. induction (Db.documents (Db.current conn)) as [|x docs IH];
      cbn [app List.find].
    + now rewrite String.eqb_refl.
    + destruct (String.eqb (Db.d_path x) (Db.d_path row)); [discriminate|].
      exact IH.
Qed.

(** Where C6 does hold: when the store has no Document for the canonical
    path, a run that indexes the file is followed, the file being the
    same, by a run that skips it and leaves the process as it is. *)
Lemma first_ingestion_then_skip E S p rp w w1 t :
  path_resolve E p = Ok rp -> path_resolve E rp = Ok rp ->
  Db.get_document_by_path (App.conn w) rp = None ->
  App.ingest_file E S false p w = (Ok App.Indexed, w1) ->
  App.ingest_step E S false (t, w1) p
  = ({| App.n_indexed := App.n_indexed t;
        App.n_skipped := App.n_skipped t + 1;
        App.errs := App.errs t |}, w1).
Proof.
  intros Hr Hrr Hnone Hi.
  destruct (ingest_file_indexed E S false p rp w w1 Hr Hi)
    as (doc & s' & Hidx & Hd & _).
  destruct (index_pdf_ok E _ _ _ _ _ _ _ Hidx)
    as (st & data & Hst & _ & Hp & _ & _ & Hm & Hs).
  rewrite Hrr in Hp. injection Hp as Hp.
  assert (Hex : Db.get_document_by_path (App.conn w1) rp
                = Some (App.document_row doc)).
  { unfold Db.get_document_by_path. rewrite Hd.
    replace rp with (Db.d_path (App.document_row doc)) by (symmetry; exact Hp).
    apply upsert_lookup_fresh. cbn [App.document_row Db.d_path].
    rewrite <- Hp. exact Hnone. }
  unfold App.ingest_step. rewrite ingest_file_eq, Hr. cbv zeta.
  rewrite Hex. unfold App.unchanged. cbn [negb]. rewrite Hst.
  cbn [App.document_row Db.d_mtime Db.d_size_bytes].
  rewrite Hm, Hs, Z.eqb_refl.
  replace (Qeq_bool (st_mtime st) (st_mtime st)) with true
    by (symmetry; apply Qeq_bool_iff; reflexivity).
  reflexivity.
Qed.

(** C6 (as the code behaves): after the change of C1, the unchanged
    report is ingested once more with force off.  The lookup by path
    returns the stale first row, whose mtime and size are those of the
    old content, so the file is indexed again instead of skipped; and as
    only the stale row's chunks are deleted, the chunks of the current
    Document are stored a second time. *)
Theorem unchanged_file_indexed_again :
  let doc := "%PDF v2 longer"%string in
  fmap App.indexed (fst Sample.run_v2) = Ok 1
  /\ fmap App.indexed (fst Sample.run_v2_again) = Ok 1
  /\ fmap App.skipped (fst Sample.run_v2_again) = Ok 0
  /\ fmap App.errors (fst Sample.run_v2_again) = Ok []
  /\ List.length (Sample.chunks_of doc (snd Sample.run_v2)) = 1%nat
  /\ List.length (Sample.chunks_of doc (snd Sample.run_v2_again)) = 2%nat.
Proof. vm_compute. repeat split; reflexivity. Qed.

(** ** Files with the same bytes *)

(** C2 (as stated): the report and a byte-identical copy are ingested in
    one batch; both are indexed under the same id, and the store ends
    with a single Document row, under the path of the copy; no row is
    left for the path of the report. *)
Lemma twin_files_one_row_only :
  fmap App.indexed (fst Sample.run_twins) = Ok 2
  /\ fmap App.errors (fst Sample.run_twins) = Ok []
  /\ List.map (fun r => (Db.d_id r, Db.d_sha256 r, Db.d_path r))
       (Db.documents (Sample.stored (snd Sample.run_twins)))
     = [("%PDF v1", "%PDF v1", Sample.copy)]%string
  /\ Db.get_document_by_path (App.conn (snd Sample.run_twins)) Sample.report
     = None.
Proof. vm_compute. repeat split; reflexivity. Qed.

(** C2 (amended): two files with the same bytes get the same id and
    content hash, the digest of those bytes.  Document rows are keyed by
    that id: once the first file is indexed the store has one row with
    the id, under the first canonical path; once the second is indexed it
    still has one row with the id, now under the second canonical
    path. *)
Theorem twin_files_share_one_row E S force p1 p2 rp1 rp2 data w0 w1 w2 :
  NoDup (List.map Db.d_id (Db.documents (Db.current (App.conn w0)))) ->
  path_resolve E p1 = Ok rp1 -> path_resolve E p2 = Ok rp2 ->
  read_bytes E rp1 = Ok data -> read_bytes E rp2 = Ok data ->
  App.ingest_file E S force p1 w0 = (Ok App.Indexed, w1) ->
  App.ingest_file E S force p2 w1 = (Ok App.Indexed, w2) ->
  let h := Utils.stable_doc_id (sha256_hexdigest E data) in
  exists row1 row2,
    rows_with_id h (Db.documents (Db.current (App.conn w1))) = [row1]
    /\ rows_with_id h (Db.documents (Db.current (App.conn w2))) = [row2]
    /\ Db.d_id row1 = h /\ Db.d_id row2 = h
    /\ Db.d_sha256 row1 = sha256_hexdigest E data
    /\ Db.d_sha256 row2 = sha256_hexdigest E data
    /\ path_resolve E rp1 = Ok (Db.d_path row1)
    /\ path_resolve E rp2 = Ok (Db.d_path row2).
Proof.
  intros Hu Hr1 Hr2 Hb1 Hb2 H1 H2. cbv zeta. unfold Utils.stable_doc_id.
  destruct (ingest_file_indexed E S force p1 rp1 w0 w1 Hr1 H1)
    as (d1 & s1 & Hi1 & Hd1 & _).
  destruct (ingest_file_indexed E S force p2 rp2 w1 w2 Hr2 H2)
    as (d2 & s2 & Hi2 & Hd2 & _).
  destruct (index_pdf_ok E _ _ _ _ _ _ _ Hi1)
    as (st1 & data1 & _ & Hb1' & Hp1 & Hid1 & Hsha1 & _).
  destruct (index_pdf_ok E _ _ _ _ _ _ _ Hi2)
    as (st2 & data2 & _ & Hb2' & Hp2 & Hid2 & Hsha2 & _).
  rewrite Hb1 in Hb1'. injection Hb1' as <-.
  rewrite Hb2 in Hb2'. injection Hb2' as <-.
  assert (Hu1 : NoDup (List.map Db.d_id
                         (Db.documents (Db.current (App.conn w1))))).
  { rewrite Hd1. now apply upsert_keeps_ids_unique. }
  exists (App.document_row d1), (App.document_row d2).
  unfold rows_with_id. repeat split; auto.
  - rewrite Hd1, <- Hid1.
    exact (upsert_single_row (App.document_row d1) (App.conn w0) Hu).
  - rewrite Hd2, <- Hid2.
    exact (upsert_single_row (App.document_row d2) (App.conn w1) Hu1).
Qed.

Lemma twin_files_share_one_row_witness :
  let E := Sample.env [(Sample.report, Sample.report_v1);
                       (Sample.copy, Sample.report_v1)] in
  let w1 := snd (App.ingest_file E Sample.settings false Sample.report
                   Sample.world0) in
  let w2 := snd (App.ingest_file E Sample.settings false Sample.copy w1) in
  let h := Utils.stable_doc_id (sha256_hexdigest E (lit "%PDF v1")) in
  exists row1 row2,
    rows_with_id h (Db.documents (Db.current (App.conn w1))) = [row1]
    /\ rows_with_id h (Db.documents (Db.current (App.conn w2))) = [row2]
    /\ Db.d_id row1 = h /\ Db.d_id row2 = h
    /\ Db.d_sha256 row1 = sha256_hexdigest E (lit "%PDF v1")
    /\ Db.d_sha256 row2 = sha256_hexdigest E (lit "%PDF v1")
    /\ path_resolve E Sample.report = Ok (Db.d_path row1)
    /\ path_resolve E Sample.copy = Ok (Db.d_path row2).
Proof.
  cbv zeta.
  apply (twin_files_share_one_row
           (Sample.env [(Sample.report, Sample.report_v1);
                        (Sample.copy, Sample.report_v1)])
           Sample.settings false Sample.report Sample.copy
           Sample.report Sample.copy (lit "%PDF v1") Sample.world0).
  - constructor.
  - reflexivity.
  - reflexivity.
  - reflexivity.
  - reflexivity.
  - vm_compute. reflexivity.
  - vm_compute. reflexivity.
Defined.

(** ** Search *)

Section Search.

(** Better or equal, by bm25: the lower score. *)
Local Abbreviation scored_le :=
  (fun a b : Db.FtsRow * Q => (snd a <= snd b)%Q).

Lemma insert_by_score_In x l y :
  In y (Db.insert_by_score x l) -> y = x \/ In y l.
Proof.
  induction l as [|z l IH]; cbn; [intuition|].
  destruct (Qle_bool (snd x) (snd z)); cbn; intuition.
Qed.





Lemma firstn_sorted {A} (R : A -> A -> Prop) n : forall l,
  StronglySorted R l -> StronglySorted R (List.firstn n l).
Proof.
  induction n as [|n IH]; intros l Hl; cbn; [constructor|].
  destruct l as [|x l]; [constructor|].
  inversion Hl as [|? ? Hs Hx]; subst. constructor; [now apply IH|].
  apply Forall_forall. intros y Hy. rewrite Forall_forall in Hx.
  apply Hx. revert Hy. clear. revert l.
  induction n as [|n IH]; intros [|z l]; cbn; intuition.
Qed.

Lemma limit_sorted {A} (R : A -> A -> Prop) k l :
  StronglySorted R l -> StronglySorted R (Db.limit k l).
Proof.
  unfold Db.limit. destruct (k <? 0); [auto | apply firstn_sorted].
Qed.


End Search.


Lemma fits_int64_iff z :
  Db.fits_int64 z = true <-> Db.int64_min <= z <= Db.int64_max.
Proof.
  unfold Db.fits_int64. rewrite andb_true_iff, !Z.leb_le. reflexivity.
Qed.

Lemma encode_error_none s : forall pos,
  Db.encode_error pos s = None <-> List.existsb Db.surrogate s = false.
Proof.
  induction s as [|c s IH]; intros pos; cbn [Db.encode_error List.existsb].
  - split; reflexivity.
  - destruct (Db.surrogate c); cbn [orb]; [split; discriminate | apply IH].
Qed.

Lemma bind_text_ok s :
  Db.bind_text s = Ok tt <-> List.existsb Db.surrogate s = false.
Proof.
  unfold Db.bind_text. rewrite <- (encode_error_none s O).
  destruct (Db.encode_error O s); split; congruence.
Qed.


(** What [search_chunks] did when it returned: every parameter was
    bound, the engine accepted the query, and the rows are the matching
    ones, ordered and cut. *)
Lemma search_chunks_ok_inv E conn q top_k snippet_chars rs :
  Db.search_chunks E conn q top_k snippet_chars = Ok rs ->
  Db.fits_int64 (Z.max 10 snippet_chars) = true
  /\ List.existsb Db.surrogate q = false
  /\ Db.fits_int64 top_k = true
  /\ exists matches,
       fts_match E q = Ok matches
       /\ rs = List.map
                 (fun r =>
                    let (f, score) := r : Db.FtsRow * Q in
                    {| Db.r_doc_id := Db.f_document_id f;
                       Db.r_filename := Db.f_filename f;
                       Db.r_path := Db.f_path f;
                       Db.r_page_start := Db.f_page_start f;
                       Db.r_page_end := Db.f_page_end f;
                       Db.r_score := score;
                       Db.r_snippet := fts_snippet E q (Db.f_text f)
                                         (Z.max 10 snippet_chars) |})
                 (Db.limit top_k
                    (Db.order_by_score
                       (List.map
                          (fun f =>
                             (f, fts_bm25 E q
                                   (List.map Db.f_text
                                      (Db.chunks_fts (Db.current conn)))
                                   (Db.f_text f)))
                          (List.filter (fun f => matches (Db.f_text f))
                             (Db.chunks_fts (Db.current conn)))))).
Proof.
  unfold Db.search_chunks, Db.bind_int.
  destruct (Db.fits_int64 (Z.max 10 snippet_chars)); [|discriminate].
  destruct (Db.bind_text q) as [[]|] eqn:Hq; [|discriminate].
  apply bind_text_ok in Hq.
  destruct (Db.fits_int64 top_k); [|discriminate].
  destruct (fts_match E q) as [matches|]; [|discriminate].
  intros [= <-]. repeat split; [exact Hq|]. now exists matches.
Qed.

(** Why [search_chunks] raised: the first parameter that cannot be
    bound, in the order of the tuple, or else the engine. *)
Lemma search_chunks_raise_inv E conn q top_k snippet_chars m :
  Db.search_chunks E conn q top_k snippet_chars = Raise m ->
  (Db.fits_int64 (Z.max 10 snippet_chars) = false
   /\ m = "Python int too large to convert to SQLite INTEGER"%string)
  \/ (Db.fits_int64 (Z.max 10 snippet_chars) = true
      /\ List.existsb Db.surrogate q = true)
  \/ (Db.fits_int64 (Z.max 10 snippet_chars) = true
      /\ List.existsb Db.surrogate q = false
      /\ Db.fits_int64 top_k = false
      /\ m = "Python int too large to convert to SQLite INTEGER"%string)
  \/ (Db.fits_int64 (Z.max 10 snippet_chars) = true
      /\ List.existsb Db.surrogate q = false
      /\ Db.fits_int64 top_k = true
      /\ fts_match E q = Raise m).
Proof.
  unfold Db.search_chunks, Db.bind_int.
  destruct (Db.fits_int64 (Z.max 10 snippet_chars)).
  2:{ intros [= <-]. left. auto. }
  destruct (Db.bind_text q) as [[]|] eqn:Hq.
  2:{ intros _. right. left. split; [reflexivity|].
      destruct (List.existsb Db.surrogate q) eqn:Hx; [reflexivity|].
      apply bind_text_ok in Hx. congruence. }
  apply bind_text_ok in Hq. rewrite Hq.
  destruct (Db.fits_int64 top_k).
  2:{ intros [= <-]. right. right. left. auto. }
  destruct (fts_match E q) as [matches|m']; [discriminate|].
  intros [= <-]. right. right. right. auto.
Qed.

Lemma fits_int64_false z :
  Db.fits_int64 z = false <-> z < Db.int64_min \/ Db.int64_max < z.
Proof.
  unfold Db.fits_int64. rewrite andb_false_iff, !Z.leb_gt. reflexivity.
Qed.


(** ** The query endpoint *)

(** C9 (as stated): a request whose JSON body is an array has no query.
    The handler calls get on the decoded list, and the AttributeError is
    not caught: the request fails (status 500) instead of being answered
    with a client error. *)
Lemma query_missing_in_array_body :
  let body := Some (App.JArr [App.JNum 1]) in
  App.query (Sample.env []) Sample.settings body (snd Sample.run_v1)
  = (Raise "'list' object has no attribute 'get'", snd Sample.run_v1).
Proof. vm_compute. reflexivity. Qed.

(** C9 (amended): when the body is absent, not JSON, falsy or a JSON
    object, a query that is missing from it, null or otherwise falsy,
    empty or made of whitespace only is answered with status 400 and the
    error payload, and nothing else happens: the process state, trace
    included, is what it was, so no search ran. *)
Theorem blank_query_rejected E S body fields w :
  App.or_else body (App.JObj []) = App.JObj fields ->
  (App.dict_get fields "query" = None
   \/ (exists j, App.dict_get fields "query" = Some j
                 /\ App.truthy j = false)
   \/ exists s, App.dict_get fields "query" = Some (App.JStr s)
                /\ List.forallb isspace s = true) ->
  App.query E S body w = (Ok (App.QError "Missing 'query'", 400), w).
Proof.
  intros Hb H. unfold App.query, App.body_get. rewrite Hb. unfold_monad.
  destruct H as [-> | [(j & -> & Hj) | (s & -> & Hs)]]; cbn -[strip].
  - reflexivity.
  - rewrite Hj. reflexivity.
  - destruct s as [|c s]; cbn -[strip]; [reflexivity|].
    rewrite (strip_blank (c :: s) Hs). reflexivity.
Qed.

Lemma blank_query_rejected_witness :
  let E := Sample.env [] in
  let w := snd Sample.run_v1 in
  let rejected := fun body =>
    App.query E Sample.settings body w
    = (Ok (App.QError "Missing 'query'", 400), w) in
  rejected None
  /\ rejected (Some (App.JArr []))
  /\ rejected (Some (App.JObj [("top_k"%string, App.JNum 3)]))
  /\ rejected (Some (App.JObj [("query"%string, App.JNull)]))
  /\ rejected (Some (App.JObj [("query"%string, App.JStr [])]))
  /\ rejected (Some (App.JObj [("query"%string,
                                App.JStr [32; 9; 160; 10]%N)])).
Proof.
  cbv zeta. split; [|split; [|split; [|split; [|split]]]].
  - apply (blank_query_rejected _ _ _ []); [reflexivity|]. left. reflexivity.
  - apply (blank_query_rejected _ _ _ []); [reflexivity|]. left. reflexivity.
  - apply (blank_query_rejected _ _ _ [("top_k"%string, App.JNum 3)]);
      [reflexivity|]. left. reflexivity.
  - apply (blank_query_rejected _ _ _ [("query"%string, App.JNull)]);
      [reflexivity|]. right. left. exists App.JNull. split; reflexivity.
  - apply (blank_query_rejected _ _ _ [("query"%string, App.JStr [])]);
      [reflexivity|]. right. right. exists []. split; reflexivity.
  - apply (blank_query_rejected _ _ _
             [("query"%string, App.JStr [32; 9; 160; 10]%N)]);
      [reflexivity|]. right. right. exists [32; 9; 160; 10]%N.
    split; reflexivity.
Defined.

(** A query that does reach the index leaves its mark in the trace. *)
Lemma query_search_traced E S body w q top_k hits w' :
  App.query E S body w = (Ok (App.QResults q top_k hits, 200), w') ->
  trace (App.sys w') = trace (App.sys w) ++ [EvFtsQuery q]
  /\ App.conn w' = App.conn w.
Proof.
  unfold App.query. unfold_monad.
  destruct (App.body_get body "query") as [qv|]; [|discriminate].
  destruct (App.or_else qv (App.JStr [])) as [| | | |s| |]; try discriminate.
  destruct (strip s) as [|c q0]; [discriminate|].
  destruct (App.body_get body "top_k") as [tk|]; [|discriminate].
  destruct (App.py_int E _) as [k|]; [|discriminate].
  destruct (App.body_get body "snippet_chars") as [sc|]; [|discriminate].
  destruct (App.py_int E _) as [n|]; [|discriminate].
  cbn. destruct (Db.search_chunks _ _ _ _ _); [|discriminate].
  intros [= <- <- <- <-]. cbn. auto.
Qed.

(* ------------------------------------------------------------------ *)
(** * Further properties of the code *)

(** ** The chunker on arbitrary pages *)

Section ChunkerAnyPages.

Variable ids : nat -> string.
Variable doc : string.
Variables max_chars min_chars max_pages : Z.

Local Abbreviation flush := (Indexer.flush ids doc).
Local Abbreviation step := (Indexer.step ids doc max_chars min_chars max_pages).
Local Abbreviation run := (List.fold_left step).

(** The branches of an iteration, with the tests that select them. *)
Lemma step_branches st idx t :
  (t = [] /\ step st (idx, t) = st)
  \/ (t <> [] /\ Indexer.buf st = []
      /\ step st (idx, t) = Indexer.start_at idx t st)
  \/ (t <> [] /\ Indexer.buf st <> []
      /\ len (join [newline] (Indexer.buf st ++ [t])) <= max_chars
      /\ idx - Indexer.current_start st + 1 <= max_pages
      /\ step st (idx, t) = Indexer.append_page idx t st)
  \/ (t <> [] /\ Indexer.buf st <> []
      /\ len (join [newline] (Indexer.buf st)) < min_chars
      /\ idx - Indexer.current_start st + 1 <= max_pages
      /\ step st (idx, t)
         = Indexer.start_at idx t (flush (Indexer.append_page idx t st)))
  \/ (t <> [] /\ Indexer.buf st <> []
      /\ (min_chars <= len (join [newline] (Indexer.buf st))
          \/ max_pages < idx - Indexer.current_start st + 1)
      /\ step st (idx, t) = Indexer.start_at idx t (flush st)).
Proof.
  unfold Indexer.step.
  destruct t as [|c t]; [now left|]. right.
  destruct (Indexer.buf st) as [|b bs] eqn:Eb.
  { left. repeat split; auto. discriminate. }
  right.
  destruct (Z.leb_spec (len (join [newline] ((b :: bs) ++ [c :: t])))
              max_chars) as [H1|H1];
    destruct (Z.leb_spec (idx - Indexer.current_start st + 1) max_pages)
      as [H2|H2]; cbn [andb].
  - left. repeat split; auto; discriminate.
  - right. destruct (Z.ltb_spec (len (join [newline] (b :: bs))) min_chars);
      cbn [andb]; right; repeat split; auto; discriminate.
  - right. destruct (Z.ltb_spec (len (join [newline] (b :: bs))) min_chars);
      cbn [andb].
    + left. repeat split; auto; discriminate.
    + right. repeat split; auto; discriminate.
  - right. destruct (Z.ltb_spec (len (join [newline] (b :: bs))) min_chars);
      cbn [andb]; right; repeat split; auto; discriminate.
Qed.

(** What a flush emits, in full. *)
Lemma flush_chunk st :
  exists e,
    Indexer.out (flush st) = Indexer.out st ++ e
    /\ (List.length e <= 1)%nat
    /\ Forall (fun c => Indexer.buf st <> []
                        /\ Indexer.page_start c = Indexer.current_start st
                        /\ Indexer.page_end c = Indexer.current_end st
                        /\ Indexer.text c
                           = Utils.normalize_text
                               (join [newline] (Indexer.buf st))
                        /\ Indexer.text c <> []
                        /\ Indexer.chunk_doc_id c = doc
                        /\ Indexer.id c
                           = ids (List.length (Indexer.out st))) e
    /\ (e = [] ->
        Indexer.buf st = []
        \/ Utils.normalize_text (join [newline] (Indexer.buf st)) = []).
Proof.
  unfold Indexer.flush.
  destruct (Indexer.buf st) as [|b bs] eqn:Eb.
  - exists []. rewrite app_nil_r. repeat split; auto.
  - destruct (Utils.normalize_text (join [newline] (b :: bs)))
      as [|x xs] eqn:En.
    + exists []. cbn. rewrite app_nil_r. repeat split; auto.
    + eexists [_]. cbn. split; [reflexivity|]. split; [lia|]. split.
      * constructor; [|constructor]. cbn. repeat split; auto; discriminate.
      * discriminate.
Qed.

Local Abbreviation before :=
  (fun a b : Indexer.Chunk =>
     Indexer.page_start a < Indexer.page_start b
     /\ Indexer.page_end a <= Indexer.page_start b).

Local Abbreviation sound i :=
  (fun c : Indexer.Chunk =>
     1 <= Indexer.page_start c <= Indexer.page_end c
     /\ Indexer.page_end c < i
     /\ Indexer.page_end c - Indexer.page_start c + 1 <= Z.max 1 max_pages
     /\ Indexer.text c <> []
     /\ (exists raw, Indexer.text c = Utils.normalize_text raw)
     /\ Indexer.chunk_doc_id c = doc).

Lemma sorted_snoc {A} (R : A -> A -> Prop) l c :
  StronglySorted R l -> Forall (fun a => R a c) l ->
  StronglySorted R (l ++ [c]).
Proof.
  induction 1 as [|x l Hs IH Hx]; intros Hc; cbn.
  - repeat constructor.
  - inversion Hc as [|? ? Hxc Hlc]; subst. constructor; [now apply IH|].
    apply Forall_app. split; [exact Hx | now repeat constructor].
Qed.

Lemma sound_later i j l : i <= j -> Forall (sound i) l -> Forall (sound j) l.
Proof.
  intros Hij. apply Forall_impl. cbv beta.
  intros c (H1 & H2 & H3 & H4 & H5 & H6). repeat split; auto; lia.
Qed.

Lemma scanning_later i j st :
  i <= j -> scanning doc max_pages i st -> scanning doc max_pages j st.
Proof.
  intros Hij (Hs & Hg & Hnil & Hbuf). unfold scanning.
  split; [exact Hs|]. split; [now apply sound_later with (i := i)|].
  split; [exact Hnil|]. intros Hb.
  destruct (Hbuf Hb) as (H1 & H2 & H3 & H4). repeat split; auto; lia.
Qed.

(** Flushing keeps the emitted chunks well formed and in order. *)
Lemma flush_scanned i st :
  scanning doc max_pages i st ->
  StronglySorted before (Indexer.out (flush st))
  /\ Forall (sound i) (Indexer.out (flush st))
  /\ forall j,
       (Indexer.buf st <> [] ->
        Indexer.current_start st < j /\ Indexer.current_end st <= j) ->
       Forall (fun c => Indexer.page_start c < j /\ Indexer.page_end c <= j)
         (Indexer.out (flush st)).
Proof.
  intros (Hs & Hg & Hnil & Hbuf).
  destruct (flush_chunk st) as (e & Eo & Hlen & Fe & _). rewrite Eo.
  destruct e as [|c [|c' e]]; [| |cbn in Hlen; lia].
  - rewrite app_nil_r. split; [exact Hs|]. split; [exact Hg|].
    intros j Hj. destruct (Indexer.buf st) as [|b bs] eqn:Eb.
    + rewrite (Hnil eq_refl). constructor.
    + destruct (Hbuf ltac:(discriminate)) as (H1 & H2 & H3 & H4).
      destruct (Hj ltac:(discriminate)) as (J1 & J2).
      eapply Forall_impl; [|exact H4]. cbv beta. intros; lia.
  - inversion Fe as [|? ? (Hb & C1 & C2 & C3 & C4 & C5 & _) _]; subst.
    destruct (Hbuf Hb) as (H1 & H2 & H3 & H4).
    split; [|split].
    + apply sorted_snoc; [exact Hs|].
      eapply Forall_impl; [|exact H4]. cbv beta. intros; lia.
    + apply Forall_app. split; [exact Hg|]. repeat constructor; try lia; auto.
      eexists. exact C3.
    + intros j Hj. destruct (Hj Hb) as (J1 & J2).
      apply Forall_app. split.
      * eapply Forall_impl; [|exact H4]. cbv beta. intros; lia.
      * repeat constructor; lia.
Qed.

Lemma append_scanning i t st :
  scanning doc max_pages i st -> Indexer.buf st <> [] ->
  i - Indexer.current_start st + 1 <= max_pages ->
  scanning doc max_pages (i + 1) (Indexer.append_page i t st).
Proof.
  intros (Hs & Hg & Hnil & Hbuf) Hb Hspan.
  destruct (Hbuf Hb) as (H1 & H2 & H3 & H4).
  unfold scanning, Indexer.append_page.
  cbn [Indexer.out Indexer.buf Indexer.current_start Indexer.current_end].
  split; [exact Hs|]. split; [apply sound_later with (i := i); [lia|exact Hg]|].
  split.
  - intros K. destruct (Indexer.buf st); discriminate.
  - intros _. repeat split; auto; lia.
Qed.

Lemma start_after_flush j i t st1 :
  scanning doc max_pages j st1 -> j <= i + 1 -> 1 <= i ->
  (Indexer.buf st1 <> [] ->
   Indexer.current_start st1 < i /\ Indexer.current_end st1 <= i) ->
  scanning doc max_pages (i + 1) (Indexer.start_at i t (flush st1)).
Proof.
  intros Hsc Hj Hi Hb.
  destruct (flush_scanned j st1 Hsc) as (Hs & Hg & Hf).
  unfold scanning, Indexer.start_at.
  cbn [Indexer.out Indexer.buf Indexer.current_start Indexer.current_end].
  split; [exact Hs|]. split; [now apply sound_later with (i := j)|].
  split; [discriminate|]. intros _.
  split; [lia|]. split; [lia|]. split; [lia|]. now apply Hf.
Qed.

(** The invariant is kept by every iteration. *)
Lemma step_scanning i t st :
  1 <= i -> scanning doc max_pages i st ->
  scanning doc max_pages (i + 1) (step st (i, t)).
Proof.
  intros Hi Hsc.
  destruct (step_branches st i t)
    as [(_ & ->)|[(_ & Hb & ->)|[(_ & Hb & _ & Hp & ->)
       |[(_ & Hb & _ & Hp & ->)|(_ & Hb & _ & ->)]]]].
  - apply scanning_later with (i := i); [lia | exact Hsc].
  - destruct Hsc as (Hs & Hg & Hnil & Hbuf).
    unfold scanning, Indexer.start_at.
    cbn [Indexer.out Indexer.buf Indexer.current_start Indexer.current_end].
    rewrite (Hnil Hb). split; [constructor|]. split; [constructor|].
    split; [discriminate|]. intros _. repeat split; try lia. constructor.
  - now apply append_scanning.
  - apply start_after_flush with (j := i + 1); try lia.
    + now apply append_scanning.
    + intros _. destruct Hsc as (_ & _ & _ & Hbuf).
      destruct (Hbuf Hb) as (H1 & H2 & _). cbn. lia.
  - apply start_after_flush with (j := i); try lia; [exact Hsc|].
    intros _. destruct Hsc as (_ & _ & _ & Hbuf).
    destruct (Hbuf Hb) as (H1 & H2 & _). lia.
Qed.

Lemma run_scanning l : forall s st,
  1 <= s -> scanning doc max_pages s st ->
  scanning doc max_pages (s + Z.of_nat (List.length l))
    (run (Indexer.enumerate s l) st).
Proof.
  induction l as [|t l IH]; intros s st Hs Hsc;
    cbn [Indexer.enumerate List.fold_left List.length].
  - now rewrite Z.add_0_r.
  - replace (s + Z.of_nat (Datatypes.S (List.length l)))
      with ((s + 1) + Z.of_nat (List.length l)) by lia.
    apply IH; [lia|]. now apply step_scanning.
Qed.

(** The chunks of a run, for any pages and any limits. *)
Lemma build_chunks_scanned pages :
  let cs := Indexer.build_chunks ids doc max_chars min_chars max_pages pages in
  StronglySorted before cs
  /\ Forall (sound (Z.of_nat (List.length pages) + 1)) cs.
Proof.
  cbv zeta. unfold Indexer.build_chunks.
  assert (H0 : scanning doc max_pages 1 Indexer.init).
  { unfold scanning. cbn. split; [constructor|]. split; [constructor|].
    split; [auto|]. intros K. now elim K. }
  pose proof (run_scanning pages 1 Indexer.init ltac:(lia) H0) as Hsc.
  replace (1 + Z.of_nat (List.length pages))
    with (Z.of_nat (List.length pages) + 1) in Hsc by lia.
  destruct (flush_scanned _ _ Hsc) as (Hs & Hg & _). split; assumption.
Qed.

End ChunkerAnyPages.

(** ** Normalized text *)

Section Words.

Local Abbreviation solid := (List.forallb (fun c => negb (isspace c))).

Lemma rev_word w : word w -> word (List.rev w).
Proof.
  intros (Hne & Hs). split.
  - intros E. apply (f_equal (@List.rev N)) in E.
    rewrite List.rev_involutive in E. now apply Hne.
  - now rewrite forallb_rev.
Qed.

Lemma split_from_words s : forall cur,
  solid cur = true -> Forall word (split_from cur s).
Proof.
  induction s as [|c s IH]; intros cur Hc; cbn [split_from].
  - destruct cur as [|x cur]; [constructor|].
    repeat constructor; [|now rewrite forallb_rev].
    intros E. apply (f_equal (@List.length N)) in E.
    rewrite length_rev in E. discriminate.
  - destruct (isspace c) eqn:E.
    + destruct cur as [|x cur]; [now apply IH|].
      constructor; [|now apply IH].
      apply rev_word. split; [discriminate | exact Hc].
    + apply IH. cbn [List.forallb]. now rewrite E.
Qed.

Lemma split_from_solid w : forall cur rest,
  solid w = true ->
  split_from cur (w ++ rest) = split_from (List.rev w ++ cur) rest.
Proof.
  induction w as [|c w IH]; intros cur rest Hw; [reflexivity|].
  cbn [List.forallb] in Hw. apply andb_prop in Hw. destruct Hw as (Hc & Hw).
  apply negb_true_iff in Hc.
  cbn [app split_from List.rev]. rewrite Hc, IH by exact Hw.
  now rewrite <- app_assoc.
Qed.

(** Splitting what was joined with single spaces gives the words back. *)
Lemma split_join ws : Forall word ws -> split (join [space] ws) = ws.
Proof.
  unfold split. induction 1 as [|w ws (Hne & Hw) Hws IH]; [reflexivity|].
  destruct ws as [|w2 ws].
  - cbn [join]. rewrite <- (app_nil_r w) at 1.
    rewrite split_from_solid by exact Hw. rewrite app_nil_r. cbn [split_from].
    destruct (List.rev w) eqn:E.
    + apply (f_equal (@List.rev N)) in E. rewrite List.rev_involutive in E.
      now elim Hne.
    + rewrite <- E. now rewrite List.rev_involutive.
  - cbn [join] in *. rewrite split_from_solid by exact Hw.
    rewrite app_nil_r. cbn [app split_from].
    change (isspace space) with true. cbv iota.
    destruct (List.rev w) eqn:E.
    + apply (f_equal (@List.rev N)) in E. rewrite List.rev_involutive in E.
      now elim Hne.
    + rewrite <- E, List.rev_involutive. f_equal. exact IH.
Qed.

Lemma join_chars sep ws c :
  In c (join sep ws) -> In c sep \/ exists w, In w ws /\ In c w.
Proof.
  induction ws as [|w ws IH]; [intros []|].
  destruct ws as [|w2 ws].
  - cbn [join]. intros H. right. exists w. split; [now left | exact H].
  - cbn [join] in *. intros H. apply in_app_or in H. destruct H as [H|H].
    + right. exists w. split; [now left | exact H].
    + apply in_app_or in H. destruct H as [H|H]; [now left|].
      destruct (IH H) as [K|(w' & K1 & K2)]; [now left|].
      right. exists w'. split; [now right | exact K2].
Qed.

Lemma join_snoc sep l w :
  l <> [] -> join sep (l ++ [w]) = join sep l ++ sep ++ w.
Proof.
  induction l as [|x l IH]; intros Hne; [now elim Hne|].
  destruct l as [|y l]; [reflexivity|].
  change ((x :: y :: l) ++ [w]) with (x :: ((y :: l) ++ [w])).
  change (join sep (x :: (y :: l) ++ [w]))
    with (x ++ sep ++ join sep ((y :: l) ++ [w])).
  rewrite IH by discriminate.
  change (join sep (x :: y :: l)) with (x ++ sep ++ join sep (y :: l)).
  now rewrite <- !app_assoc.
Qed.

Lemma rev_join sep ws :
  List.rev (join sep ws)
  = join (List.rev sep) (List.map (@List.rev N) (List.rev ws)).
Proof.
  induction ws as [|w ws IH]; [reflexivity|].
  destruct ws as [|w2 ws]; [reflexivity|].
  change (join sep (w :: w2 :: ws)) with (w ++ sep ++ join sep (w2 :: ws)).
  rewrite !List.rev_app_distr, IH, <- app_assoc.
  change (List.rev (w :: w2 :: ws)) with (List.rev (w2 :: ws) ++ [w]).
  rewrite List.map_app. cbn [List.map].
  rewrite join_snoc; [reflexivity|].
  intros E. apply List.map_eq_nil in E.
  apply (f_equal (@List.rev (list N))) in E.
  rewrite List.rev_involutive in E. discriminate.
Qed.

Lemma lstrip_join_words ws :
  Forall word ws -> lstrip (join [space] ws) = join [space] ws.
Proof.
  intros H. destruct H as [|w ws (Hne & Hw) Hws]; [reflexivity|].
  destruct w as [|c w]; [now elim Hne|].
  cbn [List.forallb] in Hw. apply andb_prop in Hw. destruct Hw as (Hc & _).
  apply negb_true_iff in Hc.
  destruct ws; cbn [join app lstrip]; now rewrite Hc.
Qed.

Lemma strip_join_words ws :
  Forall word ws -> strip (join [space] ws) = join [space] ws.
Proof.
  intros H. unfold strip. rewrite (lstrip_join_words ws H).
  assert (E : List.rev (join [space] ws)
              = join [space] (List.map (@List.rev N) (List.rev ws)))
    by apply (rev_join [space] ws).
  rewrite E, lstrip_join_words.
  - rewrite <- E. apply List.rev_involutive.
  - apply Forall_forall. intros w Hw. apply List.in_map_iff in Hw.
    destruct Hw as (w' & <- & Hw'). apply rev_word.
    rewrite Forall_forall in H. apply H. now apply List.in_rev.
Qed.

Lemma replace_join_words ws :
  Forall word ws ->
  replace nbsp space (join [space] ws) = join [space] ws.
Proof.
  intros H. unfold replace.
  rewrite <- (List.map_id (join [space] ws)) at 2.
  apply List.map_ext_in. intros c Hc.
  destruct (N.eqb_spec c nbsp) as [->|_]; [|reflexivity].
  exfalso. destruct (join_chars _ _ _ Hc) as [[K|[]]|(w & Hw & K)].
  - discriminate.
  - rewrite Forall_forall in H. destruct (H w Hw) as (_ & Hs).
    rewrite List.forallb_forall in Hs. specialize (Hs _ K). discriminate.
Qed.

(** The replacement of non-breaking spaces does not change the split:
    they are separators already. *)
Lemma split_from_replace s : forall cur,
  split_from cur (replace nbsp space s) = split_from cur s.
Proof.
  unfold replace.
  induction s as [|c s IH]; intros cur; cbn [List.map split_from];
    [reflexivity|].
  destruct (N.eqb_spec c nbsp) as [->|_].
  - change (isspace space) with true. change (isspace nbsp) with true.
    cbv iota. destruct cur; now rewrite IH.
  - destruct (isspace c); [destruct cur|]; now rewrite IH.
Qed.

Lemma split_words s : Forall word (split s).
Proof. apply split_from_words. reflexivity. Qed.

End Words.

Lemma normalize_as_join s :
  Utils.normalize_text s = join [space] (split s).
Proof.
  unfold Utils.normalize_text, split.
  rewrite split_from_replace. apply strip_join_words, split_words.
Qed.

Lemma normalize_fixed s :
  Utils.normalize_text (Utils.normalize_text s) = Utils.normalize_text s.
Proof.
  rewrite (normalize_as_join s), (normalize_as_join (join [space] (split s))).
  now rewrite (split_join _ (split_words s)).
Qed.

(** X3: normalization is Python's " ".join(s.split()): on top of it the
    replacement of U+00A0 and the final strip change nothing.  The result
    is thus a sequence of words, none empty and none holding whitespace,
    with one plain space between neighbours. *)
Theorem normalize_text_is_join_split s :
  Utils.normalize_text s = join [space] (split s)
  /\ Forall word (split s).
Proof. split; [apply normalize_as_join | apply split_words]. Qed.

(** X2: normalizing twice is normalizing once. *)
Theorem normalize_text_idempotent s :
  Utils.normalize_text (Utils.normalize_text s) = Utils.normalize_text s.
Proof.
  pose proof (split_words s) as W.
  rewrite (normalize_as_join s).
  rewrite (normalize_as_join (join [space] (split s))).
  rewrite (split_join (split s) W). reflexivity.
Qed.

(** X4: normalization never makes a text longer, and the texts it
    empties are exactly those made of whitespace only. *)
Theorem normalize_text_shrinks s :
  len (Utils.normalize_text s) <= len s
  /\ (Utils.normalize_text s = [] <-> List.forallb isspace s = true).
Proof. split; [apply normalize_text_len | apply normalize_text_nil_iff]. Qed.

(** ** The chunks of any document *)

(** X5: whatever the pages and the limits, every chunk has a range
    within the document, 1 <= page_start <= page_end <= N, a text that
    is not empty and is in normal form, and the document's id. *)
Theorem build_chunks_well_formed ids doc max_chars min_chars max_pages pages :
  Forall
    (fun c => 1 <= Indexer.page_start c <= Indexer.page_end c
              /\ Indexer.page_end c <= Z.of_nat (List.length pages)
              /\ Indexer.text c <> []
              /\ Utils.normalize_text (Indexer.text c) = Indexer.text c
              /\ Indexer.chunk_doc_id c = doc)
    (Indexer.build_chunks ids doc max_chars min_chars max_pages pages).
Proof.
  destruct (build_chunks_scanned ids doc max_chars min_chars max_pages pages)
    as (_ & H).
  eapply Forall_impl; [|exact H]. cbv beta.
  intros c (H1 & H2 & _ & H4 & (raw & H5) & H6).
  repeat split; auto; try lia.
  rewrite H5. apply normalize_fixed.
Qed.

(** X6: no chunk spans more pages than max_pages_per_chunk allows, one
    page being always allowed. *)
Theorem build_chunks_span_bounded ids doc max_chars min_chars max_pages pages :
  Forall
    (fun c => Indexer.page_end c - Indexer.page_start c + 1
              <= Z.max 1 max_pages)
    (Indexer.build_chunks ids doc max_chars min_chars max_pages pages).
Proof.
  destruct (build_chunks_scanned ids doc max_chars min_chars max_pages pages)
    as (_ & H).
  eapply Forall_impl; [|exact H]. cbv beta.
  intros c (_ & _ & H3 & _). exact H3.
Qed.

(** X7: the chunks come in page order: a chunk starts on a later page
    than every chunk before it, and not before the page on which that
    chunk ends; two chunks share at most that one page. *)
Theorem build_chunks_in_page_order ids doc max_chars min_chars max_pages pages :
  StronglySorted
    (fun a b => Indexer.page_start a < Indexer.page_start b
                /\ Indexer.page_end a <= Indexer.page_start b)
    (Indexer.build_chunks ids doc max_chars min_chars max_pages pages).
Proof.
  exact (proj1 (build_chunks_scanned ids doc max_chars min_chars max_pages
                  pages)).
Qed.

Section ChunkerModes.

Variable ids : nat -> string.
Variable doc : string.
Variables max_chars min_chars max_pages : Z.

Local Abbreviation flush := (Indexer.flush ids doc).
Local Abbreviation step := (Indexer.step ids doc max_chars min_chars max_pages).
Local Abbreviation run := (List.fold_left step).

(** The k-th chunk emitted carries the k-th uuid drawn. *)
Local Abbreviation numbered st :=
  (List.map Indexer.id (Indexer.out st)
   = List.map ids (List.seq 0 (List.length (Indexer.out st)))).

Lemma flush_numbered st : numbered st -> numbered (flush st).
Proof.
  intros H. destruct (flush_chunk ids doc st) as (e & Eo & Hlen & Fe & _).
  rewrite Eo. destruct e as [|c [|c' e]]; [| |cbn in Hlen; lia].
  - now rewrite app_nil_r.
  - inversion Fe as [|? ? (_ & _ & _ & _ & _ & _ & Hid) _]; subst.
    rewrite List.map_app, length_app, List.seq_app, List.map_app, H.
    cbn. now rewrite Hid.
Qed.

Lemma run_numbered l : forall s st,
  numbered st -> numbered (run (Indexer.enumerate s l) st).
Proof.
  induction l as [|t l IH]; intros s st H;
    cbn [Indexer.enumerate List.fold_left]; [exact H|].
  apply IH.
  destruct (step_branches ids doc max_chars min_chars max_pages st s t)
    as [(_ & ->)|[(_ & _ & ->)|[(_ & _ & _ & _ & ->)
       |[(_ & _ & _ & _ & ->)|(_ & _ & _ & ->)]]]];
    try exact H.
  - exact (flush_numbered (Indexer.append_page s t st) H).
  - exact (flush_numbered st H).
Qed.

(** Blank pages only: nothing is ever emitted. *)
Lemma join_all_blank parts :
  Forall (fun p => List.forallb isspace p = true) parts ->
  List.forallb isspace (join [newline] parts) = true.
Proof.
  induction 1 as [|p parts Hp Hps IH]; [reflexivity|].
  destruct parts as [|q parts]; [exact Hp|].
  cbn [join] in *. rewrite !List.forallb_app, Hp, IH. reflexivity.
Qed.

Lemma flush_blank st :
  Forall (fun p => List.forallb isspace p = true) (Indexer.buf st) ->
  Indexer.out (flush st) = Indexer.out st.
Proof.
  intros H. unfold Indexer.flush.
  destruct (Indexer.buf st) as [|b bs] eqn:Eb; [reflexivity|].
  rewrite (proj2 (normalize_text_nil_iff _) (join_all_blank _ H)).
  reflexivity.
Qed.

Lemma run_blank l : forall s st,
  Forall (fun p => List.forallb isspace p = true) l ->
  Forall (fun p => List.forallb isspace p = true) (Indexer.buf st) ->
  Indexer.out (flush (run (Indexer.enumerate s l) st)) = Indexer.out st.
Proof.
  induction l as [|t l IH]; intros s st Hl Hb;
    cbn [Indexer.enumerate List.fold_left]; [now apply flush_blank|].
  inversion Hl as [|? ? Ht Hl']; subst.
  destruct (step_branches ids doc max_chars min_chars max_pages st s t)
    as [(_ & ->)|[(_ & _ & ->)|[(_ & _ & _ & _ & ->)
       |[(_ & _ & _ & _ & ->)|(_ & _ & _ & ->)]]]].
  - now apply IH.
  - rewrite IH; [reflexivity | exact Hl' | now repeat constructor].
  - rewrite IH; [reflexivity | exact Hl' |].
    cbn. apply Forall_app. split; [exact Hb | now repeat constructor].
  - rewrite IH; [| exact Hl' | now repeat constructor].
    cbn [Indexer.start_at Indexer.out]. rewrite flush_blank; [reflexivity|].
    cbn. apply Forall_app. split; [exact Hb | now repeat constructor].
  - rewrite IH; [| exact Hl' | now repeat constructor].
    cbn. now apply flush_blank.
Qed.

End ChunkerModes.

(** The ids of the chunks are the successive draws of uuid4, the k-th
    chunk taking the k-th draw. *)
Lemma build_chunks_ids_are_draws ids doc max_chars min_chars max_pages pages :
  let cs := Indexer.build_chunks ids doc max_chars min_chars max_pages pages in
  List.map Indexer.id cs = List.map ids (List.seq 0 (List.length cs)).
Proof.
  cbv zeta. unfold Indexer.build_chunks.
  apply flush_numbered, run_numbered. reflexivity.
Qed.

(** X8: a document whose pages are all blank (empty, or whitespace
    only) gives no chunk at all. *)
Theorem build_chunks_blank_document ids doc max_chars min_chars max_pages pages :
  List.forallb blank pages = true ->
  Indexer.build_chunks ids doc max_chars min_chars max_pages pages = [].
Proof.
  intros H. unfold Indexer.build_chunks.
  rewrite run_blank; [reflexivity | | constructor].
  apply Forall_forall. intros p Hp.
  rewrite List.forallb_forall in H. specialize (H p Hp).
  unfold blank in H. apply normalize_text_nil_iff.
  destruct (Utils.normalize_text p); [reflexivity | discriminate].
Qed.

Lemma build_chunks_blank_document_witness :
  Indexer.build_chunks (fun _ => ""%string) "doc"%string 8000 1200 3
    [lit ""; [32; 10; 160; 9]%N; lit "   "] = [].
Proof.
  apply (build_chunks_blank_document (fun _ => ""%string) "doc"%string
           8000 1200 3 [lit ""; [32; 10; 160; 9]%N; lit "   "]).
  reflexivity.
Defined.

(** ** The chunker on pages that are not blank *)

(** X9: when no page is blank, the ranges of the chunks go through the
    pages 1..N in order and leave no page out: the first starts on page
    1, each next one starts on the page after the previous end or on that
    end itself, and the last ends on page N. *)
Theorem build_chunks_covers_all_pages ids doc max_chars min_chars max_pages pages :
  List.forallb (fun p => negb (blank p)) pages = true ->
  let rs := List.map page_range
              (Indexer.build_chunks ids doc max_chars min_chars max_pages
                 pages) in
  linked 0 (Z.of_nat (List.length pages)) rs = true
  /\ Forall (fun r => 1 <= fst r) rs.
Proof.
  intros H. apply build_chunks_linked.
  apply Forall_forall. intros p Hp E.
  rewrite List.forallb_forall in H. specialize (H p Hp).
  unfold blank in H. rewrite E in H. discriminate.
Qed.

Lemma build_chunks_covers_all_pages_witness :
  let rs := List.map page_range
              (Indexer.build_chunks (fun _ => ""%string) "doc"%string 8 4 3
                 [lit "abc"; lit "defghijk"; lit "lmnop"; lit "q"]) in
  linked 0 4 rs = true /\ Forall (fun r => 1 <= fst r) rs.
Proof.
  apply (build_chunks_covers_all_pages (fun _ => ""%string) "doc"%string
           8 4 3 [lit "abc"; lit "defghijk"; lit "lmnop"; lit "q"]).
  reflexivity.
Defined.

Section RelaxationOff.

Variable ids : nat -> string.
Variable doc : string.
Variables max_chars min_chars max_pages : Z.

(** No buffer is shorter than a [min_chars] that is not positive, so the
    forced append never happens. *)
Hypothesis relaxation_off : min_chars <= 0.

Local Abbreviation flush := (Indexer.flush ids doc).
Local Abbreviation step := (Indexer.step ids doc max_chars min_chars max_pages).
Local Abbreviation run := (List.fold_left step).

Lemma step_branches_off st idx t :
  (t = [] /\ step st (idx, t) = st)
  \/ (t <> [] /\ Indexer.buf st = []
      /\ step st (idx, t) = Indexer.start_at idx t st)
  \/ (t <> [] /\ Indexer.buf st <> []
      /\ len (join [newline] (Indexer.buf st ++ [t])) <= max_chars
      /\ step st (idx, t) = Indexer.append_page idx t st)
  \/ (t <> [] /\ Indexer.buf st <> []
      /\ step st (idx, t) = Indexer.start_at idx t (flush st)).
Proof.
  destruct (step_branches ids doc max_chars min_chars max_pages st idx t)
    as [H|[H|[(H1 & H2 & H3 & _ & H5)|[(_ & _ & H3 & _)|(H1 & H2 & _ & H4)]]]];
    auto.
  - right. right. left. auto.
  - pose proof (len_nonneg (join [newline] (Indexer.buf st))). lia.
  - right. right. right. auto.
Qed.

Lemma tiles_snoc rs : forall lo m a b,
  tiles lo m rs = true -> a = m + 1 -> a <= b ->
  tiles lo b (rs ++ [(a, b)]) = true.
Proof.
  induction rs as [|[x y] rs IH]; intros lo m a b; cbn [tiles app].
  - intros Hm -> Hab. apply Z.eqb_eq in Hm. subst lo.
    rewrite !Z.eqb_refl, andb_true_r. now apply Z.leb_le.
  - intros H Ha Hab. apply andb_prop in H. destruct H as (-> & H).
    cbn [andb]. eapply IH; eassumption.
Qed.

(** The invariant of the loop when no page is blank. *)
Local Abbreviation tight i st :=
  (exists m,
     tiles 1 m (List.map page_range (Indexer.out st)) = true
     /\ (Indexer.buf st = [] -> m = 0 /\ (i = 1)%Z)
     /\ (Indexer.buf st <> [] ->
         Indexer.current_end st = i - 1
         /\ Indexer.current_start st <= Indexer.current_end st
         /\ Indexer.current_start st = m + 1
         /\ Forall (fun p => Utils.normalize_text p <> [])
              (Indexer.buf st))).

Lemma flush_tiles st i m :
  tiles 1 m (List.map page_range (Indexer.out st)) = true ->
  Indexer.buf st <> [] ->
  Indexer.current_start st <= Indexer.current_end st ->
  Indexer.current_start st = m + 1 ->
  Forall (fun p => Utils.normalize_text p <> []) (Indexer.buf st) ->
  Indexer.current_end st = i ->
  tiles 1 i (List.map page_range (Indexer.out (flush st))) = true.
Proof.
  intros Hl Hb Hse Hs Hf He.
  destruct (flush_chunk ids doc st) as (e & Eo & Hlen & Fe & Hnone).
  destruct e as [|c [|c' e]]; [| |cbn in Hlen; lia].
  - destruct (Hnone eq_refl) as [K|K]; [contradiction|].
    now elim (join_not_blank _ Hb Hf).
  - inversion Fe as [|? ? (_ & C1 & C2 & _) _]; subst.
    rewrite Eo, List.map_app. cbn [List.map]. unfold page_range at 2.
    rewrite C1, C2. eapply tiles_snoc; eauto.
Qed.

Lemma step_tight st i t :
  Utils.normalize_text t <> [] -> tight i st -> tight (i + 1) (step st (i, t)).
Proof.
  intros Ht (m & Hl & Hnil & Hbuf).
  destruct (step_branches_off st i t)
    as [(-> & _)|[(_ & Hb & ->)|[(_ & Hb & _ & ->)|(_ & Hb & ->)]]].
  - now elim Ht.
  - destruct (Hnil Hb) as (-> & ->). exists 0. cbn.
    split; [exact Hl|]. split; [discriminate|].
    intros _. repeat split; try lia. now repeat constructor.
  - destruct (Hbuf Hb) as (He & Hse & Hs & Hf). exists m. cbn.
    split; [exact Hl|]. split.
    + intros K. destruct (Indexer.buf st); discriminate.
    + intros _. repeat split; try lia.
      apply Forall_app. split; [exact Hf | now repeat constructor].
  - destruct (Hbuf Hb) as (He & Hse & Hs & Hf). exists (i - 1).
    unfold Indexer.start_at.
    cbn [Indexer.out Indexer.buf Indexer.current_start Indexer.current_end].
    split; [now apply flush_tiles with (m := m)|].
    split; [discriminate|]. intros _. repeat split; try lia.
    now repeat constructor.
Qed.

Lemma run_tight l : forall s st,
  Forall (fun p => Utils.normalize_text p <> []) l ->
  tight s st ->
  tight (s + Z.of_nat (List.length l)) (run (Indexer.enumerate s l) st).
Proof.
  induction l as [|t l IH]; intros s st Hl Hr;
    cbn [Indexer.enumerate List.fold_left List.length].
  - now rewrite Z.add_0_r.
  - inversion Hl as [|? ? Ht Hl']; subst.
    replace (s + Z.of_nat (Datatypes.S (List.length l)))
      with ((s + 1) + Z.of_nat (List.length l)) by lia.
    apply IH; [exact Hl'|]. now apply step_tight.
Qed.

Lemma build_chunks_tiles pages :
  Forall (fun p => Utils.normalize_text p <> []) pages ->
  tiles 1 (Z.of_nat (List.length pages))
    (List.map page_range
       (Indexer.build_chunks ids doc max_chars min_chars max_pages pages))
  = true.
Proof.
  intros Hp. unfold Indexer.build_chunks.
  assert (Hr : tight 1 Indexer.init).
  { exists 0. cbn. split; [reflexivity|]. split; [auto|].
    intros K. now elim K. }
  pose proof (run_tight pages 1 Indexer.init Hp Hr) as (m & Hl & Hnil & Hbuf).
  destruct (Indexer.buf (run (Indexer.enumerate 1 pages) Indexer.init))
    as [|b bs] eqn:Eb.
  - destruct (Hnil eq_refl) as (-> & HN).
    unfold Indexer.flush. rewrite Eb.
    replace (Z.of_nat (List.length pages)) with 0 by lia. exact Hl.
  - destruct (Hbuf ltac:(discriminate)) as (He & Hse & Hs & Hf).
    apply flush_tiles with (m := m); auto; try lia; rewrite Eb;
      [discriminate | exact Hf].
Qed.

(** Without the forced append a chunk of several pages was accepted by
    the size test. *)
Local Abbreviation sized st :=
  (Forall (fun c => Indexer.page_start c = Indexer.page_end c
                    \/ len (Indexer.text c) <= max_chars)
     (Indexer.out st)
   /\ (Indexer.buf st <> [] ->
       Indexer.current_start st = Indexer.current_end st
       \/ len (join [newline] (Indexer.buf st)) <= max_chars)).

Lemma flush_sized st :
  sized st ->
  Forall (fun c => Indexer.page_start c = Indexer.page_end c
                   \/ len (Indexer.text c) <= max_chars)
    (Indexer.out (flush st)).
Proof.
  intros (Ho & Hb).
  destruct (flush_chunk ids doc st) as (e & Eo & _ & Fe & _). rewrite Eo.
  apply Forall_app. split; [exact Ho|].
  eapply Forall_impl; [|exact Fe]. cbv beta.
  intros c (Hne & C1 & C2 & C3 & _).
  destruct (Hb Hne) as [K|K]; [left; congruence|].
  right. rewrite C3.
  pose proof (normalize_text_len (join [newline] (Indexer.buf st))). lia.
Qed.

Lemma run_sized l : forall s st,
  sized st -> sized (run (Indexer.enumerate s l) st).
Proof.
  induction l as [|t l IH]; intros s st H;
    cbn [Indexer.enumerate List.fold_left]; [exact H|].
  apply IH.
  destruct (step_branches_off st s t)
    as [(_ & ->)|[(_ & Hb & ->)|[(_ & Hb & Hlen & ->)|(_ & Hb & ->)]]].
  - exact H.
  - destruct H as (Ho & _). cbn. split; [exact Ho | now left].
  - destruct H as (Ho & _). cbn. split; [exact Ho | now right].
  - split; [exact (flush_sized st H) | now left].
Qed.

Lemma build_chunks_sized pages :
  Forall (fun c => Indexer.page_start c = Indexer.page_end c
                   \/ len (Indexer.text c) <= max_chars)
    (Indexer.build_chunks ids doc max_chars min_chars max_pages pages).
Proof.
  unfold Indexer.build_chunks. apply flush_sized, run_sized.
  cbn. split; [constructor|]. intros K. now elim K.
Qed.

End RelaxationOff.

(** X10: with the min-size relaxation switched off (min_chunk_chars not
    positive) and no blank page, the ranges of the chunks do partition
    the pages 1..N: in order, no gap, no page twice. *)
Theorem build_chunks_partition_without_relaxation
    ids doc max_chars min_chars max_pages pages :
  min_chars <= 0 ->
  List.forallb (fun p => negb (blank p)) pages = true ->
  tiles 1 (Z.of_nat (List.length pages))
    (List.map page_range
       (Indexer.build_chunks ids doc max_chars min_chars max_pages pages))
  = true.
Proof.
  intros Hmin H. apply build_chunks_tiles; [exact Hmin|].
  apply Forall_forall. intros p Hp E.
  rewrite List.forallb_forall in H. specialize (H p Hp).
  unfold blank in H. rewrite E in H. discriminate.
Qed.

Lemma build_chunks_partition_without_relaxation_witness :
  tiles 1 4
    (List.map page_range
       (Indexer.build_chunks (fun _ => ""%string) "doc"%string 8 0 3
          [lit "abc"; lit "defghijk"; lit "lmnop"; lit "q"]))
  = true.
Proof.
  apply (build_chunks_partition_without_relaxation (fun _ => ""%string)
           "doc"%string 8 0 3
           [lit "abc"; lit "defghijk"; lit "lmnop"; lit "q"]).
  - lia.
  - reflexivity.
Defined.

(** X11: with the relaxation switched off, the size limit is only ever
    exceeded by a page on its own: every chunk that covers more than one
    page has a text of at most max_chunk_chars characters. *)
Theorem build_chunks_size_without_relaxation
    ids doc max_chars min_chars max_pages pages :
  min_chars <= 0 ->
  Forall
    (fun c => Indexer.page_start c < Indexer.page_end c ->
              len (Indexer.text c) <= max_chars)
    (Indexer.build_chunks ids doc max_chars min_chars max_pages pages).
Proof.
  intros Hmin.
  pose proof (build_chunks_sized ids doc max_chars min_chars max_pages Hmin
                pages) as H.
  eapply Forall_impl; [|exact H]. cbv beta. intros c [K|K] Hlt; [lia|exact K].
Qed.

Lemma build_chunks_size_without_relaxation_witness :
  Forall
    (fun c => Indexer.page_start c < Indexer.page_end c ->
              len (Indexer.text c) <= 12)
    (Indexer.build_chunks (fun _ => ""%string) "doc"%string 12 0 3
       [lit "abc"; lit "defgh"; lit "a page that is too long"; lit "q"]).
Proof.
  apply (build_chunks_size_without_relaxation (fun _ => ""%string)
           "doc"%string 12 0 3
           [lit "abc"; lit "defgh"; lit "a page that is too long"; lit "q"]).
  lia.
Defined.

(** ** Hashing and extraction *)

Lemma sha256_loop_zero fed rest : Utils.sha256_loop 0 fed rest = fed.
Proof.
  funelim (Utils.sha256_loop 0 fed rest); [reflexivity|].
  destruct rest; cbn in e; discriminate.
Qed.

(** X1: the digest of a readable file does not depend on the block size
    it is read with: for every positive block size it is the digest of
    all the bytes, in order; with block size 0 the first read is empty
    and the digest is that of no bytes. *)
Theorem sha256_file_any_block_size E path data n :
  read_bytes E path = Ok data ->
  Utils.sha256_file E path n
  = Ok (sha256_hexdigest E (if (n =? 0)%N then [] else data)).
Proof.
  intros H. unfold Utils.sha256_file. rewrite H. f_equal. f_equal.
  destruct (N.eqb_spec n 0) as [->|Hn].
  - apply sha256_loop_zero.
  - apply (sha256_loop_feeds_all n [] data). lia.
Qed.

Lemma sha256_file_any_block_size_witness :
  let E := Sample.env [(Sample.report, Sample.report_v1)] in
  Utils.sha256_file E Sample.report 3
  = Ok (sha256_hexdigest E (lit "%PDF v1"))
  /\ Utils.sha256_file E Sample.report 0 = Ok (sha256_hexdigest E []).
Proof.
  cbv zeta. split.
  - exact (sha256_file_any_block_size
             (Sample.env [(Sample.report, Sample.report_v1)]) Sample.report
             (lit "%PDF v1") 3 eq_refl).
  - exact (sha256_file_any_block_size
             (Sample.env [(Sample.report, Sample.report_v1)]) Sample.report
             (lit "%PDF v1") 0 eq_refl).
Defined.

(** X12: the pages extraction returns are as many as the PDF has, each
    one in normal form (normalizing it again changes nothing); when the
    PDF cannot be opened or read the call raises that error.  Either way
    the call shows in the trace and draws no uuid and no clock value. *)
Theorem extract_pages_text_normal E pdf_path s :
  let s' := emit (EvFitzOpen pdf_path) s in
  match fitz_pages E pdf_path with
  | Ok raw =>
      exists pages,
        Indexer.extract_pages_text E pdf_path s = (Ok pages, s')
        /\ List.length pages = List.length raw
        /\ Forall (fun p => Utils.normalize_text p = p) pages
  | Raise m => Indexer.extract_pages_text E pdf_path s = (Raise m, s')
  end.
Proof.
  cbv zeta. unfold Indexer.extract_pages_text. unfold_monad.
  destruct (fitz_pages E pdf_path) as [raw|m]; [|reflexivity].
  exists (List.map Utils.normalize_text raw).
  split; [reflexivity|]. split; [apply length_map|].
  apply Forall_forall. intros p Hp. apply List.in_map_iff in Hp.
  destruct Hp as (r & <- & _). apply normalize_fixed.
Qed.

(** X13: index_pdf succeeds exactly when the stat, the read of the
    bytes, the extraction and the resolution of the path all succeed. *)
Theorem index_pdf_succeeds_iff E pdf_path a b c s :
  (exists doc s', Indexer.index_pdf E pdf_path a b c s = (Ok doc, s'))
  <-> (exists st data pages rp,
         path_stat E pdf_path = Ok st
         /\ read_bytes E pdf_path = Ok data
         /\ fitz_pages E pdf_path = Ok pages
         /\ path_resolve E pdf_path = Ok rp).
Proof.
  unfold Indexer.index_pdf, Indexer.extract_pages_text,
    Indexer.build_chunks_io, Indexer.now, Utils.sha256_file.
  unfold_monad. cbn -[Utils.sha256_loop Utils.default_chunk_size].
  split.
  - intros (doc & s' & H).
    destruct (path_stat E pdf_path) as [st|]; [|discriminate].
    destruct (read_bytes E pdf_path) as [data|]; [|discriminate].
    destruct (fitz_pages E pdf_path) as [pages|]; [|discriminate].
    destruct (path_resolve E pdf_path) as [rp|]; [|discriminate].
    exists st, data, pages, rp. auto.
  - intros (st & data & pages & rp & -> & -> & -> & ->).
    do 2 eexists. reflexivity.
Qed.

Lemma index_pdf_chunks_owned E pdf_path a b c s doc s' :
  Indexer.index_pdf E pdf_path a b c s = (Ok doc, s') ->
  Forall (fun ch => Indexer.chunk_doc_id ch = Indexer.doc_id doc)
    (Indexer.chunks doc).
Proof.
  unfold Indexer.index_pdf, Indexer.extract_pages_text,
    Indexer.build_chunks_io, Indexer.now.
  unfold_monad. cbn -[Utils.sha256_file Utils.default_chunk_size].
  destruct (path_stat E pdf_path) as [st|]; [|discriminate].
  destruct (Utils.sha256_file E pdf_path _) as [sha|]; [|discriminate].
  destruct (fitz_pages E pdf_path) as [pages|]; [|discriminate].
  destruct (path_resolve E pdf_path); [|discriminate].
  intros [= <- <-]. cbn.
  match goal with
  | |- Forall _ (Indexer.build_chunks ?i ?d ?x ?y ?z ?p) =>
      pose proof (build_chunks_scanned i d x y z p) as (_ & H)
  end.
  eapply Forall_impl; [|exact H]. cbv beta.
  intros ch (_ & _ & _ & _ & _ & H6). exact H6.
Qed.

(** X14: the document index_pdf returns is identified by its content:
    doc_id and sha256 are both the digest of the file's bytes, mtime and
    size are those of the stat, and every chunk carries that doc_id. *)
Theorem index_pdf_document E pdf_path a b c s doc s' :
  Indexer.index_pdf E pdf_path a b c s = (Ok doc, s') ->
  exists st data,
    path_stat E pdf_path = Ok st /\ read_bytes E pdf_path = Ok data
    /\ Indexer.doc_id doc = sha256_hexdigest E data
    /\ Indexer.sha256 doc = sha256_hexdigest E data
    /\ Indexer.mtime doc = st_mtime st
    /\ Indexer.size_bytes doc = st_size st
    /\ Forall (fun ch => Indexer.chunk_doc_id ch = Indexer.doc_id doc)
         (Indexer.chunks doc).
Proof.
  intros H.
  destruct (index_pdf_ok E _ _ _ _ _ _ _ H)
    as (st & data & Hst & Hb & _ & Hid & Hsha & Hm & Hs).
  exists st, data. repeat split; auto.
  exact (index_pdf_chunks_owned E _ _ _ _ _ _ _ H).
Qed.

Lemma index_pdf_document_witness :
  let E := Sample.env [(Sample.report, Sample.report_v2)] in
  let s := App.sys Sample.world0 in
  exists doc s',
    Indexer.index_pdf E Sample.report 8000 1200 3 s = (Ok doc, s')
    /\ exists st data,
         path_stat E Sample.report = Ok st
         /\ read_bytes E Sample.report = Ok data
         /\ Indexer.doc_id doc = sha256_hexdigest E data
         /\ Indexer.sha256 doc = sha256_hexdigest E data
         /\ Indexer.mtime doc = st_mtime st
         /\ Indexer.size_bytes doc = st_size st
         /\ Forall (fun ch => Indexer.chunk_doc_id ch = Indexer.doc_id doc)
              (Indexer.chunks doc).
Proof.
  cbv zeta. do 2 eexists. split.
  - vm_compute. reflexivity.
  - eapply (index_pdf_document
              (Sample.env [(Sample.report, Sample.report_v2)]) Sample.report
              8000 1200 3 (App.sys Sample.world0)).
    vm_compute. reflexivity.
Defined.

(** ** The documents table *)

Lemma replace_keeps_others row docs :
  List.filter (fun r => negb (String.eqb (Db.d_id r) (Db.d_id row)))
    (List.map (fun r => if String.eqb (Db.d_id r) (Db.d_id row)
                        then row else r) docs)
  = List.filter (fun r => negb (String.eqb (Db.d_id r) (Db.d_id row))) docs.
Proof.
  induction docs as [|x docs IH]; [reflexivity|]. cbn [List.map List.filter].
  destruct (String.eqb (Db.d_id x) (Db.d_id row)) eqn:Ex.
  - rewrite String.eqb_refl. cbn [negb]. exact IH.
  - rewrite Ex. cbn [negb]. now rewrite IH.
Qed.

(** X15: an upsert keeps documents.id unique; afterwards exactly one
    row has the id of the row written, and it is that row; the rows
    with another id are what they were, in the same order; nothing is
    committed by the upsert itself. *)
Theorem upsert_document_by_id row conn :
  NoDup (List.map Db.d_id (Db.documents (Db.current conn))) ->
  let conn' := Db.upsert_document row conn in
  let other := fun r => negb (String.eqb (Db.d_id r) (Db.d_id row)) in
  NoDup (List.map Db.d_id (Db.documents (Db.current conn')))
  /\ rows_with_id (Db.d_id row) (Db.documents (Db.current conn')) = [row]
  /\ List.filter other (Db.documents (Db.current conn'))
     = List.filter other (Db.documents (Db.current conn))
  /\ Db.committed conn' = Db.committed conn.
Proof.
  intros H. cbv zeta.
  split; [now apply upsert_keeps_ids_unique|].
  split; [now apply upsert_single_row|].
  split; [|reflexivity].
  rewrite upsert_documents. destruct (List.existsb _ _).
  - apply replace_keeps_others.
  - rewrite List.filter_app. cbn [List.filter].
    rewrite String.eqb_refl. cbn [negb]. apply app_nil_r.
Qed.

Lemma upsert_document_by_id_witness :
  let conn := App.conn (snd Sample.run_v2) in
  let row := {| Db.d_id := "%PDF v1"; Db.d_path := Sample.copy;
                Db.d_filename := Sample.copy; Db.d_sha256 := "%PDF v1";
                Db.d_mtime := 1700000900; Db.d_size_bytes := 7;
                Db.d_indexed_at := 9 |} in
  let conn' := Db.upsert_document row conn in
  let other := fun r => negb (String.eqb (Db.d_id r) (Db.d_id row)) in
  NoDup (List.map Db.d_id (Db.documents (Db.current conn')))
  /\ rows_with_id (Db.d_id row) (Db.documents (Db.current conn')) = [row]
  /\ List.filter other (Db.documents (Db.current conn'))
     = List.filter other (Db.documents (Db.current conn))
  /\ Db.committed conn' = Db.committed conn.
Proof.
  cbv zeta.
  apply (upsert_document_by_id
           {| Db.d_id := "%PDF v1"; Db.d_path := Sample.copy;
              Db.d_filename := Sample.copy; Db.d_sha256 := "%PDF v1";
              Db.d_mtime := 1700000900; Db.d_size_bytes := 7;
              Db.d_indexed_at := 9 |}
           (App.conn (snd Sample.run_v2))).
  vm_compute. repeat constructor; cbn; intuition discriminate.
Defined.



(** X17: a row inserted under a new id never takes the place of the row
    the lookup by path already returned for its path: the older row
    stays the answer. *)
Theorem insert_under_new_id_is_shadowed row conn old :
  List.existsb (fun r => String.eqb (Db.d_id r) (Db.d_id row))
    (Db.documents (Db.current conn)) = false ->
  Db.get_document_by_path conn (Db.d_path row) = Some old ->
  Db.get_document_by_path (Db.upsert_document row conn) (Db.d_path row)
  = Some old
  /\ List.length
       (rows_with_path (Db.d_path row)
          (Db.documents (Db.current (Db.upsert_document row conn))))
     = Datatypes.S
         (List.length
            (rows_with_path (Db.d_path row)
               (Db.documents (Db.current conn)))).
Proof.
  intros Hnew Hold. unfold Db.get_document_by_path, rows_with_path in *.
  rewrite upsert_documents, Hnew. split.
  - clear Hnew. revert Hold.
    induction (Db.documents (Db.current conn)) as [|x docs IH];
      cbn [app List.find]; [discriminate|].
    destruct (String.eqb (Db.d_path x) (Db.d_path row)); [auto | exact IH].
  - rewrite List.filter_app, length_app. cbn [List.filter].
    rewrite String.eqb_refl. cbn. lia.
Qed.

Lemma insert_under_new_id_is_shadowed_witness :
  let conn := App.conn (snd Sample.run_v1) in
  let row := {| Db.d_id := "%PDF v3"; Db.d_path := Sample.report;
                Db.d_filename := Sample.report; Db.d_sha256 := "%PDF v3";
                Db.d_mtime := 1700000900; Db.d_size_bytes := 7;
                Db.d_indexed_at := 9 |} in
  exists old,
    Db.d_id old = "%PDF v1"%string
    /\ Db.get_document_by_path (Db.upsert_document row conn) (Db.d_path row)
       = Some old
    /\ List.length
         (rows_with_path (Db.d_path row)
            (Db.documents (Db.current (Db.upsert_document row conn))))
       = Datatypes.S
           (List.length
              (rows_with_path (Db.d_path row)
                 (Db.documents (Db.current conn)))).
Proof.
  cbv zeta. eexists. split; [|
    eapply (insert_under_new_id_is_shadowed
              {| Db.d_id := "%PDF v3"; Db.d_path := Sample.report;
                 Db.d_filename := Sample.report; Db.d_sha256 := "%PDF v3";
                 Db.d_mtime := 1700000900; Db.d_size_bytes := 7;
                 Db.d_indexed_at := 9 |}
              (App.conn (snd Sample.run_v1)));
    [reflexivity | vm_compute; reflexivity]].
  reflexivity.
Defined.

(** ** What ingestion keeps true of the store *)

Section StoreInvariants.

Variable E : Env.
Variable S : Config.Settings.
Variable force : bool.

Lemma filter_keys d : forall l1 l2,
  List.map chunk_key l1 = List.map fts_key l2 ->
  List.map chunk_key
    (List.filter (fun c => negb (String.eqb (Db.c_document_id c) d)) l1)
  = List.map fts_key
      (List.filter (fun f => negb (String.eqb (Db.f_document_id f) d)) l2).
Proof.
  induction l1 as [|c l1 IH]; intros [|f l2]; cbn [List.map List.filter];
    try discriminate; [reflexivity|].
  intros H.
  assert (Hk : chunk_key c = fts_key f) by congruence.
  assert (Hl : List.map chunk_key l1 = List.map fts_key l2) by congruence.
  assert (Hd : Db.c_document_id c = Db.f_document_id f)
    by (unfold chunk_key, fts_key in Hk; congruence).
  rewrite Hd. destruct (negb _); cbn [List.map]; [f_equal; [exact Hk|]|];
    now apply IH.
Qed.

Lemma rows_keys doc :
  List.map chunk_key (App.chunk_rows doc)
  = List.map fts_key (App.fts_rows doc).
Proof.
  unfold App.chunk_rows, App.fts_rows. rewrite !List.map_map.
  apply List.map_ext. reflexivity.
Qed.

Lemma insert_chunks_keeps_ids_unique rows : forall conn r conn',
  Db.insert_chunks rows conn = (r, conn') ->
  NoDup (List.map Db.c_id (Db.chunks (Db.current conn))) ->
  NoDup (List.map Db.c_id (Db.chunks (Db.current conn'))).
Proof.
  induction rows as [|row rows IH]; intros conn r conn'; cbn [Db.insert_chunks].
  - unfold Py.ret. now intros [= _ <-].
  - destruct (List.existsb _ _) eqn:Ex; [now intros [= _ <-]|].
    intros H Hn. apply (IH _ _ _ H). cbn. rewrite List.map_app. cbn.
    apply NoDup_app; [exact Hn | repeat constructor; intros [] |].
    intros k Hk [<-|[]].
    apply List.in_map_iff in Hk. destruct Hk as (c & Hc & Hin).
    assert (K : List.existsb (fun c => String.eqb (Db.c_id c) (Db.c_id row))
                  (Db.chunks (Db.current conn)) = true).
    { apply List.existsb_exists. exists c. split; [exact Hin|].
      now apply String.eqb_eq. }
    congruence.
Qed.

Lemma filter_keeps_ids_unique {A} (key : A -> string) (f : A -> bool) l :
  NoDup (List.map key l) -> NoDup (List.map key (List.filter f l)).
Proof.
  induction l as [|x l IH]; cbn [List.map List.filter]; [auto|].
  intros H. inversion H as [|? ? Hx Hl]; subst.
  destruct (f x); [|now apply IH]. cbn [List.map]. constructor; [|now apply IH].
  intros K. apply Hx. apply List.in_map_iff in K.
  destruct K as (y & Hy & Hin). apply List.filter_In in Hin.
  apply List.in_map_iff. exists y. tauto.
Qed.

(** The store after a reindex that went through. *)
Lemma reindex_ok_tables existing rp w w' :
  App.reindex E S existing rp w = (Ok tt, w') ->
  exists doc s',
    Indexer.index_pdf E rp (Config.max_chunk_chars S)
      (Config.min_chunk_chars S) (Config.max_pages_per_chunk S) (App.sys w)
    = (Ok doc, s')
    /\ App.sys w' = s'
    /\ Db.committed (App.conn w') = Db.current (App.conn w')
    /\ Db.documents (Db.current (App.conn w'))
       = Db.documents
           (Db.current
              (Db.upsert_document (App.document_row doc) (App.conn w)))
    /\ (let kept c := match existing with
                      | Some ex => negb (String.eqb (Db.c_document_id c)
                                           (Db.d_id ex))
                      | None => true
                      end in
        Db.chunks (Db.current (App.conn w'))
        = List.filter kept (Db.chunks (Db.current (App.conn w)))
          ++ App.chunk_rows doc)
    /\ (let kept f := match existing with
                      | Some ex => negb (String.eqb (Db.f_document_id f)
                                           (Db.d_id ex))
                      | None => true
                      end in
        Db.chunks_fts (Db.current (App.conn w'))
        = List.filter kept (Db.chunks_fts (Db.current (App.conn w)))
          ++ App.fts_rows doc)
    /\ (NoDup (List.map Db.c_id (Db.chunks (Db.current (App.conn w)))) ->
        NoDup (List.map Db.c_id (Db.chunks (Db.current (App.conn w'))))).
Proof.
  rewrite reindex_eq.
  destruct (Indexer.index_pdf _ _ _ _ _ _) as [[doc|m] s']; [|discriminate].
  cbv zeta.
  destruct (Db.insert_chunks _ _) as [[[]|m] c3] eqn:Hi; [|discriminate].
  intros [= <-]. exists doc, s'.
  destruct (insert_chunks_committed _ _ _ _ Hi) as (_ & Hd).
  destruct (insert_chunks_ok _ _ _ Hi) as (Hc & Hf).
  pose proof (insert_chunks_keeps_ids_unique _ _ _ _ Hi) as Hu.
  cbn [App.conn App.sys Db.commit Db.current Db.committed Db.insert_fts_rows
       Db.execute Db.documents Db.chunks Db.chunks_fts].
  rewrite Hd, !upsert_documents.
  split; [reflexivity|]. split; [reflexivity|]. split; [reflexivity|].
  split; [destruct existing; reflexivity|].
  split; [|split].
  - rewrite Hc. destruct existing as [ex|]; cbn; [reflexivity|].
    now rewrite List.filter_true.
  - rewrite Hf. destruct existing as [ex|]; cbn; [reflexivity|].
    now rewrite List.filter_true.
  - intros Hn. apply Hu. destruct existing as [ex|]; cbn; [|exact Hn].
    now apply filter_keeps_ids_unique.
Qed.

Lemma ingest_step_cases t w p :
  snd (App.ingest_step E S force (t, w) p) = w
  \/ (exists m w1, App.ingest_file E S force p w = (Raise m, w1)
                   /\ App.conn (snd (App.ingest_step E S force (t, w) p))
                      = Db.rollback (App.conn w1))
  \/ (exists rp,
        path_resolve E p = Ok rp
        /\ App.reindex E S (Db.get_document_by_path (App.conn w) rp) rp w
           = (Ok tt, snd (App.ingest_step E S force (t, w) p))).
Proof.
  unfold App.ingest_step.
  destruct (App.ingest_file E S force p w) as [[[]|m] w1] eqn:Hf; cbn [snd].
  - left. rewrite ingest_file_eq in Hf.
    destruct (path_resolve E p); [|discriminate]. cbv zeta in Hf.
    destruct (App.unchanged _ _ _ _); [now injection Hf|].
    destruct (App.reindex _ _ _ _ _) as [[|] ?]; discriminate.
  - right. right. rewrite ingest_file_eq in Hf.
    destruct (path_resolve E p) as [rp|]; [|discriminate]. cbv zeta in Hf.
    destruct (App.unchanged _ _ _ _); [discriminate|].
    destruct (App.reindex _ _ _ _ _) as [[[]|] w2] eqn:Hr; [|discriminate].
    injection Hf as <-. exists rp. auto.
  - right. left. exists m, w1. auto.
Qed.

(** An iteration keeps the store settled, mirrored and keyed. *)
Lemma ingest_step_store t w p :
  settled w ->
  mirrored (Db.current (App.conn w)) -> keyed (Db.current (App.conn w)) ->
  let w' := snd (App.ingest_step E S force (t, w) p) in
  settled w'
  /\ mirrored (Db.current (App.conn w')) /\ keyed (Db.current (App.conn w')).
Proof.
  intros Hs Hm Hk. cbv zeta.
  pose proof (ingest_step_settled E S force t w p Hs) as Hs'.
  split; [exact Hs'|].
  destruct (ingest_step_cases t w p)
    as [Hw|[(m & w1 & Hf & Hc)|(rp & Hr & Hre)]]; [rewrite Hw; auto| |].
  - rewrite Hc. cbn [Db.rollback Db.current].
    rewrite (ingest_file_raise_committed E S force p w m w1 Hf).
    unfold settled in Hs. rewrite Hs. auto.
  - destruct (reindex_ok_tables _ _ _ _ Hre)
      as (doc & s' & _ & _ & _ & Hd & Hc & Hf & Hn).
    cbv zeta in Hc, Hf. unfold mirrored, keyed. rewrite Hd, Hc, Hf.
    destruct Hk as (Hk1 & Hk2). split; [|split].
    + rewrite !List.map_app, rows_keys. f_equal.
      destruct (Db.get_document_by_path (App.conn w) rp) as [ex|].
      * now apply filter_keys.
      * now rewrite !List.filter_true.
    + now apply upsert_keeps_ids_unique.
    + rewrite <- Hc. now apply Hn.
Qed.

Lemma ingest_loop_store paths : forall t w,
  settled w ->
  mirrored (Db.current (App.conn w)) -> keyed (Db.current (App.conn w)) ->
  let w' := snd (App.ingest_loop E S force paths (t, w)) in
  settled w'
  /\ mirrored (Db.current (App.conn w')) /\ keyed (Db.current (App.conn w')).
Proof.
  induction paths as [|p paths IH]; intros t w Hs Hm Hk; [cbn; auto|].
  cbn [App.ingest_loop List.fold_left].
  destruct (ingest_step_store t w p Hs Hm Hk) as (Hs' & Hm' & Hk').
  destruct (App.ingest_step E S force (t, w) p) as [t1 w1].
  now apply IH.
Qed.

End StoreInvariants.

Lemma filter_in_filter_out {A} (f : A -> bool) l :
  List.filter f (List.filter (fun x => negb (f x)) l) = [].
Proof.
  induction l as [|x l IH]; [reflexivity|]. cbn [List.filter].
  destruct (f x) eqn:Ex; cbn [negb List.filter]; [exact IH|].
  now rewrite Ex.
Qed.

Lemma filter_all {A} (f : A -> bool) l :
  Forall (fun x => f x = true) l -> List.filter f l = l.
Proof.
  induction 1 as [|x l Hx _ IH]; [reflexivity|]. cbn. now rewrite Hx, IH.
Qed.

(** X18: when a file whose stored Document has the same content id is
    indexed again (forced, or its mtime was touched), the chunks and the
    index rows the store holds for that id afterwards are exactly the
    newly built ones: nothing of the previous run is left and nothing is
    doubled. *)
Theorem reingest_same_content_replaces_chunks E S force p rp ex data w w' :
  path_resolve E p = Ok rp ->
  Db.get_document_by_path (App.conn w) rp = Some ex ->
  read_bytes E rp = Ok data -> Db.d_id ex = sha256_hexdigest E data ->
  App.ingest_file E S force p w = (Ok App.Indexed, w') ->
  exists doc s',
    Indexer.index_pdf E rp (Config.max_chunk_chars S)
      (Config.min_chunk_chars S) (Config.max_pages_per_chunk S) (App.sys w)
    = (Ok doc, s')
    /\ List.filter
         (fun c => String.eqb (Db.c_document_id c) (Indexer.doc_id doc))
         (Db.chunks (Db.committed (App.conn w')))
       = App.chunk_rows doc
    /\ List.filter
         (fun f => String.eqb (Db.f_document_id f) (Indexer.doc_id doc))
         (Db.chunks_fts (Db.committed (App.conn w')))
       = App.fts_rows doc.
Proof.
  intros Hr Hex Hb Hid Hf.
  rewrite ingest_file_eq, Hr in Hf. cbv zeta in Hf. rewrite Hex in Hf.
  destruct (App.unchanged _ _ _ _); [discriminate|].
  destruct (App.reindex E S (Some ex) rp w) as [[[]|m] w2] eqn:Hre;
    [|discriminate].
  injection Hf as <-.
  destruct (reindex_ok_tables E S _ _ _ _ Hre)
    as (doc & s' & Hi & _ & Hs & _ & Hc & Hft & _).
  cbv zeta in Hc, Hft. exists doc, s'. split; [exact Hi|].
  destruct (index_pdf_ok E _ _ _ _ _ _ _ Hi)
    as (st & data' & _ & Hb' & _ & Hd & _).
  rewrite Hb in Hb'. injection Hb' as <-.
  pose proof (index_pdf_chunks_owned E _ _ _ _ _ _ _ Hi) as Hown.
  rewrite Hs, Hc, Hft, !List.filter_app, Hid, <- Hd.
  rewrite (filter_in_filter_out
             (fun c => String.eqb (Db.c_document_id c) (Indexer.doc_id doc))),
          (filter_in_filter_out
             (fun f => String.eqb (Db.f_document_id f) (Indexer.doc_id doc))).
  cbn [app]. split; apply filter_all; unfold App.chunk_rows, App.fts_rows;
    apply Forall_forall; intros x Hx; apply List.in_map_iff in Hx;
    destruct Hx as (c & <- & Hc'); cbn;
    rewrite Forall_forall in Hown; rewrite (Hown c Hc');
    apply String.eqb_refl.
Qed.

Lemma reingest_same_content_replaces_chunks_witness :
  let E := Sample.env [(Sample.report, Sample.report_v1)] in
  let w := snd Sample.run_v1 in
  let w' := snd (App.ingest_file E Sample.settings true Sample.report w) in
  exists doc s',
    Indexer.index_pdf E Sample.report 8000 1200 3 (App.sys w) = (Ok doc, s')
    /\ List.filter
         (fun c => String.eqb (Db.c_document_id c) (Indexer.doc_id doc))
         (Db.chunks (Db.committed (App.conn w')))
       = App.chunk_rows doc
    /\ List.filter
         (fun f => String.eqb (Db.f_document_id f) (Indexer.doc_id doc))
         (Db.chunks_fts (Db.committed (App.conn w')))
       = App.fts_rows doc.
Proof.
  cbv zeta.
  eapply (reingest_same_content_replaces_chunks
            (Sample.env [(Sample.report, Sample.report_v1)]) Sample.settings
            true Sample.report Sample.report _ (lit "%PDF v1")
            (snd Sample.run_v1)).
  - reflexivity.
  - vm_compute. reflexivity.
  - reflexivity.
  - reflexivity.
  - vm_compute. reflexivity.
Defined.

(** X19: ingestion keeps the store consistent.  From a store with no
    open transaction, whose index rows mirror its chunk rows one for one
    and whose document ids and chunk ids are unique, any ingest request,
    whatever succeeds or fails in it, ends with a store of the same
    kind. *)
Theorem ingest_keeps_store_consistent E S body w :
  settled w ->
  mirrored (Db.current (App.conn w)) -> keyed (Db.current (App.conn w)) ->
  let w' := snd (App.ingest E S body w) in
  settled w'
  /\ mirrored (Db.committed (App.conn w'))
  /\ keyed (Db.committed (App.conn w')).
Proof.
  intros Hs Hm Hk. cbv zeta. rewrite ingest_eq.
  destruct (App.pdf_paths E S body) as [paths|m]; cbv zeta; cbn [snd].
  - destruct (ingest_loop_store E S (App.force body) paths
                App.tally0 w Hs Hm Hk) as (Hs' & Hm' & Hk').
    unfold settled in Hs'. rewrite Hs'. auto.
  - unfold settled in Hs. rewrite Hs. auto.
Qed.

Lemma ingest_keeps_store_consistent_witness :
  let E := Sample.stuck_uuid
             (Sample.env [(Sample.report, Sample.report_v2);
                          (Sample.copy, Sample.report_v1);
                          (Sample.broken, Sample.corrupt)]) in
  let w' := snd (App.ingest E Sample.settings
                   (Sample.request [Sample.copy; Sample.broken;
                                    Sample.report])
                   (snd Sample.run_v1)) in
  settled w'
  /\ mirrored (Db.committed (App.conn w'))
  /\ keyed (Db.committed (App.conn w')).
Proof.
  cbv zeta.
  apply (ingest_keeps_store_consistent
           (Sample.stuck_uuid
              (Sample.env [(Sample.report, Sample.report_v2);
                           (Sample.copy, Sample.report_v1);
                           (Sample.broken, Sample.corrupt)]))
           Sample.settings
           (Sample.request [Sample.copy; Sample.broken; Sample.report])
           (snd Sample.run_v1)).
  - reflexivity.
  - reflexivity.
  - vm_compute. split; repeat constructor; cbn; intuition discriminate.
Defined.

(** X20: a first ingestion followed by a second one of the same,
    unchanged file.  When the store held no Document for the canonical
    path and the first request indexed the file, the second request
    answers indexed = 0, skipped = 1, no errors, and leaves the process
    exactly as it was. *)
Theorem ingest_twice_new_path E S body p rp w :
  App.files body = Some [p] -> App.force body = false ->
  App.keep_file E p = Ok true ->
  path_resolve E p = Ok rp -> path_resolve E rp = Ok rp ->
  Db.get_document_by_path (App.conn w) rp = None ->
  fmap App.indexed (fst (App.ingest E S body w)) = Ok 1 ->
  let w1 := snd (App.ingest E S body w) in
  App.ingest E S body w1
  = (Ok {| App.indexed := 0; App.skipped := 1; App.errors := [];
           App.resp_db_path := Config.db_path S |}, w1).
Proof.
  intros Hfiles Hforce Hkeep Hr Hrr Hnone Hone. cbv zeta.
  assert (Hp : App.pdf_paths E S body = Ok [p]).
  { unfold App.pdf_paths. rewrite Hfiles. cbn. now rewrite Hkeep. }
  rewrite !ingest_eq in *. rewrite Hp, Hforce in *. cbv zeta in *.
  cbn [App.ingest_loop List.fold_left fst snd fmap App.indexed] in *.
  assert (Hi : exists w1,
             App.ingest_file E S false p w = (Ok App.Indexed, w1)
             /\ snd (App.ingest_step E S false (App.tally0, w) p) = w1).
  { unfold App.ingest_step in *.
    destruct (App.ingest_file E S false p w) as [[[]|m] w1];
      cbn in Hone; try discriminate.
    exists w1. auto. }
  destruct Hi as (w1 & Hi & Hw1).
  destruct (App.ingest_step E S false (App.tally0, w) p) as [t1 w1'].
  cbn [snd] in *. subst w1'.
  rewrite (first_ingestion_then_skip E S p rp w w1 App.tally0 Hr Hrr Hnone Hi).
  reflexivity.
Qed.

Lemma ingest_twice_new_path_witness :
  let E := Sample.env [(Sample.report, Sample.report_v1)] in
  let body := Sample.request [Sample.report] in
  let w1 := snd (App.ingest E Sample.settings body Sample.world0) in
  App.ingest E Sample.settings body w1
  = (Ok {| App.indexed := 0; App.skipped := 1; App.errors := [];
           App.resp_db_path := Config.db_path Sample.settings |}, w1).
Proof.
  cbv zeta.
  apply (ingest_twice_new_path
           (Sample.env [(Sample.report, Sample.report_v1)]) Sample.settings
           (Sample.request [Sample.report]) Sample.report Sample.report
           Sample.world0); reflexivity.
Defined.

(** ** The candidate paths *)

Lemma filter_result_kept {A} (test : A -> Result bool) xs kept x :
  filter_result test xs = Ok kept -> In x kept -> test x = Ok true.
Proof.
  intros H Hin. rewrite (filter_result_ok test xs kept H) in Hin.
  apply List.filter_In in Hin. destruct Hin as (_ & Hx).
  destruct (test x) as [[|]|]; congruence.
Qed.

(** X21: however the candidates were obtained (the explicit list, a
    directory walk, or a root that is itself a file), every path the loop
    is given is a regular file whose suffix, lower-cased, is .pdf; the
    request is then answered, every one of the paths ends in exactly one
    of indexed, skipped and errors, and every entry of errors names one
    of them.  When obtaining the candidates raises, the request fails
    with that error and the process is left as it was. *)
Theorem ingest_processes_pdf_files_only E S body w :
  match App.pdf_paths E S body with
  | Ok paths =>
      exists resp,
        fst (App.ingest E S body w) = Ok resp
        /\ Forall (fun p => path_is_file E p = Ok true
                            /\ lower (path_suffix E p) = ".pdf"%string) paths
        /\ App.indexed resp + App.skipped resp
           + Z.of_nat (List.length (App.errors resp))
           = Z.of_nat (List.length paths)
        /\ Forall (fun e => In (fst e) paths) (App.errors resp)
  | Raise m => App.ingest E S body w = (Raise m, w)
  end.
Proof.
  rewrite ingest_eq.
  destruct (App.pdf_paths E S body) as [paths|m] eqn:Hpaths; [|reflexivity].
  cbv zeta. eexists. split; [reflexivity|]. split; [|split].
  - apply Forall_forall. intros p Hp. unfold App.pdf_paths in Hpaths.
    assert (Hwalk : forall base,
               Utils.iter_pdf_paths E base (App.recursive body) = Ok paths ->
               path_is_file E p = Ok true
               /\ lower (path_suffix E p) = ".pdf"%string).
    { intros base Hw. unfold Utils.iter_pdf_paths in Hw.
      destruct (path_is_file E base) as [[|]|] eqn:Hfile; [| |discriminate].
      - destruct (String.eqb_spec (lower (path_suffix E base)) ".pdf")
          as [Hsuf|_]; injection Hw as <-; [|contradiction].
        destruct Hp as [<-|[]]. auto.
      - destruct (path_exists E base) as [[|]|]; [| |discriminate].
        2:{ injection Hw as <-. contradiction. }
        destruct (path_glob E base _) as [found failure].
        destruct (filter_result (Utils.is_pdf_file E) found) as [kept|] eqn:Hk;
          [|discriminate].
        destruct failure; [discriminate|]. injection Hw as ->.
        pose proof (filter_result_kept _ _ _ p Hk Hp) as Ht.
        unfold Utils.is_pdf_file in Ht.
        destruct (path_is_file E p) as [b|]; [|discriminate].
        injection Ht as Ht. apply andb_prop in Ht. destruct Ht as (-> & H2).
        split; [reflexivity | now apply String.eqb_eq]. }
    destruct (App.files body) as [[|f fs]|]; eauto.
    pose proof (filter_result_kept _ _ _ p Hpaths Hp) as Ht.
    unfold App.keep_file in Ht.
    destruct (path_exists E p) as [[|]|]; try discriminate.
    destruct (path_is_file E p) as [b|]; [|discriminate].
    injection Ht as Ht. apply andb_prop in Ht. destruct Ht as (-> & H2).
    split; [reflexivity | now apply String.eqb_eq].
  - destruct (ingest_loop_accounts E S (App.force body) paths (App.tally0, w))
      as (Hn & _).
    cbn [fst App.indexed App.skipped App.errors App.n_indexed App.n_skipped
         App.errs App.tally0 List.length] in *. lia.
  - destruct (ingest_loop_accounts E S (App.force body) paths (App.tally0, w))
      as (_ & He).
    cbn [fst App.errors App.errs App.tally0] in *.
    apply Forall_forall. intros e Hin. destruct (He e Hin) as [[]|K]. exact K.
Qed.

(** ** Search results *)

Lemma order_by_score_In x l : In x (Db.order_by_score l) -> In x l.
Proof.
  unfold Db.order_by_score. induction l as [|y l IH]; cbn [List.fold_right];
    [auto|].
  intros H. apply insert_by_score_In in H. destruct H as [->|H];
    [now left | right; now apply IH].
Qed.

Lemma limit_In {A} k (x : A) l : In x (Db.limit k l) -> In x l.
Proof.
  unfold Db.limit. destruct (k <? 0); [auto|].
  revert l. induction (Z.to_nat k) as [|n IH]; intros [|y l]; cbn; intuition.
Qed.

(** Every result is a stored index row that matches. *)
Lemma search_chunks_sound E conn q top_k snippet_chars rs matches r :
  Db.search_chunks E conn q top_k snippet_chars = Ok rs ->
  fts_match E q = Ok matches -> In r rs ->
  exists f,
    In f (Db.chunks_fts (Db.current conn))
    /\ matches (Db.f_text f) = true
    /\ r = {| Db.r_doc_id := Db.f_document_id f;
              Db.r_filename := Db.f_filename f;
              Db.r_path := Db.f_path f;
              Db.r_page_start := Db.f_page_start f;
              Db.r_page_end := Db.f_page_end f;
              Db.r_score := fts_bm25 E q
                              (List.map Db.f_text
                                 (Db.chunks_fts (Db.current conn)))
                              (Db.f_text f);
              Db.r_snippet := fts_snippet E q (Db.f_text f)
                                (Z.max 10 snippet_chars) |}.
Proof.
  intros H Hm.
  destruct (search_chunks_ok_inv E conn q top_k snippet_chars rs H)
    as (_ & _ & _ & matches' & Hm' & ->).
  rewrite Hm in Hm'. injection Hm' as <-. intros Hin.
  apply List.in_map_iff in Hin. destruct Hin as ([f sc] & <- & Hin).
  apply limit_In, order_by_score_In in Hin.
  apply List.in_map_iff in Hin. destruct Hin as (f' & [= -> <-] & Hin).
  apply List.filter_In in Hin. destruct Hin as (Hin & Hmatch).
  exists f. auto.
Qed.

(** X22: a search result is always a row of the index as it is stored
    now, one whose text the engine matched: its document id, filename,
    path and page range are those of the row, its score the bm25 of the
    row's text, its snippet cut from that text with a window of at least
    10.  Search raises only when a parameter cannot be bound (an integer
    that does not fit 64 bits, a query with a lone surrogate) or when the
    engine rejects the query. *)
Theorem search_returns_stored_matches E conn q top_k snippet_chars :
  match Db.search_chunks E conn q top_k snippet_chars with
  | Ok rs =>
      exists matches,
        fts_match E q = Ok matches
        /\ Forall
             (fun r =>
                exists f,
                  In f (Db.chunks_fts (Db.current conn))
                  /\ matches (Db.f_text f) = true
                  /\ Db.r_doc_id r = Db.f_document_id f
                  /\ Db.r_filename r = Db.f_filename f
                  /\ Db.r_path r = Db.f_path f
                  /\ Db.r_page_start r = Db.f_page_start f
                  /\ Db.r_page_end r = Db.f_page_end f
                  /\ Db.r_score r
                     = fts_bm25 E q
                         (List.map Db.f_text
                            (Db.chunks_fts (Db.current conn)))
                         (Db.f_text f)
                  /\ Db.r_snippet r
                     = fts_snippet E q (Db.f_text f)
                         (Z.max 10 snippet_chars))
             rs
  | Raise m =>
      ((Db.int64_max < Z.max 10 snippet_chars
        \/ top_k < Db.int64_min \/ Db.int64_max < top_k)
       /\ m = "Python int too large to convert to SQLite INTEGER"%string)
      \/ List.existsb Db.surrogate q = true
      \/ fts_match E q = Raise m
  end.
Proof.
  destruct (Db.search_chunks E conn q top_k snippet_chars) as [rs|m] eqn:H.
  - destruct (search_chunks_ok_inv E conn q top_k snippet_chars rs H)
      as (_ & _ & _ & matches & Hm & _).
    exists matches. split; [exact Hm|].
    apply Forall_forall. intros r Hr.
    destruct (search_chunks_sound E conn q top_k snippet_chars rs matches r
                H Hm Hr) as (f & Hin & Hmatch & ->).
    exists f. cbn. repeat split; auto.
  - destruct (search_chunks_raise_inv E conn q top_k snippet_chars m H)
      as [(Hs & ->)|[(_ & Hq)|[(_ & _ & Hk & ->)|(_ & _ & _ & Hm)]]].
    + left. split; [|reflexivity]. left.
      apply fits_int64_false in Hs. unfold Db.int64_min in Hs. cbn in Hs.
      destruct Hs as [Hs|Hs]; [lia | exact Hs].
    + right. left. exact Hq.
    + left. split; [|reflexivity]. right. now apply fits_int64_false.
    + right. right. exact Hm.
Qed.

(** X23: once the chunks of a document are deleted, no search returns a
    result of that document, whatever the query. *)
Theorem search_after_delete E conn doc_id q top_k snippet_chars rs :
  Db.search_chunks E (Db.delete_document_chunks doc_id conn) q top_k
    snippet_chars = Ok rs ->
  Forall (fun r => Db.r_doc_id r <> doc_id) rs.
Proof.
  intros H. apply Forall_forall. intros r Hr.
  destruct (search_chunks_ok_inv E _ q top_k snippet_chars rs H)
    as (_ & _ & _ & matches & Hm & _).
  destruct (search_chunks_sound E _ q top_k snippet_chars rs matches r
              H Hm Hr) as (f & Hin & _ & ->).
  cbn in Hin. apply List.filter_In in Hin. destruct Hin as (_ & Hd).
  cbn. apply negb_true_iff in Hd. now apply String.eqb_neq.
Qed.

Lemma search_after_delete_witness :
  let E := Sample.env [(Sample.report, Sample.report_v1);
                       (Sample.copy, Sample.report_v2)] in
  let w := snd (App.ingest E Sample.settings
                  (Sample.request [Sample.report; Sample.copy])
                  Sample.world0) in
  exists all rs,
    Db.search_chunks E (App.conn w) (lit "now") 5 800 = Ok all
    /\ List.length all = 2%nat
    /\ Db.search_chunks E
         (Db.delete_document_chunks "%PDF v1" (App.conn w))
         (lit "now") 5 800 = Ok rs
    /\ List.length rs = 1%nat
    /\ Forall (fun r => Db.r_doc_id r <> "%PDF v1"%string) rs.
Proof.
  cbv zeta. do 2 eexists.
  split; [vm_compute; reflexivity|]. split; [reflexivity|].
  split; [vm_compute; reflexivity|]. split; [reflexivity|].
  eapply (search_after_delete
            (Sample.env [(Sample.report, Sample.report_v1);
                         (Sample.copy, Sample.report_v2)])
            (App.conn
               (snd (App.ingest
                       (Sample.env [(Sample.report, Sample.report_v1);
                                    (Sample.copy, Sample.report_v2)])
                       Sample.settings
                       (Sample.request [Sample.report; Sample.copy])
                       Sample.world0)))
            "%PDF v1" (lit "now") 5 800).
  vm_compute. reflexivity.
Defined.

(** ** The query endpoint, past the validation *)

Lemma range_In a b n : In n (App.range a b) <-> a <= n < b.
Proof.
  unfold App.range. rewrite List.in_map_iff. split.
  - intros (k & <- & Hk). apply List.in_seq in Hk. lia.
  - intros H. exists (Z.to_nat (n - a)). split; [lia|].
    apply List.in_seq. lia.
Qed.

(** What a query that reached the index answers. *)
Lemma query_ok_inv E S body w q top_k hits w' :
  App.query E S body w = (Ok (App.QResults q top_k hits, 200), w') ->
  exists tk sc snippet_chars results,
    App.body_get body "top_k" = Ok tk
    /\ App.py_int E (App.or_else tk (App.JNum (Config.default_top_k S)))
       = Ok top_k
    /\ App.body_get body "snippet_chars" = Ok sc
    /\ App.py_int E
         (App.or_else sc (App.JNum (Config.default_snippet_chars S)))
       = Ok snippet_chars
    /\ Db.search_chunks E (App.conn w) q top_k snippet_chars = Ok results
    /\ q <> []
    /\ hits = List.map App.hit_of results.
Proof.
  unfold App.query. unfold_monad.
  destruct (App.body_get body "query") as [qv|]; [|discriminate].
  destruct (App.or_else qv (App.JStr [])) as [| | | |s| |]; try discriminate.
  destruct (strip s) as [|c q0]; [discriminate|].
  destruct (App.body_get body "top_k") as [tk|]; [|discriminate].
  destruct (App.py_int E
              (App.or_else tk (App.JNum (Config.default_top_k S))))
    as [k|] eqn:Hk; [|discriminate].
  destruct (App.body_get body "snippet_chars") as [sc|]; [|discriminate].
  destruct (App.py_int E
              (App.or_else sc (App.JNum (Config.default_snippet_chars S))))
    as [n|] eqn:Hn; [|discriminate].
  cbn. destruct (Db.search_chunks _ _ _ _ _) as [results|] eqn:Hs;
    [|discriminate].
  intros [= <- <- <- <-]. exists tk, sc, n, results.
  repeat split; auto. discriminate.
Qed.

(** X24: in a successful answer the pages of a hit are exactly the
    pages of its range: a page number is listed if and only if it lies
    between page_start and page_end, both included. *)
Theorem query_hit_pages E S body w q top_k hits w' :
  App.query E S body w = (Ok (App.QResults q top_k hits, 200), w') ->
  Forall
    (fun h => forall n,
       In n (App.h_pages h) <-> App.h_page_start h <= n <= App.h_page_end h)
    hits.
Proof.
  intros H.
  destruct (query_ok_inv E S body w q top_k hits w' H)
    as (_ & _ & _ & results & _ & _ & _ & _ & _ & _ & ->).
  apply Forall_forall. intros h Hh. apply List.in_map_iff in Hh.
  destruct Hh as (r & <- & _). intros n. cbn. rewrite range_In. lia.
Qed.

Lemma query_hit_pages_witness :
  let E := Sample.env [] in
  let body := Some (App.JObj [("query"%string, App.JStr (lit " now "))]) in
  exists hits w',
    App.query E Sample.settings body (snd Sample.run_v2)
    = (Ok (App.QResults (lit "now") 5 hits, 200), w')
    /\ List.map App.h_pages hits = [[1; 2]]
    /\ Forall
         (fun h => forall n,
            In n (App.h_pages h)
            <-> App.h_page_start h <= n <= App.h_page_end h)
         hits.
Proof.
  cbv zeta. do 2 eexists. split; [vm_compute; reflexivity|].
  split; [reflexivity|].
  eapply (query_hit_pages (Sample.env []) Sample.settings
            (Some (App.JObj [("query"%string, App.JStr (lit " now "))]))
            (snd Sample.run_v2) (lit "now") 5).
  vm_compute. reflexivity.
Defined.

(** X25: the top_k a successful answer reports is the one the search
    ran with, and it fits 64 bits.  It is the top_k of the request when
    that is an integer other than 0, true (which counts as 1), or a
    string int() reads; the integer part, towards zero, of a finite
    number other than 0 that has a fraction or an exponent; and the
    configured default when top_k is missing, null, false, 0, 0.0 or an
    empty string, array or object.  No answer is given for an infinite or
    NaN top_k, nor for an array or object that is not empty. *)
Theorem query_top_k_default E S body w q top_k hits w' :
  App.query E S body w = (Ok (App.QResults q top_k hits, 200), w') ->
  exists tk snippet_chars results,
    App.body_get body "top_k" = Ok tk
    /\ Db.search_chunks E (App.conn w) q top_k snippet_chars = Ok results
    /\ hits = List.map App.hit_of results
    /\ Db.int64_min <= top_k <= Db.int64_max
    /\ match tk with
       | None | Some App.JNull => top_k = Config.default_top_k S
       | Some (App.JBool b) =>
           top_k = if b then 1 else Config.default_top_k S
       | Some (App.JNum z) =>
           top_k = if z =? 0 then Config.default_top_k S else z
       | Some (App.JFloat (App.Finite x)) =>
           top_k = if Qeq_bool x 0 then Config.default_top_k S
                   else App.truncate x
       | Some (App.JFloat _) => False
       | Some (App.JStr []) => top_k = Config.default_top_k S
       | Some (App.JStr s) => int_of_str E s = Ok top_k
       | Some (App.JArr l) | Some (App.JObj l) =>
           l = [] /\ top_k = Config.default_top_k S
       end.
Proof.
  intros H.
  destruct (query_ok_inv E S body w q top_k hits w' H)
    as (tk & sc & n & results & Htk & Hk & _ & _ & Hs & _ & Hh).
  exists tk, n, results. split; [exact Htk|]. split; [exact Hs|].
  split; [exact Hh|]. split.
  { apply fits_int64_iff.
    now destruct (search_chunks_ok_inv E _ q top_k n results Hs)
      as (_ & _ & Hf & _). }
  clear - Hk. destruct tk as [[|b|z|[x| | | ]|s|l|l]|]; cbn in Hk.
  - now injection Hk.
  - destruct b; cbn in Hk; now injection Hk.
  - destruct (z =? 0); cbn in Hk; now injection Hk.
  - destruct (Qeq_bool x 0); cbn in Hk; now injection Hk.
  - discriminate.
  - discriminate.
  - discriminate.
  - destruct s; cbn in Hk; [now injection Hk | exact Hk].
  - destruct l; cbn in Hk; [split; [reflexivity | now injection Hk]
                           | discriminate].
  - destruct l; cbn in Hk; [split; [reflexivity | now injection Hk]
                           | discriminate].
  - now injection Hk.
Qed.

(** A top_k of 2.7 is searched with, and reported, as 2. *)
Lemma query_top_k_default_witness :
  let E := Sample.env [] in
  let body := Some (App.JObj [("query"%string, App.JStr (lit "now"));
                              ("top_k"%string,
                               App.JFloat (App.Finite (27 # 10)))]) in
  let w := snd Sample.run_v2 in
  exists hits w',
    App.query E Sample.settings body w
    = (Ok (App.QResults (lit "now") 2 hits, 200), w')
    /\ exists tk snippet_chars results,
         App.body_get body "top_k" = Ok tk
         /\ Db.search_chunks E (App.conn w) (lit "now") 2 snippet_chars
            = Ok results
         /\ hits = List.map App.hit_of results
         /\ Db.int64_min <= 2 <= Db.int64_max
         /\ match tk with
            | None | Some App.JNull =>
                2 = Config.default_top_k Sample.settings
            | Some (App.JBool b) =>
                2 = if b then 1 else Config.default_top_k Sample.settings
            | Some (App.JNum z) =>
                2 = if z =? 0 then Config.default_top_k Sample.settings
                    else z
            | Some (App.JFloat (App.Finite x)) =>
                2 = if Qeq_bool x 0 then Config.default_top_k Sample.settings
                    else App.truncate x
            | Some (App.JFloat _) => False
            | Some (App.JStr []) => 2 = Config.default_top_k Sample.settings
            | Some (App.JStr s) => int_of_str E s = Ok 2
            | Some (App.JArr l) | Some (App.JObj l) =>
                l = [] /\ 2 = Config.default_top_k Sample.settings
            end.
Proof.
  cbv zeta. do 2 eexists. split; [vm_compute; reflexivity|].
  eapply (query_top_k_default (Sample.env []) Sample.settings
            (Some (App.JObj [("query"%string, App.JStr (lit "now"));
                             ("top_k"%string,
                              App.JFloat (App.Finite (27 # 10)))]))
            (snd Sample.run_v2) (lit "now") 2).
  vm_compute. reflexivity.
Defined.

(** ** Listing documents *)

Section Listing.

Local Abbreviation newer :=
  (fun a b : Db.DocumentRow => (Db.d_indexed_at b <= Db.d_indexed_at a)%Q).

Lemma insert_by_recency_perm x l :
  Permutation (Db.insert_by_recency x l) (x :: l).
Proof.
  induction l as [|y l IH]; cbn; [reflexivity|].
  destruct (Qle_bool _ _); [reflexivity|].
  rewrite IH. apply perm_swap.
Qed.

Lemma order_by_recency_perm l : Permutation (Db.order_by_recency l) l.
Proof.
  unfold Db.order_by_recency.
  induction l as [|x l IH]; cbn [List.fold_right]; [reflexivity|].
  rewrite insert_by_recency_perm. now constructor.
Qed.

Lemma insert_by_recency_sorted x l :
  StronglySorted newer l -> StronglySorted newer (Db.insert_by_recency x l).
Proof.
  induction 1 as [|y l Hs IH Hy]; cbn.
  - repeat constructor.
  - destruct (Qle_bool (Db.d_indexed_at y) (Db.d_indexed_at x)) eqn:Hc.
    + apply Qle_bool_iff in Hc. constructor; [now constructor|].
      constructor; [exact Hc|].
      eapply Forall_impl; [|exact Hy]. cbv beta. intros z Hz.
      eapply Qle_trans; eassumption.
    + assert (Hxy : (Db.d_indexed_at x <= Db.d_indexed_at y)%Q).
      { destruct (Qlt_le_dec (Db.d_indexed_at x) (Db.d_indexed_at y))
          as [L|L]; [now apply Qlt_le_weak|].
        apply Qle_bool_iff in L. congruence. }
      constructor; [exact IH|].
      apply Forall_forall. intros z Hz.
      apply (Permutation_in _ (insert_by_recency_perm x l)) in Hz.
      destruct Hz as [<-|Hz]; [exact Hxy|].
      rewrite Forall_forall in Hy. now apply Hy.
Qed.

Lemma order_by_recency_sorted l :
  StronglySorted newer (Db.order_by_recency l).
Proof.
  unfold Db.order_by_recency.
  induction l as [|x l IH]; cbn [List.fold_right]; [constructor|].
  now apply insert_by_recency_sorted.
Qed.

(** What [list_documents] answers: with a limit that can be bound, the
    stored documents from the most recent on, cut at the limit; with one
    that cannot, OverflowError. *)
Lemma list_documents_facts conn k :
  let docs := Db.documents (Db.current conn) in
  match Db.list_documents conn k with
  | Ok rows =>
      Db.int64_min <= k <= Db.int64_max
      /\ StronglySorted newer rows
      /\ (0 <= k -> Z.of_nat (List.length rows) <= k)
      /\ (forall r, In r rows -> In r docs)
      /\ (k < 0 \/ Z.of_nat (List.length docs) <= k -> Permutation rows docs)
  | Raise m =>
      (k < Db.int64_min \/ Db.int64_max < k)
      /\ m = "Python int too large to convert to SQLite INTEGER"%string
  end.
Proof.
  cbv zeta. unfold Db.list_documents, Db.bind_int.
  destruct (Db.fits_int64 k) eqn:Hf.
  2:{ split; [now apply fits_int64_false | reflexivity]. }
  split; [now apply fits_int64_iff|]. split; [|split; [|split]].
  - apply limit_sorted, order_by_recency_sorted.
  - intros Hk. unfold Db.limit. destruct (Z.ltb_spec k 0); [lia|].
    rewrite List.length_firstn. lia.
  - intros r Hr. apply limit_In in Hr.
    exact (Permutation_in _ (order_by_recency_perm _) Hr).
  - intros Hk. unfold Db.limit.
    pose proof (Permutation_length
                  (order_by_recency_perm (Db.documents (Db.current conn))))
      as Hl.
    destruct (Z.ltb_spec k 0); [apply order_by_recency_perm|].
    rewrite List.firstn_all2 by lia. apply order_by_recency_perm.
Qed.

End Listing.

(** X26: for a limit that fits a signed 64-bit integer, list_documents
    returns stored documents only, the most recently indexed first; at
    most limit of them when limit is not negative; and all of them, each
    once, when limit is negative or at least the number of documents.
    For any other limit it raises OverflowError. *)
Theorem list_documents_recent_first conn k :
  let docs := Db.documents (Db.current conn) in
  match Db.list_documents conn k with
  | Ok rows =>
      Db.int64_min <= k <= Db.int64_max
      /\ StronglySorted
           (fun a b => (Db.d_indexed_at b <= Db.d_indexed_at a)%Q) rows
      /\ (0 <= k -> Z.of_nat (List.length rows) <= k)
      /\ (forall r, In r rows -> In r docs)
      /\ (k < 0 \/ Z.of_nat (List.length docs) <= k -> Permutation rows docs)
  | Raise m =>
      (k < Db.int64_min \/ Db.int64_max < k)
      /\ m = "Python int too large to convert to SQLite INTEGER"%string
  end.
Proof. exact (list_documents_facts conn k). Qed.

(** X27: GET /docs never changes the process.  Without a limit
    parameter it answers with at most 200 stored documents, most recent
    first.  With one, it fails with int's error when int rejects the
    parameter and with OverflowError when the integer does not fit 64
    bits, in both cases leaving the store unread; otherwise it answers
    with stored documents, most recent first, at most as many as a limit
    that is not negative allows. *)
Theorem docs_endpoint E limit_arg w :
  let listing := fun k rows =>
    StronglySorted
      (fun a b => (Db.d_indexed_at b <= Db.d_indexed_at a)%Q) rows
    /\ (0 <= k -> Z.of_nat (List.length rows) <= k)
    /\ (forall r, In r rows ->
                  In r (Db.documents (Db.current (App.conn w)))) in
  match limit_arg with
  | None => exists rows, App.docs E None w = (Ok rows, w) /\ listing 200 rows
  | Some s =>
      match int_of_str E s with
      | Raise m => App.docs E (Some s) w = (Raise m, w)
      | Ok k =>
          if Db.fits_int64 k
          then exists rows,
                 App.docs E (Some s) w = (Ok rows, w) /\ listing k rows
          else App.docs E (Some s) w
               = (Raise "Python int too large to convert to SQLite INTEGER",
                  w)
      end
  end.
Proof.
  cbv zeta. unfold App.docs. unfold_monad.
  assert (Hok : forall k, Db.fits_int64 k = true ->
            exists rows,
              Db.list_documents (App.conn w) k = Ok rows
              /\ StronglySorted
                   (fun a b => (Db.d_indexed_at b <= Db.d_indexed_at a)%Q)
                   rows
              /\ (0 <= k -> Z.of_nat (List.length rows) <= k)
              /\ (forall r, In r rows ->
                            In r (Db.documents (Db.current (App.conn w))))).
  { intros k Hk. pose proof (list_documents_facts (App.conn w) k) as H.
    cbv zeta in H.
    destruct (Db.list_documents (App.conn w) k) as [rows|m].
    - exists rows. destruct H as (_ & Hs & Hl & Hin & _). auto.
    - destruct H as (H & _). apply fits_int64_false in H. congruence. }
  destruct limit_arg as [s|].
  - destruct (int_of_str E s) as [k|m]; [|reflexivity].
    destruct (Db.fits_int64 k) eqn:Hk.
    + destruct (Hok k Hk) as (rows & -> & H). exists rows. auto.
    + unfold Db.list_documents, Db.bind_int. rewrite Hk. reflexivity.
  - destruct (Hok 200 eq_refl) as (rows & -> & H). exists rows. auto.
Qed.

(** ** Inserting chunks *)

Lemma existsb_id_iff k (cs : list Db.ChunkRow) :
  List.existsb (fun c => String.eqb (Db.c_id c) k) cs = true
  <-> In k (List.map Db.c_id cs).
Proof.
  rewrite List.existsb_exists, List.in_map_iff. split.
  - intros (c & Hin & He). exists c. split; [now apply String.eqb_eq|auto].
  - intros (c & He & Hin). exists c. split; [auto|now apply String.eqb_eq].
Qed.

(** X28: insert_chunks goes through exactly when the ids of the rows
    are pairwise distinct and none of them is stored already; the rows
    are then appended in order.  Otherwise it raises the UNIQUE
    constraint error.  In both cases what is committed is untouched. *)
Theorem insert_chunks_unique_or_raise rows : forall conn,
  let stored := List.map Db.c_id (Db.chunks (Db.current conn)) in
  let fresh := NoDup (List.map Db.c_id rows)
               /\ Forall (fun r => ~ In (Db.c_id r) stored) rows in
  match Db.insert_chunks rows conn with
  | (Ok _, conn') =>
      fresh
      /\ Db.chunks (Db.current conn') = Db.chunks (Db.current conn) ++ rows
      /\ Db.committed conn' = Db.committed conn
  | (Raise m, conn') =>
      ~ fresh
      /\ m = "UNIQUE constraint failed: chunks.id"%string
      /\ Db.committed conn' = Db.committed conn
  end.
Proof.
  induction rows as [|row rows IH]; intros conn; cbv zeta;
    cbn [Db.insert_chunks].
  - cbn. rewrite app_nil_r. repeat split; constructor.
  - destruct (List.existsb _ _) eqn:Ex.
    + split; [|auto]. intros (_ & Hf). inversion Hf as [|? ? Hrow _]; subst.
      apply Hrow. now apply existsb_id_iff.
    + assert (Hrow : ~ In (Db.c_id row)
                       (List.map Db.c_id (Db.chunks (Db.current conn)))).
      { intros K. apply existsb_id_iff in K. congruence. }
      specialize (IH (Db.execute
                        (fun t => {| Db.documents := Db.documents t;
                                     Db.chunks := Db.chunks t ++ [row];
                                     Db.chunks_fts := Db.chunks_fts t |})
                        conn)).
      cbv zeta in IH.
      destruct (Db.insert_chunks rows _) as [[[]|m] conn'];
        cbn [Db.execute Db.current Db.committed Db.chunks] in IH.
      * destruct IH as ((Hn & Hf) & Hc & Hcm). split; [|split; [|exact Hcm]].
        -- split.
           ++ cbn [List.map]. constructor; [|exact Hn].
              intros K. apply List.in_map_iff in K.
              destruct K as (r & Hr & Hin). rewrite Forall_forall in Hf.
              apply (Hf r Hin). rewrite List.map_app. apply in_or_app.
              right. cbn. now left.
           ++ constructor; [exact Hrow|].
              eapply Forall_impl; [|exact Hf]. cbv beta. intros r Hr K.
              apply Hr. rewrite List.map_app. apply in_or_app. now left.
        -- rewrite Hc, <- app_assoc. reflexivity.
      * destruct IH as (Hnf & Hm & Hcm). split; [|auto].
        intros (Hn & Hf). apply Hnf.
        inversion Hn as [|? ? Hx Hn']; subst.
        inversion Hf as [|? ? _ Hf']; subst. split; [exact Hn'|].
        apply Forall_forall. intros r Hr K. rewrite List.map_app in K.
        apply in_app_or in K. destruct K as [K|[K|[]]].
        -- rewrite Forall_forall in Hf'. now apply (Hf' r Hr).
        -- apply Hx. rewrite K. now apply List.in_map.
Qed.

(** ** Reading never writes *)

(** X29: POST /query never modifies the store: whatever the body, and
    whether it answers or fails, the connection afterwards is the
    connection before. *)
Theorem query_is_read_only E S body w :
  App.conn (snd (App.query E S body w)) = App.conn w.
Proof.
  unfold App.query. unfold_monad.
  destruct (App.body_get body "query") as [qv|]; [|reflexivity].
  destruct (App.or_else qv (App.JStr [])) as [| | | |s| |]; try reflexivity.
  destruct (strip s) as [|c q0]; [reflexivity|].
  destruct (App.body_get body "top_k") as [tk|]; [|reflexivity].
  destruct (App.py_int E
              (App.or_else tk (App.JNum (Config.default_top_k S))))
    as [k|]; [|reflexivity].
  destruct (App.body_get body "snippet_chars") as [sc|]; [|reflexivity].
  destruct (App.py_int E
              (App.or_else sc (App.JNum (Config.default_snippet_chars S))))
    as [n|]; [|reflexivity].
  cbn. destruct (Db.search_chunks _ _ _ _ _); reflexivity.
Qed.
